(** * The connection hub of the chat backend

    A shallow embedding of [backend/internal/websocket/hub.go] (registry,
    the three delivery strategies, the two pumps of a connection), of the
    two persistence calls of [backend/internal/db/db.go] the inbound pump
    makes, and of the websocket admission handler of the [api] package.

    Go pointers to [Client] are addresses into an explicit heap, so that
    the registry's two maps and every in-flight delivery alias the same
    client object, as they do in the program.  Buffered channels are
    records with a buffer, a capacity and a closed flag; the run-time
    faults of channels (send on a closed channel, close of a closed
    channel) are outcomes of the operations. *)

From stdpp Require Import gmap strings list fin_maps pretty.
From Stdlib Require Import ZArith Strings.Byte.

Set Warnings "-register-all,-clear-no-such-hyp".

(** ** Go values *)

Abbreviation bytes := (list byte).

#[global] Instance byte_eq_dec : EqDecision byte := Byte.byte_eq_dec.

(** A Go [error] value: [None] is [nil]. *)
Definition error := option string.

(** [models.Message]; [CreatedAt] is a clock reading. *)
Record Message := {
  ID : Z;
  ConversationID : Z;
  SenderID : Z;
  Content : string;
  CreatedAt : Z
}.

(** [models.User]. *)
Record User := {
  User_ID : Z;
  Username : string;
  Password : string;
  Avatar : string;
  User_CreatedAt : Z
}.

(** What an [interface{}] holds in the code modelled here.  A JSON number
    decodes to a [float64]; the model carries the numbers that have an
    integral value. *)
Inductive value : Type :=
| VNil
| VBool (b : bool)
| VFloat64 (f : Z)
| VInt64 (i : Z)
| VString (s : string)
| VMap (m : gmap string value)
| VMessage (m : Message)
| VWebSocketMessage (type : string) (payload : value).

(** [models.WebSocketMessage]. *)
Record WebSocketMessage := {
  Type' : string;
  Payload : value
}.

Definition as_interface (m : WebSocketMessage) : value :=
  VWebSocketMessage (Type' m) (Payload m).

(** Go's [m[key]] on a [map[string]interface{}]: the zero value [nil] when
    the key is absent. *)
Definition index (m : gmap string value) (key : string) : value :=
  default VNil (m !! key).

(** The dynamic type of a value, as the run time prints it. *)
Definition type_name (v : value) : string :=
  match v with
  | VNil => "nil"
  | VBool _ => "bool"
  | VFloat64 _ => "float64"
  | VInt64 _ => "int64"
  | VString _ => "string"
  | VMap _ => "map[string]interface {}"
  | VMessage _ => "*models.Message"
  | VWebSocketMessage _ _ => "models.WebSocketMessage"
  end.

(** The panic of a failed single-value type assertion [v.(T)]. *)
Definition interface_conversion (v : value) (T : string) : string :=
  "interface conversion: interface {} is " +:+ type_name v +:+ ", not " +:+ T.

Definition int64_min : Z := - 2 ^ 63.
Definition int64_max : Z := 2 ^ 63 - 1.

(** The conversion [int64(f)] of an integral [float64]; out of range the
    result is implementation-specific, the smallest [int64] on amd64. *)
Definition int64_of_float64 (f : Z) : Z :=
  if bool_decide (int64_min ≤ f ≤ int64_max)%Z then f else int64_min.

(** ** Outcomes of a call *)

Inductive outcome (A : Type) : Type :=
| Done (a : A)
| Panic (msg : string)
| Parked.
Arguments Done {A} a.
Arguments Panic {A} msg.
Arguments Parked {A}.

#[global] Instance outcome_ret : MRet outcome := λ A a, Done a.

#[global] Instance outcome_bind : MBind outcome := λ A B k m,
  match m with
  | Done a => k a
  | Panic msg => Panic msg
  | Parked => Parked
  end.

(** The first two statements of the case ["message"] of [ReadPump]:
    [int64(msg["conversation_id"].(float64))], then
    [msg["content"].(string)].  Both assertions are unchecked: a field
    that is absent, or holds a value of another type, panics. *)
Definition chat_fields (msg : gmap string value) : outcome (Z * string) :=
  match index msg "conversation_id" with
  | VFloat64 f =>
      match index msg "content" with
      | VString content => Done (int64_of_float64 f, content)
      | v => Panic (interface_conversion v "string")
      end
  | v => Panic (interface_conversion v "float64")
  end.

(** ** Buffered channels of [[]byte] *)

Record chan := {
  buf : list bytes;
  cap : nat;
  closed : bool
}.

Definition make_chan (n : nat) : chan :=
  {| buf := []; cap := n; closed := false |}.

Definition full (c : chan) : bool := bool_decide (cap c ≤ length (buf c)).

Definition room (c : chan) : nat := cap c - length (buf c).

Definition enqueue (c : chan) (data : bytes) : chan :=
  {| buf := buf c ++ [data]; cap := cap c; closed := closed c |}.

Inductive send_attempt :=
| Enqueued (c : chan)
| WouldBlock
| SendOnClosed.

(** The communication [c <- data] tried once: a closed channel faults, a
    channel with room takes the value, a full one is not ready. *)
Definition try_send (c : chan) (data : bytes) : send_attempt :=
  if closed c then SendOnClosed
  else if full c then WouldBlock
  else Enqueued (enqueue c data).

(** [close(c)]; [None] is the fault "close of closed channel". *)
Definition close (c : chan) : option chan :=
  if closed c then None
  else Some {| buf := buf c; cap := cap c; closed := true |}.

Inductive recv_attempt :=
| Received (data : bytes) (c : chan)
| ChannelDone
| RecvWouldBlock.

(** [data, ok := <-c] tried once: buffered values are still handed out
    after the close, [ok] is false once the closed channel is empty. *)
Definition try_recv (c : chan) : recv_attempt :=
  match buf c with
  | data :: rest => Received data {| buf := rest; cap := cap c; closed := closed c |}
  | [] => if closed c then ChannelDone else RecvWouldBlock
  end.

(** ** The transport *)

Inductive frame :=
| TextMessage (data : bytes)
| CloseMessage.

(** [*websocket.Conn], as far as the pumps use it: the frames written to
    the peer, whether [Close] was called, and how many more writes the
    network accepts ([None]: it does not fail). *)
Record Conn := {
  wire : list frame;
  conn_closed : bool;
  writes_left : option nat
}.

Definition WriteMessage (f : frame) (c : Conn) : Conn * error :=
  if conn_closed c then (c, Some "use of closed network connection")
  else match writes_left c with
       | Some 0 => (c, Some "write: broken pipe")
       | Some (S n) =>
           ({| wire := wire c ++ [f]; conn_closed := false; writes_left := Some n |}, None)
       | None =>
           ({| wire := wire c ++ [f]; conn_closed := false; writes_left := None |}, None)
       end.

Definition Conn_Close (c : Conn) : Conn :=
  {| wire := wire c; conn_closed := true; writes_left := writes_left c |}.

(** ** Clients and the hub *)

Abbreviation ptr := nat (only parsing).

Record Client := {
  conn : Conn;
  send : chan;
  userID : Z;
  username : string
}.

Definition with_send (cl : Client) (c : chan) : Client :=
  {| conn := conn cl; send := c; userID := userID cl; username := username cl |}.

Definition with_conn (cl : Client) (c : Conn) : Client :=
  {| conn := c; send := send cl; userID := userID cl; username := username cl |}.

(** The heap of clients and the two maps of [Hub]. *)
Record State := {
  heap : gmap ptr Client;
  clients : gmap ptr bool;
  userMap : gmap Z ptr
}.

Definition NewHub : State :=
  {| heap := ∅; clients := ∅; userMap := ∅ |}.

Definition store (p : ptr) (cl : Client) (s : State) : State :=
  {| heap := <[p := cl]> (heap s); clients := clients s; userMap := userMap s |}.

(** [NewClient]: a new client object with an open queue of capacity 256. *)
Definition NewClient (c : Conn) (uid : Z) (name : string) (s : State) : ptr * State :=
  let p := fresh (dom (heap s)) in
  (p, store p {| conn := c; send := make_chan 256; userID := uid; username := name |} s).

(** ** External collaborators *)

(** [encoding/json]. *)
Class JSON := {
  json_Marshal : value → bytes + string;
  json_Unmarshal : bytes → WebSocketMessage + string
}.

(** [sql.Result] of an [Exec]. *)
Record sqlResult := {
  LastInsertId : Z + string
}.

(** [*sql.Rows] of the participants query: what [Scan] gives on each row
    [Next] reaches, and the error [Err] reports after the loop. *)
Record sqlRows := {
  scanned : list (Z + string);
  rows_Err : error
}.

(** The three statements the modelled code sends to [database/sql], over
    a database state [DB]. *)
Class SQL (DB : Type) := {
  exec_insert_message : DB → Z → Z → string → Z → DB * (sqlResult + string);
  query_participants : DB → Z → sqlRows + string;
  query_user_by_id : DB → Z → User + string
}.

Inductive jwt_error :=
| ErrMalformed
| ErrSignatureInvalid
| ErrExpired.

(** What [jwt.ParseWithClaims] returns: the error, the [Valid] flag of the
    token and the claims it filled in. *)
Record jwt_parsed := {
  parse_err : option jwt_error;
  token_Valid : bool;
  claims : gmap string value
}.

Class JWT := {
  jwt_ParseWithClaims : string → string → jwt_parsed
}.

(** ** [Hub.Run], [SendToUser], [SendToConversation], [BroadcastMessage] *)

Section hub_operations.
Context {codec : JSON}.

Definition welcomeMsg : WebSocketMessage :=
  {| Type' := "system";
     Payload := VMap {[ "message" := VString "Connected to chat server" ]} |}.

(** The statement [client.send <- data], which waits for room. *)
Definition blocking_send (client : ptr) (data : bytes) (s : State) : outcome State :=
  match heap s !! client with
  | None => Panic "nil pointer dereference"
  | Some cl =>
      match try_send (send cl) data with
      | Enqueued c => Done (store client (with_send cl c) s)
      | WouldBlock => Parked
      | SendOnClosed => Panic "send on closed channel"
      end
  end.

(** [select { case client.send <- data: ... default: ... }]: the state
    after the send, or [None] when the default branch is taken. *)
Definition select_send (client : ptr) (data : bytes) (s : State) : outcome (option State) :=
  match heap s !! client with
  | None => Panic "nil pointer dereference"
  | Some cl =>
      match try_send (send cl) data with
      | Enqueued c => Done (Some (store client (with_send cl c) s))
      | WouldBlock => Done None
      | SendOnClosed => Panic "send on closed channel"
      end
  end.

(** The case [client := <-h.Register] of [Run]. *)
Definition Run_Register (client : ptr) (s : State) : outcome State :=
  match heap s !! client with
  | None => Panic "nil pointer dereference"
  | Some cl =>
      let s1 := {| heap := heap s;
                   clients := <[client := true]> (clients s);
                   userMap := <[userID cl := client]> (userMap s) |} in
      match json_Marshal (as_interface welcomeMsg) with
      | inl data => blocking_send client data s1
      | inr _ => Done s1
      end
  end.

(** The case [client := <-h.Unregister] of [Run]. *)
Definition Run_Unregister (client : ptr) (s : State) : outcome State :=
  match clients s !! client with
  | None => Done s
  | Some _ =>
      match heap s !! client with
      | None => Panic "nil pointer dereference"
      | Some cl =>
          match close (send cl) with
          | None => Panic "close of closed channel"
          | Some c =>
              Done {| heap := <[client := with_send cl c]> (heap s);
                      clients := delete client (clients s);
                      userMap := delete (userID cl) (userMap s) |}
          end
      end
  end.

(** The three statements [close(client.send)], [delete(h.clients, client)],
    [delete(h.userMap, client.userID)] of the default branches in [Run]'s
    broadcast case and in [SendToUser]; no test of membership comes first. *)
Definition close_and_remove (client : ptr) (s : State) : outcome State :=
  match heap s !! client with
  | None => Panic "nil pointer dereference"
  | Some cl =>
      match close (send cl) with
      | None => Panic "close of closed channel"
      | Some c =>
          Done {| heap := <[client := with_send cl c]> (heap s);
                  clients := delete client (clients s);
                  userMap := delete (userID cl) (userMap s) |}
      end
  end.

(** One iteration of [for client := range h.clients]. *)
Definition Broadcast_to (message : bytes) (client : ptr) (s : State) : outcome State :=
  r ← select_send client message s;
  match r with
  | Some s' => Done s'
  | None => close_and_remove client s
  end.

Fixpoint Broadcast_range (order : list ptr) (message : bytes) (s : State) : outcome State :=
  match order with
  | [] => Done s
  | client :: rest => s' ← Broadcast_to message client s; Broadcast_range rest message s'
  end.

(** The case [message := <-h.Broadcast] of [Run]; the keys are visited in
    the order [elements] lists them. *)
Definition Run_Broadcast (message : bytes) (s : State) : outcome State :=
  Broadcast_range (elements (dom (clients s))) message s.

Inductive event :=
| Register (client : ptr)
| Unregister (client : ptr)
| Broadcast (message : bytes).

(** One turn of the [select] loop of [Run]. *)
Definition Run (ev : event) (s : State) : outcome State :=
  match ev with
  | Register client => Run_Register client s
  | Unregister client => Run_Unregister client s
  | Broadcast message => Run_Broadcast message s
  end.

Definition SendToUser (uid : Z) (message : value) (s : State) : outcome (State * error) :=
  match userMap s !! uid with
  | None => Done (s, None)
  | Some client =>
      match json_Marshal message with
      | inr err => Done (s, Some err)
      | inl data =>
          r ← select_send client data s;
          match r with
          | Some s' => Done (s', None)
          | None => s' ← close_and_remove client s; Done (s', None)
          end
      end
  end.

(** One iteration of [for _, userID := range participants]. *)
Definition SendToConversation_to (data : bytes) (uid : Z) (s : State) : outcome State :=
  match userMap s !! uid with
  | None => Done s
  | Some client =>
      r ← select_send client data s;
      match r with
      | Some s' => Done s'
      | None => Done s
      end
  end.

Fixpoint SendToConversation_range (participants : list Z) (data : bytes) (s : State)
  : outcome State :=
  match participants with
  | [] => Done s
  | uid :: rest =>
      s' ← SendToConversation_to data uid s; SendToConversation_range rest data s'
  end.

Definition SendToConversation (conversationID : Z) (message : value)
    (participants : list Z) (s : State) : outcome (State * error) :=
  match json_Marshal message with
  | inr err => Done (s, Some err)
  | inl data => s' ← SendToConversation_range participants data s; Done (s', None)
  end.

(** [BroadcastMessage]: [h.Broadcast] has no buffer, so the send returns
    when [Run] takes the value, and [Run] then serves its broadcast case. *)
Definition BroadcastMessage (message : value) (s : State) : outcome (State * error) :=
  match json_Marshal message with
  | inr err => Done (s, Some err)
  | inl data => s' ← Run_Broadcast data s; Done (s', None)
  end.

(** *** [SendToUser] as the caller's goroutine runs it

    The function takes and releases the hub's lock twice; another
    goroutine can run between the three regions.  [AtLookup] is the entry,
    [AtSelect] the point after the read lock is released and the message
    is marshalled, [AtRemove] the default branch before it takes the write
    lock. *)
Inductive SendToUser_pc :=
| AtLookup
| AtSelect (client : ptr) (data : bytes)
| AtRemove (client : ptr)
| Returned (err : error).

Definition SendToUser_step (uid : Z) (message : value) (pc : SendToUser_pc) (s : State)
  : outcome (SendToUser_pc * State) :=
  match pc with
  | AtLookup =>
      match userMap s !! uid with
      | None => Done (Returned None, s)
      | Some client =>
          match json_Marshal message with
          | inr err => Done (Returned (Some err), s)
          | inl data => Done (AtSelect client data, s)
          end
      end
  | AtSelect client data =>
      r ← select_send client data s;
      match r with
      | Some s' => Done (Returned None, s')
      | None => Done (AtRemove client, s)
      end
  | AtRemove client => s' ← close_and_remove client s; Done (Returned None, s')
  | Returned err => Done (Returned err, s)
  end.

(** Who runs next: the caller of [SendToUser], or the hub's goroutine
    serving one event. *)
Inductive turn :=
| Caller
| HubLoop (ev : event).

Fixpoint interleave (uid : Z) (message : value) (sched : list turn)
    (pc : SendToUser_pc) (s : State) : outcome (SendToUser_pc * State) :=
  match sched with
  | [] => Done (pc, s)
  | Caller :: rest =>
      '(pc', s') ← SendToUser_step uid message pc s; interleave uid message rest pc' s'
  | HubLoop ev :: rest =>
      s' ← Run ev s; interleave uid message rest pc s'
  end.

End hub_operations.

(** ** Persistence: [SaveMessage], [GetConversationParticipantIDs], [GetUserByID] *)

Section persistence.
Context {DB : Type} {sql : SQL DB}.

Definition SaveMessage (message : Message) (d : DB) : DB * (Message + string) :=
  match exec_insert_message d (ConversationID message) (SenderID message)
          (Content message) (CreatedAt message) with
  | (d', inr err) => (d', inr ("failed to save message: " +:+ err))
  | (d', inl result) =>
      match LastInsertId result with
      | inr err => (d', inr ("failed to get message ID: " +:+ err))
      | inl id =>
          (d', inl {| ID := id;
                      ConversationID := ConversationID message;
                      SenderID := SenderID message;
                      Content := Content message;
                      CreatedAt := CreatedAt message |})
      end
  end.

(** The loop [for rows.Next() { ... rows.Scan(&id) ... append ... }]. *)
Fixpoint scan_rows (rows : list (Z + string)) (participantIDs : list Z) : list Z + string :=
  match rows with
  | [] => inl participantIDs
  | inr err :: _ => inr ("failed to scan participant ID: " +:+ err)
  | inl id :: rest => scan_rows rest (participantIDs ++ [id])
  end.

Definition GetConversationParticipantIDs (conversationID : Z) (d : DB) : list Z + string :=
  match query_participants d conversationID with
  | inr err => inr ("failed to get participants: " +:+ err)
  | inl rows =>
      match scan_rows (scanned rows) [] with
      | inr err => inr err
      | inl participantIDs =>
          match rows_Err rows with
          | Some err => inr ("error iterating participants: " +:+ err)
          | None => inl participantIDs
          end
      end
  end.

Definition GetUserByID (id : Z) (d : DB) : User + string :=
  query_user_by_id d id.

End persistence.

(** ** The pumps of a connection *)

(** The hub and the database it holds. *)
Record World (DB : Type) := {
  hub : State;
  database : DB
}.
Arguments hub {DB} w.
Arguments database {DB} w.

Inductive read_result :=
| ReadFailed (err : string)
| ReadOK (message : bytes).

Inductive pump_status :=
| Waiting
| ExitQueueClosed
| ExitWriteError
| ExitReadError.

Section pumps.
Context {codec : JSON} {DB : Type} {sql : SQL DB}.

(** The case ["message"] of the switch in [ReadPump]; [now] is what
    [time.Now()] reads.  Its first two statements are the unchecked
    assertions of [chat_fields]; the database and the hub are reached only
    after both have passed. *)
Definition ReadPump_message (c : ptr) (now : Z) (payload : value) (w : World DB)
  : outcome (World DB) :=
  match payload with
  | VMap msg =>
      '(conversationID, content) ← chat_fields msg;
      match heap (hub w) !! c with
      | None => Panic "nil pointer dereference"
      | Some cl =>
          let newMessage := {| ID := 0;
                               ConversationID := conversationID;
                               SenderID := userID cl;
                               Content := content;
                               CreatedAt := now |} in
          match SaveMessage newMessage (database w) with
          | (d, inr err) => Done {| hub := hub w; database := d |}
          | (d, inl savedMessage) =>
              let response := {| Type' := "message";
                                 Payload := VMessage savedMessage |} in
              match GetConversationParticipantIDs conversationID d with
              | inr err => Done {| hub := hub w; database := d |}
              | inl participants =>
                  '(h, _) ← SendToConversation conversationID
                              (as_interface response) participants (hub w);
                  Done {| hub := h; database := d |}
              end
          end
      end
  | _ => Done w
  end.

(** The case ["typing"]. *)
Definition ReadPump_typing (c : ptr) (payload : value) (w : World DB) : outcome (World DB) :=
  match payload with
  | VMap typing =>
      match heap (hub w) !! c with
      | None => Panic "nil pointer dereference"
      | Some cl =>
          let response :=
            {| Type' := "typing";
               Payload := VMap (<["user_id" := VInt64 (userID cl)]>
                               (<["conversation_id" := index typing "conversation_id"]>
                               (<["is_typing" := index typing "is_typing"]> ∅))) |} in
          '(h, _) ← BroadcastMessage (as_interface response) (hub w);
          Done {| hub := h; database := database w |}
      end
  | _ => Done w
  end.

(** The body of the loop for one frame that was read. *)
Definition ReadPump_frame (c : ptr) (now : Z) (message : bytes) (w : World DB)
  : outcome (World DB) :=
  match json_Unmarshal message with
  | inr err => Done w
  | inl wsMessage =>
      if decide (Type' wsMessage = "message") then
        ReadPump_message c now (Payload wsMessage) w
      else if decide (Type' wsMessage = "typing") then
        ReadPump_typing c (Payload wsMessage) w
      else Done w
  end.

(** The deferred function of [ReadPump]. *)
Definition ReadPump_exit (c : ptr) (w : World DB) : outcome (World DB) :=
  h ← Run_Unregister c (hub w);
  match heap h !! c with
  | None => Panic "nil pointer dereference"
  | Some cl =>
      Done {| hub := store c (with_conn cl (Conn_Close (conn cl))) h;
              database := database w |}
  end.

(** [ReadPump] against what [ReadMessage] returns on its successive calls,
    each with the clock reading of that iteration; when the list is used
    up the pump waits in [ReadMessage]. *)
Fixpoint ReadPump (c : ptr) (incoming : list (Z * read_result)) (w : World DB)
  : outcome (World DB * pump_status) :=
  match incoming with
  | [] => Done (w, Waiting)
  | (_, ReadFailed err) :: _ => w' ← ReadPump_exit c w; Done (w', ExitReadError)
  | (now, ReadOK message) :: rest =>
      w' ← ReadPump_frame c now message w; ReadPump c rest w'
  end.

End pumps.

(** The loop of [WritePump] on the client's queue and transport, while no
    other goroutine touches the queue; the deferred [c.conn.Close()] runs
    at both [return]s. *)
Fixpoint WritePump_loop (fuel : nat) (ch : chan) (cn : Conn)
  : option (chan * Conn * pump_status) :=
  match fuel with
  | 0 => None
  | S fuel' =>
      match try_recv ch with
      | RecvWouldBlock => Some (ch, cn, Waiting)
      | ChannelDone =>
          let '(cn', _) := WriteMessage CloseMessage cn in
          Some (ch, Conn_Close cn', ExitQueueClosed)
      | Received message ch' =>
          match WriteMessage (TextMessage message) cn with
          | (cn', Some err) => Some (ch', Conn_Close cn', ExitWriteError)
          | (cn', None) => WritePump_loop fuel' ch' cn'
          end
      end
  end.

(** [WritePump] run until it returns or waits for the next value. *)
Definition WritePump (cl : Client) : option (Client * pump_status) :=
  match WritePump_loop (S (length (buf (send cl)))) (send cl) (conn cl) with
  | Some (ch, cn, st) => Some (with_conn (with_send cl ch) cn, st)
  | None => None
  end.

(** Among the next [n] writes of a text frame to [cn], one fails. *)
Definition write_fails (cn : Conn) (n : nat) : bool :=
  match n with
  | 0 => false
  | S _ =>
      conn_closed cn ||
      match writes_left cn with
      | Some k => bool_decide (k < n)
      | None => false
      end
  end.

(** The transport takes [n] more writes. *)
Definition takes (cn : Conn) (n : nat) : bool :=
  negb (conn_closed cn) &&
  match writes_left cn with
  | Some k => bool_decide (n ≤ k)
  | None => true
  end.

(** ** Admission: [HandleWebSocket] *)

Definition StatusUnauthorized : Z := 401.
Definition StatusNotFound : Z := 404.

(** The request as the handler reads it: its cookies, and what
    [upgrader.Upgrade] makes of its handshake: the connection, or the error
    it returns once it has itself answered the client with an HTTP error. *)
Record Request := {
  RemoteAddr : string;
  Cookie : gmap string string;
  Upgrade : Conn + string
}.

(** How the handler ends: with [http.Error], with a failed upgrade (the
    handler writes nothing, the upgrader has refused the handshake and
    answered the client; no connection exists), or with a client handed to
    the hub. *)
Inductive admission :=
| HttpError (body : string) (code : Z)
| UpgradeFailed (err : string)
| Upgraded (client : ptr).

Section admission_handler.
Context {codec : JSON} {jwt : JWT} {DB : Type} {sql : SQL DB}.

Definition HandleWebSocket (r : Request) (w : World DB) : outcome (admission * World DB) :=
  match Cookie r !! "auth_token" with
  | None => Done (HttpError "Unauthorized" StatusUnauthorized, w)
  | Some cookie =>
      let token := jwt_ParseWithClaims cookie "your-secret-key" in
      if bool_decide (is_Some (parse_err token)) || negb (token_Valid token) then
        Done (HttpError "Unauthorized" StatusUnauthorized, w)
      else
        let userIDFloat := match index (claims token) "user_id" with
                           | VFloat64 f => f
                           | _ => 0%Z
                           end in
        let userID := int64_of_float64 userIDFloat in
        match GetUserByID userID (database w) with
        | inr err => Done (HttpError "User not found" StatusNotFound, w)
        | inl user =>
            match Upgrade r with
            | inr err => Done (UpgradeFailed err, w)
            | inl cn =>
                let '(client, s) := NewClient cn userID (Username user) (hub w) in
                s' ← Run_Register client s;
                Done (Upgraded client, {| hub := s'; database := database w |})
            end
        end
  end.

(** The identity the token claims: [int64(userIDFloat)]. *)
Definition claimed_user (token : jwt_parsed) : Z :=
  int64_of_float64 match index (claims token) "user_id" with
                   | VFloat64 f => f
                   | _ => 0%Z
                   end.

(** The request carries no credential, one that does not parse (bad
    signature, expired, malformed), one that is not valid, or one whose
    identity the database does not know. *)
Inductive auth_failure (r : Request) (w : World DB) : Prop :=
| CredentialMissing :
    Cookie r !! "auth_token" = None → auth_failure r w
| CredentialRefused (cookie : string) (e : jwt_error) :
    Cookie r !! "auth_token" = Some cookie →
    parse_err (jwt_ParseWithClaims cookie "your-secret-key") = Some e →
    auth_failure r w
| CredentialNotValid (cookie : string) :
    Cookie r !! "auth_token" = Some cookie →
    token_Valid (jwt_ParseWithClaims cookie "your-secret-key") = false →
    auth_failure r w
| UnknownUser (cookie : string) (err : string) :
    Cookie r !! "auth_token" = Some cookie →
    parse_err (jwt_ParseWithClaims cookie "your-secret-key") = None →
    token_Valid (jwt_ParseWithClaims cookie "your-secret-key") = true →
    GetUserByID (claimed_user (jwt_ParseWithClaims cookie "your-secret-key"))
      (database w) = inr err →
    auth_failure r w.

End admission_handler.

(** ** Sequences of admissions and evictions *)

(** [Connect] is what [HandleWebSocket] does once the credential is
    accepted: [NewClient] and the hand-over on [h.hub.Register]; [Evict] is
    a client handed over on [h.hub.Unregister]. *)
Inductive registry_op :=
| Connect (cn : Conn) (uid : Z) (name : string)
| Evict (client : ptr).

Section registry.
Context {codec : JSON}.

Definition apply_op (op : registry_op) (s : State) : outcome State :=
  match op with
  | Connect cn uid name =>
      let '(client, s1) := NewClient cn uid name s in Run_Register client s1
  | Evict client => Run_Unregister client s
  end.

Fixpoint apply_ops (ops : list registry_op) (s : State) : outcome State :=
  match ops with
  | [] => Done s
  | op :: rest => s' ← apply_op op s; apply_ops rest s'
  end.

(** The operation admits a connection for an identity that has an entry
    in the identity map. *)
Definition overwrites (op : registry_op) (s : State) : bool :=
  match op with
  | Connect _ uid _ => bool_decide (is_Some (userMap s !! uid))
  | Evict _ => false
  end.

Fixpoint no_overwrite (ops : list registry_op) (s : State) : bool :=
  match ops with
  | [] => true
  | op :: rest =>
      negb (overwrites op s) &&
      match apply_op op s with
      | Done s' => no_overwrite rest s'
      | _ => false
      end
  end.

(** Some live client has identity [uid]. *)
Definition has_connection (s : State) (uid : Z) : bool :=
  existsb (λ c, match heap s !! c with
                | Some cl => bool_decide (userID cl = uid)
                | None => false
                end) (elements (dom (clients s))).

(** The operation admits a connection for an identity one of whose
    connections is live: a second login. *)
Definition second_login (op : registry_op) (s : State) : bool :=
  match op with
  | Connect _ uid _ => has_connection s uid
  | Evict _ => false
  end.

Fixpoint no_second_login (ops : list registry_op) (s : State) : bool :=
  match ops with
  | [] => true
  | op :: rest =>
      negb (second_login op s) &&
      match apply_op op s with
      | Done s' => no_second_login rest s'
      | _ => false
      end
  end.

(** What reaches the hub when the goroutines run one after the other: an
    admission or eviction, or one of the three deliveries. *)
Inductive hub_call :=
| Registry (op : registry_op)
| Direct (uid : Z) (message : value)
| Scoped (conversationID : Z) (message : value) (participants : list Z)
| ToAll (message : value).

Definition run_call (k : hub_call) (s : State) : outcome State :=
  match k with
  | Registry op => apply_op op s
  | Direct uid message => '(s', _) ← SendToUser uid message s; Done s'
  | Scoped conversationID message participants =>
      '(s', _) ← SendToConversation conversationID message participants s; Done s'
  | ToAll message => '(s', _) ← BroadcastMessage message s; Done s'
  end.

Fixpoint run_calls (ks : list hub_call) (s : State) : outcome State :=
  match ks with
  | [] => Done s
  | k :: rest => s' ← run_call k s; run_calls rest s'
  end.

End registry.

(** ** Predicates on the registry *)

Definition live (s : State) (c : ptr) : Prop := is_Some (clients s !! c).

(** What holds of the hub whatever was admitted, evicted or delivered:
    an entry of the identity map points to a live client of that identity,
    and the queue of a live client is open. *)
Record consistent (s : State) : Prop := {
  mapped_live : ∀ uid c, userMap s !! uid = Some c →
    live s c ∧ ∃ cl, heap s !! c = Some cl ∧ userID cl = uid;
  live_open : ∀ c, live s c →
    ∃ cl, heap s !! c = Some cl ∧ closed (send cl) = false
}.

(** The live set and the identity map are in bijection: a live client is
    the entry of its own identity (so exactly one entry points to it), and
    an entry points to a live client of that identity. *)
Definition bijection (s : State) : Prop :=
  (∀ c, live s c → ∃ cl, heap s !! c = Some cl ∧ userMap s !! userID cl = Some c) ∧
  (∀ uid c, userMap s !! uid = Some c →
     live s c ∧ ∃ cl, heap s !! c = Some cl ∧ userID cl = uid).

(** The window that the admission of [new] for identity [uid] opens when
    [old] was the entry of [uid]: the hub is consistent, only [old] and
    [new] can be live without being the entry of their identity, [old]
    never is the entry again, [new] is the entry only as long as [old] is
    live, and while one of the two is live no other connection of the
    identity is. *)
Record window (uid : Z) (old new : ptr) (s : State) : Prop := {
  window_consistent : consistent s;
  window_strays : ∀ c cl, live s c → heap s !! c = Some cl →
    userMap s !! userID cl = Some c ∨ c = old ∨ c = new;
  window_old : ∃ cl, heap s !! old = Some cl ∧ userID cl = uid;
  window_new : ∃ cl, heap s !! new = Some cl ∧ userID cl = uid;
  window_superseded : userMap s !! uid ≠ Some old;
  window_replacement : live s new → userMap s !! uid = Some new → live s old;
  window_alone : live s old ∨ live s new →
    ∀ c cl, live s c → heap s !! c = Some cl → userID cl = uid → c = old ∨ c = new
}.

(** The queue after [close]. *)
Definition shut (c : chan) : chan :=
  {| buf := buf c; cap := cap c; closed := true |}.

(** The queue after [k] more copies of [data]. *)
Definition pushes (c : chan) (data : bytes) (k : nat) : chan :=
  {| buf := buf c ++ replicate k data; cap := cap c; closed := closed c |}.

(** The state once client [c], whose object is [cl], is closed and taken
    out of both maps. *)
Definition removed (c : ptr) (cl : Client) (s : State) : State :=
  {| heap := <[c := with_send cl (shut (send cl))]> (heap s);
     clients := delete c (clients s);
     userMap := delete (userID cl) (userMap s) |}.

(** How often the participant list names an identity whose entry is [c]. *)
Definition occurrences (um : gmap Z ptr) (c : ptr) (participants : list Z) : nat :=
  length (filter (λ uid, um !! uid = Some c) participants).

(** What a broadcast of [data] does to a client it visits. *)
Definition deliver_or_shut (data : bytes) (cl : Client) : Client :=
  if full (send cl) then with_send cl (shut (send cl))
  else with_send cl (enqueue (send cl) data).

(** The queue of client [c] is full. *)
Definition saturated (s : State) (c : ptr) : bool :=
  match heap s !! c with
  | Some cl => full (send cl)
  | None => false
  end.

(** The identities of the clients in [order] whose queue is full. *)
Definition shed (s : State) (order : list ptr) : list Z :=
  flat_map (λ c, match heap s !! c with
                 | Some cl => if full (send cl) then [userID cl] else []
                 | None => []
                 end) order.

(** The queues a scoped delivery can reach are open. *)
Definition recipients_open (s : State) : Prop :=
  ∀ uid c, userMap s !! uid = Some c →
    ∃ cl, heap s !! c = Some cl ∧ closed (send cl) = false.

(** The queue of a client just admitted: empty, or holding the welcome. *)
Definition welcomed {codec : JSON} : chan :=
  match json_Marshal (as_interface welcomeMsg) with
  | inl data => enqueue (make_chan 256) data
  | inr _ => make_chan 256
  end.

(** How often the participant list names identity [uid]. *)
Definition mentions (uid : Z) (participants : list Z) : nat :=
  length (filter (λ u, u = uid) participants).

(** The two things a delivery or an eviction does to the hub: it appends
    to the open queue of a live client that has room, or it closes the open
    queue of a live client and takes the client out of both maps. *)
Inductive hub_step (s : State) : State → Prop :=
| step_push (c : ptr) (cl : Client) (data : bytes) :
    live s c → heap s !! c = Some cl →
    closed (send cl) = false → full (send cl) = false →
    hub_step s (store c (with_send cl (enqueue (send cl) data)) s)
| step_drop (c : ptr) (cl : Client) :
    live s c → heap s !! c = Some cl → closed (send cl) = false →
    hub_step s (removed c cl s).

(** The call is a delivery or an eviction, not an admission. *)
Definition admits_nobody (k : hub_call) : bool :=
  match k with
  | Registry (Connect _ _ _) => false
  | _ => true
  end.

(** Every queue has the capacity [NewClient] gives it and holds no more. *)
Definition within_capacity (s : State) : Prop :=
  ∀ c cl, heap s !! c = Some cl →
    cap (send cl) = 256 ∧ length (buf (send cl)) ≤ 256.

(** ** The HTTP side of the [api] package and its database calls *)

(** [models.Conversation] and [models.CreateConversationRequest]. *)
Record Conversation := {
  Conv_ID : Z;
  Conv_Name : string;
  Conv_Type : string;
  Conv_CreatedAt : Z
}.

Record CreateConversationRequest := {
  Req_Name : string;
  Req_Type : string;
  Req_Participants : list Z
}.

(** The request as the handlers read it; [ctx_user] is the value stored in
    its context under [userContextKey], [plain] holds the cookies. *)
Record HttpRequest := {
  Method : string;
  URL_Path : string;
  Header : gmap string string;
  Body : bytes;
  ctx_user : option User;
  plain : Request
}.

Definition WithContext (user : User) (r : HttpRequest) : HttpRequest :=
  {| Method := Method r; URL_Path := URL_Path r; Header := Header r; Body := Body r;
     ctx_user := Some user; plain := plain r |}.

(** What is written to the body: a line of text, or a value through
    [json.NewEncoder(w).Encode]. *)
Inductive chunk :=
| Line (text : string)
| EncodedUser (u : User)
| EncodedConversation (c : Conversation).

(** [http.ResponseWriter]: the status once the header is written, the
    header as it is sent, the body. *)
Record ResponseWriter := {
  status : option Z;
  header : gmap string string;
  body : list chunk
}.

Definition blank : ResponseWriter :=
  {| status := None; header := ∅; body := [] |}.

(** [w.Header().Set(key, v)] and [Del]; after the header is written they no
    longer reach the client. *)
Definition Header_Set (key v : string) (w : ResponseWriter) : ResponseWriter :=
  match status w with
  | None => {| status := None; header := <[key := v]> (header w); body := body w |}
  | Some _ => w
  end.

Definition Header_Del (key : string) (w : ResponseWriter) : ResponseWriter :=
  match status w with
  | None => {| status := None; header := delete key (header w); body := body w |}
  | Some _ => w
  end.

Definition WriteHeader (code : Z) (w : ResponseWriter) : ResponseWriter :=
  match status w with
  | None => {| status := Some code; header := header w; body := body w |}
  | Some _ => w
  end.

Definition Write (c : chunk) (w : ResponseWriter) : ResponseWriter :=
  {| status := Some (default 200%Z (status w)); header := header w;
     body := body w ++ [c] |}.

(** [http.Error]. *)
Definition http_Error (w : ResponseWriter) (msg : string) (code : Z) : ResponseWriter :=
  Write (Line msg)
    (WriteHeader code
       (Header_Set "X-Content-Type-Options" "nosniff"
          (Header_Set "Content-Type" "text/plain; charset=utf-8"
             (Header_Del "Content-Length" w)))).

Definition StatusOK : Z := 200.
Definition StatusBadRequest : Z := 400.
Definition StatusMethodNotAllowed : Z := 405.
Definition StatusInternalServerError : Z := 500.

(** [jwt.ParseWithClaims] with the key function of [WithAuth] and
    [HandleVerify], which refuses tokens not signed with an HMAC method. *)
Class JWT_HMAC := {
  jwt_ParseWithClaims_hmac : string → string → jwt_parsed
}.

(** [json.NewDecoder(r.Body).Decode(&req)] for the request of
    [HandleCreateConversation]. *)
Class RequestJSON := {
  decode_CreateConversationRequest : bytes → CreateConversationRequest + string
}.

(** The statements of [CreateConversation] and
    [GetExistingDirectConversation], over a database state [DB] and the
    state [Tx] of an open transaction; [tx_Commit] gives the database with
    the transaction in it. *)
Class ConversationSQL (DB Tx : Type) := {
  db_Begin : DB → Tx + string;
  tx_insert_conversation : Tx → string → string → Tx * (sqlResult + string);
  tx_insert_participant : Tx → Z → Z → Tx * error;
  tx_Commit : Tx → DB + string;
  query_conversation : DB → Z → Conversation + string;
  query_direct_conversation : DB → Z → Z → list (Conversation + string) + string
}.

Section conversations.
Context {DB Tx : Type} {csql : ConversationSQL DB Tx}.

(** The loop [for _, userID := range participants { tx.Exec(...) }]. *)
Fixpoint add_participants (tx : Tx) (conversationID : Z) (participants : list Z)
  : Tx + string :=
  match participants with
  | [] => inl tx
  | userID :: rest =>
      match tx_insert_participant tx conversationID userID with
      | (_, Some err) =>
          inr ("failed to add participant " +:+ pretty userID +:+ ": " +:+ err)
      | (tx', None) => add_participants tx' conversationID rest
      end
  end.

(** [CreateConversation]; a return before the commit runs the deferred
    [tx.Rollback()], so the database is the one the call started with. *)
Definition CreateConversation (name convType : string) (participants : list Z) (d : DB)
  : DB * (Conversation + string) :=
  match db_Begin d with
  | inr err => (d, inr ("failed to begin transaction: " +:+ err))
  | inl tx =>
      match tx_insert_conversation tx name convType with
      | (_, inr err) => (d, inr ("failed to create conversation: " +:+ err))
      | (tx1, inl result) =>
          match LastInsertId result with
          | inr err => (d, inr ("failed to get conversation ID: " +:+ err))
          | inl conversationID =>
              match add_participants tx1 conversationID participants with
              | inr err => (d, inr err)
              | inl tx2 =>
                  match tx_Commit tx2 with
                  | inr err => (d, inr ("failed to commit transaction: " +:+ err))
                  | inl d' =>
                      match query_conversation d' conversationID with
                      | inr err =>
                          (d', inr ("failed to fetch created conversation: " +:+ err))
                      | inl conversation => (d', inl conversation)
                      end
                  end
              end
          end
      end
  end.

Definition GetExistingDirectConversation (userID1 userID2 : Z) (d : DB)
  : option Conversation + string :=
  match query_direct_conversation d userID1 userID2 with
  | inr err => inr ("failed to query existing conversation: " +:+ err)
  | inl [] => inl None
  | inl (inl conv :: _) => inl (Some conv)
  | inl (inr err :: _) => inr ("failed to scan conversation: " +:+ err)
  end.

End conversations.

(** A handler: the response writer and the database after it has run. *)
Definition Handler (DB : Type) : Type :=
  ResponseWriter → HttpRequest → DB → outcome (ResponseWriter * DB).

Section handlers.
Context {hmac : JWT_HMAC} {DB : Type} {sql : SQL DB}.

(** [WithAuth]; [now] is what [time.Now().Unix()] reads. *)
Definition WithAuth (now : Z) (next : Handler DB) : Handler DB := λ w r d,
  if bool_decide (URL_Path r = "/api/auth/login" ∨ URL_Path r = "/api/auth/register" ∨
                  URL_Path r = "/api/auth/verify") then next w r d
  else
    match Cookie (plain r) !! "auth_token" with
    | None => Done (http_Error w "Unauthorized" StatusUnauthorized, d)
    | Some cookie =>
        let token := jwt_ParseWithClaims_hmac cookie "your-secret-key" in
        if bool_decide (is_Some (parse_err token)) || negb (token_Valid token) then
          Done (http_Error w "Invalid token" StatusUnauthorized, d)
        else
          match index (claims token) "exp" with
          | VFloat64 exp =>
              if bool_decide (int64_of_float64 exp < now)%Z then
                Done (http_Error w "Token expired" StatusUnauthorized, d)
              else
                match index (claims token) "user_id" with
                | VFloat64 userID =>
                    match GetUserByID (int64_of_float64 userID) d with
                    | inr err => Done (http_Error w "User not found" StatusUnauthorized, d)
                    | inl user => next w (WithContext user r) d
                    end
                | _ => Done (http_Error w "Invalid user ID in token" StatusUnauthorized, d)
                end
          | _ => Done (http_Error w "Token expired" StatusUnauthorized, d)
          end
    end.

Definition HandleVerify (now : Z) : Handler DB := λ w r d,
  if bool_decide (Method r ≠ "GET") then
    Done (http_Error w "Method not allowed" StatusMethodNotAllowed, d)
  else
    match Cookie (plain r) !! "auth_token" with
    | None => Done (http_Error w "Unauthorized" StatusUnauthorized, d)
    | Some cookie =>
        let token := jwt_ParseWithClaims_hmac cookie "your-secret-key" in
        if bool_decide (is_Some (parse_err token)) || negb (token_Valid token) then
          Done (http_Error w "Invalid token" StatusUnauthorized, d)
        else
          match index (claims token) "exp" with
          | VFloat64 exp =>
              if bool_decide (int64_of_float64 exp < now)%Z then
                Done (http_Error w "Token expired" StatusUnauthorized, d)
              else
                match index (claims token) "user_id" with
                | VFloat64 userID =>
                    match GetUserByID (int64_of_float64 userID) d with
                    | inr err => Done (http_Error w "User not found" StatusUnauthorized, d)
                    | inl user =>
                        let user' := {| User_ID := User_ID user; Username := Username user;
                                        Password := ""; Avatar := Avatar user;
                                        User_CreatedAt := User_CreatedAt user |} in
                        Done (Write (EncodedUser user')
                                (Header_Set "Content-Type" "application/json" w), d)
                    end
                | _ => Done (http_Error w "Invalid user ID in token" StatusUnauthorized, d)
                end
          | _ => Done (http_Error w "Token expired" StatusUnauthorized, d)
          end
    end.

(** [WithCORS]. *)
Definition WithCORS (next : Handler DB) : Handler DB := λ w r d,
  if bool_decide (default "" (Header r !! "Upgrade") = "websocket") then next w r d
  else
    let w1 := Header_Set "Access-Control-Allow-Credentials" "true"
                (Header_Set "Access-Control-Allow-Headers" "Content-Type"
                   (Header_Set "Access-Control-Allow-Methods"
                      "GET, POST, PUT, DELETE, OPTIONS"
                      (Header_Set "Access-Control-Allow-Origin"
                         "http://localhost:3000" w))) in
    if bool_decide (Method r = "OPTIONS") then Done (WriteHeader StatusOK w1, d)
    else next w1 r d.

End handlers.

Section create_conversation.
Context {rjson : RequestJSON} {DB Tx : Type} {csql : ConversationSQL DB Tx}.

(** The participants [HandleCreateConversation] passes on: the request's
    list, with the current user appended when the loop did not find it. *)
Definition with_current_user (participants : list Z) (uid : Z) : list Z :=
  if bool_decide (uid ∈ participants) then participants else participants ++ [uid].

Definition HandleCreateConversation : Handler DB := λ w r d,
  if bool_decide (Method r ≠ "POST") then
    Done (http_Error w "Method not allowed" StatusMethodNotAllowed, d)
  else
    match ctx_user r with
    | None => Panic "interface conversion: interface {} is nil, not *models.User"
    | Some user =>
        match decode_CreateConversationRequest (Body r) with
        | inr err => Done (http_Error w "Invalid request body" StatusBadRequest, d)
        | inl req =>
            let existing :=
              if bool_decide (Req_Type req = "direct") then
                match Req_Participants req with
                | [otherUserID] =>
                    GetExistingDirectConversation (User_ID user) otherUserID d
                | _ => inl None
                end
              else inl None in
            match existing with
            | inr err =>
                Done (http_Error w ("Failed to check existing conversation: " +:+ err)
                        StatusInternalServerError, d)
            | inl (Some existingConv) => Done (Write (EncodedConversation existingConv) w, d)
            | inl None =>
                let name := if bool_decide (Req_Type req = "direct")
                            then Username user else Req_Name req in
                let participants := with_current_user (Req_Participants req) (User_ID user) in
                match CreateConversation name (Req_Type req) participants d with
                | (d1, inr err) =>
                    Done (http_Error w ("Failed to create conversation: " +:+ err)
                            StatusInternalServerError, d1)
                | (d1, inl conversation) =>
                    if bool_decide (Req_Type req = "direct") &&
                       bool_decide (length participants = 2) then
                      match CreateConversation (Username user) (Req_Type req) participants d1 with
                      | (d2, inr err) =>
                          Done (http_Error w
                                  ("Failed to create reciprocal conversation: " +:+ err)
                                  StatusInternalServerError, d2)
                      | (d2, inl _) => Done (Write (EncodedConversation conversation) w, d2)
                      end
                    else Done (Write (EncodedConversation conversation) w, d1)
                end
            end
        end
    end.

End create_conversation.

(** ** Configuration: [config.go] *)

Record Config := {
  ServerAddress : string;
  DatabaseURL : string;
  JWTSecret : string
}.

(** [strings.HasPrefix] and [strings.TrimPrefix]. *)
Definition HasPrefix (s pre : string) : bool := String.prefix pre s.

Definition TrimPrefix (s pre : string) : string :=
  if HasPrefix s pre
  then String.substring (String.length pre) (String.length s - String.length pre) s
  else s.

(** [filepath.IsAbs] on a Unix system: the path begins with a slash. *)
Definition IsAbs (path : string) : bool := HasPrefix path "/".

(** The process environment: [os.Getwd], [os.LookupEnv], and
    [filepath.Join] of two elements. *)
Class OS := {
  os_Getwd : string + string;
  os_LookupEnv : string → option string;
  filepath_Join : string → string → string
}.

Section config.
Context {os : OS}.

Definition getEnv (key fallback : string) : string :=
  match os_LookupEnv key with
  | Some value => value
  | None => fallback
  end.

(** [Load]; it also asks for the data directory to be made and discards
    the result of that call, which leaves the configuration as it is. *)
Definition Load : outcome Config :=
  match os_Getwd with
  | inr err => Panic err
  | inl cwd =>
      let dataDir := filepath_Join cwd "data" in
      let dbPath := filepath_Join dataDir "messenger.db" in
      Done {| ServerAddress := getEnv "SERVER_ADDRESS" ":8080";
              DatabaseURL := getEnv "DATABASE_URL" ("sqlite://" +:+ dbPath);
              JWTSecret := getEnv "JWT_SECRET" "your-secret-key" |}
  end.

Definition CleanDatabasePath (c : Config) : outcome string :=
  let dbPath := TrimPrefix (DatabaseURL c) "sqlite://" in
  if negb (IsAbs dbPath) then
    match os_Getwd with
    | inr err => Panic err
    | inl cwd => Done (filepath_Join cwd dbPath)
    end
  else Done dbPath.

Definition UpdateDatabasePath (c : Config) (newPath : string) : Config :=
  if HasPrefix (DatabaseURL c) "sqlite://" then
    {| ServerAddress := ServerAddress c; DatabaseURL := "sqlite://" +:+ newPath;
       JWTSecret := JWTSecret c |}
  else
    {| ServerAddress := ServerAddress c; DatabaseURL := newPath;
       JWTSecret := JWTSecret c |}.

End config.

(** ** Concrete collaborators and states for the examples *)

Definition demo_bytes (s : string) : bytes := String.list_byte_of_string s.

Definition demo_chat : WebSocketMessage :=
  {| Type' := "message";
     Payload := VMap (<["conversation_id" := VFloat64 7]>
                     (<["content" := VString "hi"]> ∅)) |}.

Definition demo_typing : WebSocketMessage :=
  {| Type' := "typing";
     Payload := VMap (<["conversation_id" := VFloat64 7]>
                     (<["is_typing" := VBool true]> ∅)) |}.

(** A codec that writes an envelope as its type tag and reads two frames. *)
Definition demo_JSON : JSON :=
  {| json_Marshal := λ v,
       match v with
       | VWebSocketMessage t _ => inl (demo_bytes t)
       | _ => inl []
       end;
     json_Unmarshal := λ b,
       if decide (b = demo_bytes "chat") then inl demo_chat
       else if decide (b = demo_bytes "typing") then inl demo_typing
       else inr "invalid character" |}.

(** A client of identity [uid] whose queue of capacity 1 holds [pending]. *)
Definition demo_client (uid : Z) (pending : list bytes) : Client :=
  {| conn := {| wire := []; conn_closed := false; writes_left := None |};
     send := {| buf := pending; cap := 1; closed := false |};
     userID := uid;
     username := "u" |}.

(** Clients 1 (user 1, queue with room) and 2 (user 2, queue full), both
    registered. *)
Definition demo_state : State :=
  {| heap := <[1 := demo_client 1 []]> (<[2 := demo_client 2 [demo_bytes "old"]]> ∅);
     clients := <[1 := true]> (<[2 := true]> ∅);
     userMap := <[1%Z := 1]> (<[2%Z := 2]> ∅) |}.

(** A database that numbers the messages it stores, knows conversation 7
    with participants 1 and 2 and the users 1 and 2, and refuses every
    statement once it is closed. *)
Record demo_db := {
  stored : list Message;
  online : bool
}.

Definition demo_user (id : Z) : User :=
  {| User_ID := id; Username := "u"; Password := ""; Avatar := ""; User_CreatedAt := 0 |}.

Definition demo_SQL : SQL demo_db :=
  {| exec_insert_message := λ d cid sid content at_,
       if online d then
         let id := Z.of_nat (S (length (stored d))) in
         ({| stored := stored d ++ [{| ID := id; ConversationID := cid; SenderID := sid;
                                       Content := content; CreatedAt := at_ |}];
             online := true |},
          inl {| LastInsertId := inl id |})
       else (d, inr "sql: database is closed");
     query_participants := λ d cid,
       if online d then
         inl {| scanned := if decide (cid = 7%Z) then [inl 1%Z; inl 2%Z] else [];
                rows_Err := None |}
       else inr "sql: database is closed";
     query_user_by_id := λ d id,
       if online d && bool_decide (id = 1%Z ∨ id = 2%Z) then inl (demo_user id)
       else inr "sql: no rows in result set" |}.

Definition demo_world (up : bool) : World demo_db :=
  {| hub := demo_state; database := {| stored := []; online := up |} |}.

(** Tokens are read by name: ["alice"] is valid for user 1, ["ghost"] is
    valid for a user the database does not have, ["stale"] is expired and
    anything else has a bad signature. *)
Definition demo_JWT : JWT :=
  {| jwt_ParseWithClaims := λ token key,
       if decide (token = "alice") then
         {| parse_err := None; token_Valid := true;
            claims := <["user_id" := VFloat64 1]> ∅ |}
       else if decide (token = "ghost") then
         {| parse_err := None; token_Valid := true;
            claims := <["user_id" := VFloat64 9]> ∅ |}
       else if decide (token = "stale") then
         {| parse_err := Some ErrExpired; token_Valid := false; claims := ∅ |}
       else
         {| parse_err := Some ErrSignatureInvalid; token_Valid := false; claims := ∅ |} |}.

Definition demo_request (cookie : option string) : Request :=
  {| RemoteAddr := "127.0.0.1:5000";
     Cookie := match cookie with
               | Some token => <["auth_token" := token]> ∅
               | None => ∅
               end;
     Upgrade := inl {| wire := []; conn_closed := false; writes_left := None |} |}.

(** A codec that also reads a chat frame with an empty payload object, a
    typing frame with an empty payload object, a frame of a type the pump
    does not know and a chat frame whose payload is a string. *)
Definition lenient_JSON : JSON :=
  {| json_Marshal := json_Marshal (JSON := demo_JSON);
     json_Unmarshal := λ b,
       if decide (b = demo_bytes "bare chat") then
         inl {| Type' := "message"; Payload := VMap ∅ |}
       else if decide (b = demo_bytes "bare typing") then
         inl {| Type' := "typing"; Payload := VMap ∅ |}
       else if decide (b = demo_bytes "ping") then
         inl {| Type' := "ping"; Payload := VNil |}
       else if decide (b = demo_bytes "text chat") then
         inl {| Type' := "message"; Payload := VString "hi" |}
       else json_Unmarshal (JSON := demo_JSON) b |}.

(** The HMAC-only parser reads the same tokens as [demo_JWT], and also
    ["eternal"], valid for user 1 with no [exp] claim; ["alice"] expires at
    1000. *)
Definition demo_HMAC : JWT_HMAC :=
  {| jwt_ParseWithClaims_hmac := λ token key,
       if decide (token = "alice") then
         {| parse_err := None; token_Valid := true;
            claims := <["user_id" := VFloat64 1]> (<["exp" := VFloat64 1000]> ∅) |}
       else if decide (token = "eternal") then
         {| parse_err := None; token_Valid := true;
            claims := <["user_id" := VFloat64 1]> ∅ |}
       else jwt_ParseWithClaims (JWT := demo_JWT) token key |}.

(** The permissive parser that agrees with [demo_HMAC]. *)
Definition demo_JWT_all : JWT :=
  {| jwt_ParseWithClaims := jwt_ParseWithClaims_hmac (JWT_HMAC := demo_HMAC) |}.

Definition demo_http (method path : string) (cookie : option string) (payload : bytes)
    (user : option User) : HttpRequest :=
  {| Method := method; URL_Path := path; Header := ∅; Body := payload;
     ctx_user := user; plain := demo_request cookie |}.

(** A database of conversations and memberships; a membership can be
    inserted once. *)
Record conv_db := {
  convs : list Conversation;
  members : list (Z * Z)
}.

Definition demo_ConversationSQL : ConversationSQL conv_db conv_db :=
  {| db_Begin := λ d, inl d;
     tx_insert_conversation := λ tx name convType,
       let id := Z.of_nat (S (length (convs tx))) in
       ({| convs := convs tx ++ [{| Conv_ID := id; Conv_Name := name;
                                    Conv_Type := convType; Conv_CreatedAt := 0 |}];
           members := members tx |},
        inl {| LastInsertId := inl id |});
     tx_insert_participant := λ tx cid uid,
       if bool_decide ((cid, uid) ∈ members tx) then
         (tx, Some "UNIQUE constraint failed")
       else ({| convs := convs tx; members := members tx ++ [(cid, uid)] |}, None);
     tx_Commit := λ tx, inl tx;
     query_conversation := λ d id,
       match filter (λ c, Conv_ID c = id) (convs d) with
       | c :: _ => inl c
       | [] => inr "sql: no rows in result set"
       end;
     query_direct_conversation := λ d u1 u2,
       inl (inl <$> filter (λ c, Conv_Type c = "direct" ∧
                                 (Conv_ID c, u1) ∈ members d ∧
                                 (Conv_ID c, u2) ∈ members d) (convs d)) |}.

(** The users of [demo_SQL] over a conversation database. *)
Definition demo_SQL_users : SQL conv_db :=
  {| exec_insert_message := λ d cid sid content at_, (d, inr "read only");
     query_participants := λ d cid, inr "read only";
     query_user_by_id := λ d id,
       if bool_decide (id = 1%Z ∨ id = 2%Z) then inl (demo_user id)
       else inr "sql: no rows in result set" |}.

(** Requests decode by name: a direct conversation with user 2, the same
    under another name, the same with the caller (user 1) listed first, the
    same with user 2 listed twice, a group with users 2 and 3. *)
Definition demo_RequestJSON : RequestJSON :=
  {| decode_CreateConversationRequest := λ b,
       if decide (b = demo_bytes "direct with 2") then
         inl {| Req_Name := "chat"; Req_Type := "direct"; Req_Participants := [2%Z] |}
       else if decide (b = demo_bytes "direct with 2, named pals") then
         inl {| Req_Name := "pals"; Req_Type := "direct"; Req_Participants := [2%Z] |}
       else if decide (b = demo_bytes "direct with 1 and 2") then
         inl {| Req_Name := "chat"; Req_Type := "direct"; Req_Participants := [1%Z; 2%Z] |}
       else if decide (b = demo_bytes "direct with 2 and 2") then
         inl {| Req_Name := "chat"; Req_Type := "direct"; Req_Participants := [2%Z; 2%Z] |}
       else if decide (b = demo_bytes "group with 2 and 3") then
         inl {| Req_Name := "team"; Req_Type := "group"; Req_Participants := [2%Z; 3%Z] |}
       else inr "invalid character" |}.

Definition empty_conv_db : conv_db := {| convs := []; members := [] |}.

(** The same database with a direct-conversation query that always fails. *)
Definition blind_ConversationSQL : ConversationSQL conv_db conv_db :=
  {| db_Begin := db_Begin (ConversationSQL := demo_ConversationSQL);
     tx_insert_conversation := tx_insert_conversation (ConversationSQL := demo_ConversationSQL);
     tx_insert_participant := tx_insert_participant (ConversationSQL := demo_ConversationSQL);
     tx_Commit := tx_Commit (ConversationSQL := demo_ConversationSQL);
     query_conversation := query_conversation (ConversationSQL := demo_ConversationSQL);
     query_direct_conversation := λ d u1 u2, inr "sql: database is locked" |}.

(** A process started in [/srv/app] with [DATABASE_URL] set to a relative
    path without the scheme; [filepath.Join] on clean elements. *)
Definition demo_OS : OS :=
  {| os_Getwd := inl "/srv/app";
     os_LookupEnv := λ key, if decide (key = "DATABASE_URL") then Some "var/chat.db" else None;
     filepath_Join := λ a b, a +:+ "/" +:+ b |}.

(** The same process with an empty environment. *)
Definition bare_OS : OS :=
  {| os_Getwd := inl "/srv/app";
     os_LookupEnv := λ key, None;
     filepath_Join := λ a b, a +:+ "/" +:+ b |}.

(** * Properties *)

(** ** Channels *)

Lemma try_send_open (c : chan) (data : bytes) :
  closed c = false →
  try_send c data = if full c then WouldBlock else Enqueued (enqueue c data).
Proof. intros Hc. unfold try_send. by rewrite Hc. Qed.

Lemma close_open (c : chan) : closed c = false → close c = Some (shut c).
Proof. intros Hc. unfold close. by rewrite Hc. Qed.

Lemma full_room (c : chan) : full c = true ↔ room c = 0.
Proof.
  unfold full, room. rewrite bool_decide_eq_true. lia.
Qed.

Lemma pushes_0 (c : chan) (data : bytes) : pushes c data 0 = c.
Proof. destruct c. unfold pushes. simpl. by rewrite app_nil_r. Qed.

Lemma pushes_enqueue (c : chan) (data : bytes) (k : nat) :
  pushes (enqueue c data) data k = pushes c data (S k).
Proof. unfold pushes, enqueue. simpl. by rewrite <- app_assoc. Qed.

Lemma room_enqueue (c : chan) (data : bytes) : room (enqueue c data) = room c - 1.
Proof. unfold room, enqueue. simpl. rewrite length_app. simpl. lia. Qed.

Section hub_facts.
Context {codec : JSON}.

Lemma select_send_open (client : ptr) (cl : Client) (data : bytes) (s : State) :
  heap s !! client = Some cl →
  closed (send cl) = false →
  select_send client data s =
    Done (if full (send cl) then None
          else Some (store client (with_send cl (enqueue (send cl) data)) s)).
Proof.
  intros Hh Hc. unfold select_send. rewrite Hh, (try_send_open _ _ Hc).
  by destruct (full (send cl)).
Qed.

Lemma close_and_remove_open (client : ptr) (cl : Client) (s : State) :
  heap s !! client = Some cl →
  closed (send cl) = false →
  close_and_remove client s = Done (removed client cl s).
Proof.
  intros Hh Hc. unfold close_and_remove. by rewrite Hh, (close_open _ Hc).
Qed.

Lemma Run_Unregister_live (client : ptr) (cl : Client) (s : State) :
  live s client →
  heap s !! client = Some cl →
  closed (send cl) = false →
  Run_Unregister client s = Done (removed client cl s).
Proof.
  intros [b Hb] Hh Hc. unfold Run_Unregister.
  by rewrite Hb, Hh, (close_open _ Hc).
Qed.

(** C4: direct delivery to an identity that has no entry in the identity
    map returns [nil] and leaves the whole state as it was: nothing is
    enqueued, no queue is closed, the live set and the identity map are
    the same. *)
Theorem SendToUser_not_connected (uid : Z) (message : value) (s : State) :
  userMap s !! uid = None →
  SendToUser uid message s = Done (s, None).
Proof. intros Hu. unfold SendToUser. by rewrite Hu. Qed.

(** C7: unregistering a client that is not in the live set returns with
    the state as it was (both maps and every queue, so no queue is closed
    a second time on this path), and after an unregister that did remove
    the client a second one changes nothing. *)
Theorem Run_Unregister_idempotent (client : ptr) (s : State) :
  (clients s !! client = None → Run_Unregister client s = Done s) ∧
  (∀ s', Run_Unregister client s = Done s' → Run_Unregister client s' = Done s').
Proof.
  split.
  - intros Hc. unfold Run_Unregister. by rewrite Hc.
  - intros s'. unfold Run_Unregister at 1.
    destruct (clients s !! client) as [b|] eqn:Hc.
    + destruct (heap s !! client) as [cl|]; [|done].
      destruct (close (send cl)) as [c|]; [|done].
      intros [= <-]. unfold Run_Unregister. simpl.
      by rewrite lookup_delete_eq.
    + intros [= <-]. unfold Run_Unregister. by rewrite Hc.
Qed.

End hub_facts.

Lemma SendToUser_not_connected_witness :
  userMap demo_state !! 3%Z = None ∧
  SendToUser (codec := demo_JSON) 3 (as_interface demo_chat) demo_state
    = Done (demo_state, None).
Proof.
  split; [reflexivity|].
  apply (SendToUser_not_connected (codec := demo_JSON) 3 (as_interface demo_chat) demo_state).
  reflexivity.
Defined.

Lemma Run_Unregister_idempotent_witness :
  (clients demo_state !! 5 = None ∧
   Run_Unregister 5 demo_state = Done demo_state) ∧
  (Run_Unregister 2 demo_state
     = Done (removed 2 (demo_client 2 [demo_bytes "old"]) demo_state) ∧
   Run_Unregister 2 (removed 2 (demo_client 2 [demo_bytes "old"]) demo_state)
     = Done (removed 2 (demo_client 2 [demo_bytes "old"]) demo_state)).
Proof.
  split.
  - split; [reflexivity|].
    apply (proj1 (Run_Unregister_idempotent 5 demo_state)). reflexivity.
  - split; [reflexivity|].
    apply (proj2 (Run_Unregister_idempotent 2 demo_state)). reflexivity.
Defined.

(** ** Scoped delivery, recipient by recipient *)

Lemma occurrences_cons (um : gmap Z ptr) (c : ptr) (uid : Z) (l : list Z) :
  occurrences um c (uid :: l) =
    (if decide (um !! uid = Some c) then 1 else 0) + occurrences um c l.
Proof.
  unfold occurrences. rewrite filter_cons. by case_decide.
Qed.

Lemma with_send_id (cl : Client) : with_send cl (send cl) = cl.
Proof. by destruct cl. Qed.

Lemma fmap_lookup_id {K} `{Countable K} {A} (f : A → A) (m : gmap K A) (k : K) :
  (∀ a, m !! k = Some a → f a = a) → f <$> m !! k = m !! k.
Proof. intros Hf. destruct (m !! k) as [a|]; simpl; [by rewrite Hf|done]. Qed.

Section scoped.
Context {codec : JSON}.

Lemma consistent_recipients_open (s : State) : consistent s → recipients_open s.
Proof.
  intros Hs uid c Hu. destruct (mapped_live s Hs uid c Hu) as [Hl _].
  by apply (live_open s Hs).
Qed.

Lemma SendToConversation_range_spec (participants : list Z) (data : bytes) (s : State) :
  recipients_open s →
  ∃ s', SendToConversation_range participants data s = Done s' ∧
        clients s' = clients s ∧ userMap s' = userMap s ∧
        ∀ c, heap s' !! c =
             (λ cl, with_send cl (pushes (send cl) data
                (occurrences (userMap s) c participants `min` room (send cl))))
             <$> heap s !! c.
Proof.
  revert s. induction participants as [|uid rest IH]; intros s Hopen.
  - exists s. repeat split; try done. intros c. symmetry.
    apply fmap_lookup_id. intros cl _. simpl.
    by rewrite pushes_0, with_send_id.
  - simpl. unfold SendToConversation_to.
    destruct (userMap s !! uid) as [c0|] eqn:Hu.
    + destruct (Hopen uid c0 Hu) as (cl0 & Hh0 & Hc0).
      rewrite (select_send_open c0 cl0 data s Hh0 Hc0).
      destruct (full (send cl0)) eqn:Hfull; simpl.
      * destruct (IH s Hopen) as (s' & Hrun & Hcl & Hum & Hheap).
        exists s'. repeat split; try done. intros c. rewrite Hheap.
        rewrite occurrences_cons. case_decide as Hc; [|done].
        assert (c = c0) as -> by congruence. rewrite Hh0. simpl.
        apply full_room in Hfull. rewrite Hfull.
        by rewrite !Nat.min_0_r.
      * set (s1 := store c0 (with_send cl0 (enqueue (send cl0) data)) s).
        assert (recipients_open s1) as Hopen1.
        { intros u c Huc. simpl in Huc. destruct (Hopen u c Huc) as (cl & Hh & Hc).
          destruct (decide (c = c0)) as [->|Hne].
          - eexists. simpl. rewrite lookup_insert_eq. split; [done|].
            simpl. congruence.
          - exists cl. simpl. by rewrite lookup_insert_ne. }
        destruct (IH s1 Hopen1) as (s' & Hrun & Hcl & Hum & Hheap).
        exists s'. repeat split; try done. intros c. rewrite Hheap.
        rewrite occurrences_cons. simpl.
        destruct (decide (c = c0)) as [->|Hne].
        -- rewrite lookup_insert_eq, Hh0. simpl. rewrite decide_True by done.
           f_equal. unfold with_send. simpl. f_equal.
           rewrite room_enqueue, pushes_enqueue. f_equal.
           assert (room (send cl0) ≠ 0) as Hroom.
           { intros Hr. apply full_room in Hr. congruence. }
           destruct (room (send cl0)) as [|m]; [done|].
           do 2 f_equal. lia.
        -- rewrite lookup_insert_ne by done.
           rewrite decide_False by congruence. done.
    + simpl. destruct (IH s Hopen) as (s' & Hrun & Hcl & Hum & Hheap).
      exists s'. repeat split; try done. intros c. rewrite Hheap.
      rewrite occurrences_cons. rewrite decide_False by congruence. done.
Qed.

End scoped.

(** ** Broadcast, client by client *)

Section broadcast.
Context {codec : JSON}.

Lemma Broadcast_to_open (data : bytes) (c : ptr) (cl : Client) (s : State) :
  heap s !! c = Some cl →
  closed (send cl) = false →
  Broadcast_to data c s =
    Done (if full (send cl) then removed c cl s
          else store c (with_send cl (enqueue (send cl) data)) s).
Proof.
  intros Hh Hc. unfold Broadcast_to.
  rewrite (select_send_open c cl data s Hh Hc).
  destruct (full (send cl)); simpl; [|done].
  by apply close_and_remove_open.
Qed.

Lemma shed_ext (s1 s2 : State) (order : list ptr) :
  (∀ c, c ∈ order → heap s1 !! c = heap s2 !! c) →
  shed s1 order = shed s2 order.
Proof.
  induction order as [|c rest IH]; intros Hext; [done|].
  simpl. rewrite (Hext c) by set_solver. f_equal.
  apply IH. intros c' Hc'. apply Hext. set_solver.
Qed.

Lemma Broadcast_range_spec (order : list ptr) (data : bytes) (s : State) :
  NoDup order →
  (∀ c, c ∈ order → ∃ cl, heap s !! c = Some cl ∧ closed (send cl) = false) →
  ∃ s', Broadcast_range order data s = Done s' ∧
    (∀ c, heap s' !! c =
          if decide (c ∈ order) then deliver_or_shut data <$> heap s !! c
          else heap s !! c) ∧
    (∀ c, clients s' !! c =
          if bool_decide (c ∈ order) && saturated s c then None
          else clients s !! c) ∧
    (∀ uid, userMap s' !! uid =
          if decide (uid ∈ shed s order) then None else userMap s !! uid).
Proof.
  revert s. induction order as [|c0 rest IH]; intros s Hnd Hopen.
  - exists s. split; [done|]. split; [|split]; intros.
    + rewrite decide_False; [done|set_solver].
    + rewrite bool_decide_eq_false_2; [done|set_solver].
    + rewrite decide_False; [done|]. simpl. set_solver.
  - apply NoDup_cons in Hnd as [Hc0 Hnd].
    destruct (Hopen c0) as (cl0 & Hh0 & Hcl0); [set_solver|].
    simpl. rewrite (Broadcast_to_open data c0 cl0 s Hh0 Hcl0). simpl.
    set (s1 := if full (send cl0) then removed c0 cl0 s
               else store c0 (with_send cl0 (enqueue (send cl0) data)) s).
    assert (heap s1 = <[c0 := deliver_or_shut data cl0]> (heap s)) as Hheap1.
    { unfold s1, deliver_or_shut. by destruct (full (send cl0)). }
    assert (∀ c, c ∈ rest → heap s1 !! c = heap s !! c) as Hsame.
    { intros c Hc. rewrite Hheap1. apply lookup_insert_ne. set_solver. }
    destruct (IH s1 Hnd) as (s' & Hrun & Hheap & Hclients & Humap).
    { intros c Hc. rewrite (Hsame c Hc). apply Hopen. set_solver. }
    exists s'. split; [done|]. split; [|split].
    + intros c. rewrite Hheap, Hheap1.
      destruct (decide (c = c0)) as [->|Hne].
      * rewrite decide_False by done. rewrite decide_True by set_solver.
        by rewrite lookup_insert_eq, Hh0.
      * rewrite lookup_insert_ne by done.
        destruct (decide (c ∈ rest)).
        -- rewrite decide_True by set_solver. done.
        -- rewrite decide_False by set_solver. done.
    + intros c. rewrite Hclients.
      destruct (decide (c = c0)) as [->|Hne].
      * rewrite (bool_decide_eq_false_2 (c0 ∈ rest)) by done.
        rewrite (bool_decide_eq_true_2 (c0 ∈ c0 :: rest)) by set_solver.
        simpl. unfold saturated. rewrite Hh0. unfold s1.
        destruct (full (send cl0)); simpl; [|done].
        by rewrite lookup_delete_eq.
      * assert (saturated s1 c = saturated s c) as ->.
        { unfold saturated. rewrite Hheap1. by rewrite lookup_insert_ne. }
        assert (clients s1 !! c = clients s !! c) as ->.
        { unfold s1. destruct (full (send cl0)); simpl; [|done].
          by rewrite lookup_delete_ne. }
        assert (bool_decide (c ∈ c0 :: rest) = bool_decide (c ∈ rest)) as ->.
        { apply bool_decide_ext. set_solver. }
        done.
    + intros uid. rewrite Humap. rewrite (shed_ext s1 s rest Hsame).
      simpl. rewrite Hh0. unfold s1.
      destruct (full (send cl0)) eqn:Hfull; simpl.
      * destruct (decide (uid ∈ shed s rest)).
        -- rewrite decide_True by set_solver. done.
        -- destruct (decide (uid = userID cl0)) as [->|Hne].
           ++ rewrite decide_True by set_solver. by rewrite lookup_delete_eq.
           ++ rewrite decide_False by set_solver. by rewrite lookup_delete_ne.
      * done.
Qed.

(** Go leaves the order of [range] over a map open; the outcome of the
    broadcast does not depend on it. *)
Lemma Broadcast_range_order (order1 order2 : list ptr) (data : bytes) (s : State) :
  order1 ≡ₚ order2 → NoDup order1 →
  (∀ c, c ∈ order1 → ∃ cl, heap s !! c = Some cl ∧ closed (send cl) = false) →
  Broadcast_range order1 data s = Broadcast_range order2 data s.
Proof.
  intros Hperm Hnd Hopen.
  destruct (Broadcast_range_spec order1 data s Hnd Hopen)
    as (s1 & -> & Hheap1 & Hclients1 & Humap1).
  destruct (Broadcast_range_spec order2 data s)
    as (s2 & -> & Hheap2 & Hclients2 & Humap2).
  { by rewrite <- Hperm. }
  { intros c Hc. apply Hopen. by rewrite Hperm. }
  f_equal. destruct s1 as [h1 c1 u1], s2 as [h2 c2 u2]. simpl in *.
  f_equal; apply map_eq.
  - intros c. rewrite Hheap1, Hheap2.
    destruct (decide (c ∈ order1)) as [Hin|Hout].
    + rewrite decide_True; [done|]. by rewrite <- Hperm.
    + rewrite decide_False; [done|]. by rewrite <- Hperm.
  - intros c. rewrite Hclients1, Hclients2.
    rewrite (bool_decide_ext (c ∈ order1) (c ∈ order2)); [done|]. by rewrite Hperm.
  - intros uid. rewrite Humap1, Humap2.
    assert (shed s order1 ≡ₚ shed s order2) as Hshed.
    { unfold shed. by apply Permutation_flat_map. }
    destruct (decide (uid ∈ shed s order1)) as [Hin|Hout].
    + rewrite decide_True; [done|]. by rewrite <- Hshed.
    + rewrite decide_False; [done|]. by rewrite <- Hshed.
Qed.

End broadcast.

(** ** The registry under admissions, evictions and deliveries *)

Lemma consistent_NewHub : consistent NewHub.
Proof. split; intros *; simpl; [by rewrite lookup_empty|intros [? ?]; by simplify_map_eq]. Qed.

Lemma bijection_NewHub : bijection NewHub.
Proof. split; intros *; simpl; [intros [? ?]; by simplify_map_eq|by rewrite lookup_empty]. Qed.

Lemma consistent_removed (c : ptr) (cl : Client) (s : State) :
  consistent s → heap s !! c = Some cl → consistent (removed c cl s).
Proof.
  intros [Hmap Hopen] Hh. split.
  - intros uid c' Hu. simpl in Hu.
    apply lookup_delete_Some in Hu as [Hne Hu].
    destruct (Hmap uid c' Hu) as (Hl & cl' & Hh' & Hid).
    assert (c' ≠ c) as Hc by (intros ->; congruence).
    split.
    + unfold live. simpl. by rewrite lookup_delete_ne.
    + exists cl'. simpl. by rewrite lookup_insert_ne.
  - intros c' Hl. unfold live in Hl. simpl in Hl.
    destruct Hl as [b Hb]. apply lookup_delete_Some in Hb as [Hne Hb].
    destruct (Hopen c') as (cl' & Hh' & Hc'); [by exists b|].
    exists cl'. simpl. by rewrite lookup_insert_ne.
Qed.

Lemma consistent_enqueue (c : ptr) (cl : Client) (data : bytes) (s : State) :
  consistent s → heap s !! c = Some cl →
  consistent (store c (with_send cl (enqueue (send cl) data)) s).
Proof.
  intros [Hmap Hopen] Hh. split.
  - intros uid c' Hu. simpl in Hu.
    destruct (Hmap uid c' Hu) as (Hl & cl' & Hh' & Hid). split; [done|].
    destruct (decide (c' = c)) as [->|Hne]; simpl.
    + rewrite lookup_insert_eq. eexists. split; [done|]. simpl. congruence.
    + rewrite lookup_insert_ne by done. by exists cl'.
  - intros c' Hl. destruct (Hopen c' Hl) as (cl' & Hh' & Hc').
    destruct (decide (c' = c)) as [->|Hne]; simpl.
    + rewrite lookup_insert_eq. eexists. split; [done|]. simpl. congruence.
    + rewrite lookup_insert_ne by done. by exists cl'.
Qed.

Section registry_facts.
Context {codec : JSON}.

Lemma welcomed_open : closed welcomed = false.
Proof. unfold welcomed. by destruct (json_Marshal _). Qed.

Lemma fresh_unused (s : State) : heap s !! fresh (dom (heap s)) = None.
Proof. apply not_elem_of_dom, is_fresh. Qed.

(** An admission never waits and never faults. *)
Lemma apply_op_Connect (cn : Conn) (uid : Z) (name : string) (s : State) :
  apply_op (Connect cn uid name) s =
    Done {| heap := <[fresh (dom (heap s)) :=
                       {| conn := cn; send := welcomed; userID := uid; username := name |}]>
                    (heap s);
            clients := <[fresh (dom (heap s)) := true]> (clients s);
            userMap := <[uid := fresh (dom (heap s))]> (userMap s) |}.
Proof.
  unfold apply_op, NewClient, Run_Register, welcomed. simpl.
  rewrite lookup_insert_eq. simpl.
  destruct (json_Marshal (as_interface welcomeMsg)) as [data|err]; [|done].
  unfold blocking_send. simpl. rewrite lookup_insert_eq.
  unfold try_send, full. simpl.
  unfold store, with_send. simpl. by rewrite insert_insert_eq.
Qed.

Lemma consistent_Connect (cn : Conn) (uid : Z) (name : string) (s s' : State) :
  consistent s → apply_op (Connect cn uid name) s = Done s' → consistent s'.
Proof.
  intros [Hmap Hopen]. rewrite apply_op_Connect. intros [= <-].
  pose proof (fresh_unused s) as Hfresh. split.
  - intros u c Hu. simpl in Hu. unfold live. simpl.
    destruct (decide (uid = u)) as [->|Hne].
    + rewrite lookup_insert_eq in Hu. injection Hu as <-.
      rewrite !lookup_insert_eq. split; [by eexists|]. by eexists.
    + rewrite lookup_insert_ne in Hu by done.
      destruct (Hmap u c Hu) as (Hl & cl & Hh & Hid).
      assert (c ≠ fresh (dom (heap s))) by (intros ->; congruence).
      rewrite !lookup_insert_ne by done. split; [done|]. by exists cl.
  - intros c Hl. unfold live in Hl. simpl in *.
    destruct (decide (c = fresh (dom (heap s)))) as [->|Hne].
    + rewrite lookup_insert_eq. eexists. split; [done|]. apply welcomed_open.
    + rewrite lookup_insert_ne in Hl by done. rewrite lookup_insert_ne by done.
      by apply Hopen.
Qed.

(** On a consistent hub an unregister never faults. *)
Lemma Run_Unregister_consistent (client : ptr) (s : State) :
  consistent s →
  ∃ s', Run_Unregister client s = Done s' ∧ consistent s' ∧
        (s' = s ∧ clients s !! client = None ∨
         ∃ cl, heap s !! client = Some cl ∧ live s client ∧ s' = removed client cl s).
Proof.
  intros Hs. destruct (clients s !! client) as [b|] eqn:Hc.
  - destruct (live_open s Hs client) as (cl & Hh & Hcl); [by exists b|].
    exists (removed client cl s). split.
    + apply Run_Unregister_live; [by exists b|done..].
    + split; [by apply consistent_removed|]. right. exists cl.
      repeat split; [done|by exists b].
  - exists s. split; [|split; [done|by left]].
    unfold Run_Unregister. by rewrite Hc.
Qed.

Lemma apply_op_consistent (op : registry_op) (s : State) :
  consistent s → ∃ s', apply_op op s = Done s' ∧ consistent s'.
Proof.
  intros Hs. destruct op as [cn uid name|client].
  - eexists. split; [apply apply_op_Connect|].
    eapply consistent_Connect; [done|apply apply_op_Connect].
  - destruct (Run_Unregister_consistent client s Hs) as (s' & Hrun & Hs' & _).
    by exists s'.
Qed.

(** Every sequence of admissions and evictions runs to its end. *)
Lemma apply_ops_consistent (ops : list registry_op) (s : State) :
  consistent s → ∃ s', apply_ops ops s = Done s' ∧ consistent s'.
Proof.
  revert s. induction ops as [|op rest IH]; intros s Hs; [by exists s|].
  destruct (apply_op_consistent op s Hs) as (s1 & Hop & Hs1).
  destruct (IH s1 Hs1) as (s' & Hrun & Hs').
  exists s'. simpl. rewrite Hop. done.
Qed.

Lemma bijection_removed (c : ptr) (cl : Client) (s : State) :
  consistent s → bijection s → heap s !! c = Some cl → live s c →
  bijection (removed c cl s).
Proof.
  intros Hs [Hlive Hmap] Hh Hl. split.
  - intros c' Hl'. unfold live in Hl'. simpl in Hl'.
    destruct Hl' as [b Hb]. apply lookup_delete_Some in Hb as [Hne Hb].
    destruct (Hlive c') as (cl' & Hh' & Hu'); [by exists b|].
    exists cl'. simpl. rewrite lookup_insert_ne by done. split; [done|].
    rewrite lookup_delete_ne; [done|].
    intros Heq. destruct (Hlive c Hl) as (cl0 & Hh0 & Hu0).
    assert (cl0 = cl) as -> by congruence. congruence.
  - apply (mapped_live _ (consistent_removed c cl s Hs Hh)).
Qed.

Lemma bijection_Connect (cn : Conn) (uid : Z) (name : string) (s s' : State) :
  consistent s → bijection s → userMap s !! uid = None →
  apply_op (Connect cn uid name) s = Done s' → bijection s'.
Proof.
  intros Hs [Hlive Hmap] Hnone Hop. split.
  - revert Hop. rewrite apply_op_Connect. intros [= <-].
    pose proof (fresh_unused s) as Hfresh.
    intros c Hl. unfold live in Hl. simpl in *.
    destruct (decide (c = fresh (dom (heap s)))) as [->|Hne].
    + rewrite lookup_insert_eq. eexists. split; [done|]. simpl.
      by rewrite lookup_insert_eq.
    + rewrite lookup_insert_ne in Hl by done. rewrite lookup_insert_ne by done.
      destruct (Hlive c Hl) as (cl & Hh & Hu). exists cl. split; [done|].
      rewrite lookup_insert_ne; [done|]. congruence.
  - apply (mapped_live _ (consistent_Connect cn uid name s s' Hs Hop)).
Qed.

End registry_facts.

Section overwrite.
Context {codec : JSON}.

Lemma apply_ops_bijection (ops : list registry_op) (s : State) :
  consistent s → bijection s → no_overwrite ops s = true →
  ∃ s', apply_ops ops s = Done s' ∧ consistent s' ∧ bijection s'.
Proof.
  revert s. induction ops as [|op rest IH]; intros s Hs Hb Hno; [by exists s|].
  simpl in Hno. apply andb_true_iff in Hno as [Hfresh Hno].
  destruct (apply_op_consistent op s Hs) as (s1 & Hop & Hs1).
  rewrite Hop in Hno.
  assert (bijection s1) as Hb1.
  { destruct op as [cn uid name|client].
    - apply (bijection_Connect cn uid name s s1 Hs Hb); [|done].
      simpl in Hfresh. apply negb_true_iff, bool_decide_eq_false in Hfresh.
      by apply eq_None_not_Some.
    - destruct (Run_Unregister_consistent client s Hs) as (s2 & Hrun & _ & Hcase).
      simpl in Hop. rewrite Hrun in Hop. injection Hop as <-.
      destruct Hcase as [[-> _]|(cl & Hh & Hl & ->)]; [done|].
      by apply bijection_removed. }
  destruct (IH s1 Hs1 Hb1 Hno) as (s' & Hrun & Hs' & Hb').
  exists s'. simpl. rewrite Hop. done.
Qed.

(** The state in which neither [old] nor [new] is live and identity [uid]
    has no entry is in bijection when [s] was and [old] was the entry of
    [uid] in [s]. *)
Lemma bijection_without (s s3 : State) (uid : Z) (old new : ptr) :
  bijection s → userMap s !! uid = Some old → heap s !! new = None →
  (∀ c, clients s3 !! c = if decide (c = old ∨ c = new) then None else clients s !! c) →
  (∀ u, userMap s3 !! u = if decide (u = uid) then None else userMap s !! u) →
  (∀ c, c ≠ old → c ≠ new → heap s3 !! c = heap s !! c) →
  bijection s3.
Proof.
  intros [Hlive Hmap] Hold Hnew Hcl Hum Hheap. split.
  - intros c [b Hb]. rewrite Hcl in Hb. case_decide as Hc; [done|].
    destruct (Hlive c) as (cl & Hh & Hu); [by exists b|].
    exists cl. rewrite Hheap by tauto. split; [done|].
    rewrite Hum. rewrite decide_False; [done|].
    intros Heq. rewrite Heq, Hold in Hu. injection Hu as ->. tauto.
  - intros u c Hu. rewrite Hum in Hu. case_decide as Hne; [done|].
    destruct (Hmap u c Hu) as ([b Hb] & cl & Hh & Hid).
    destruct (Hmap uid old Hold) as (_ & clo & Hho & Hido).
    assert (c ≠ old) by (intros ->; congruence).
    assert (c ≠ new) by (intros ->; congruence).
    split.
    + exists b. rewrite Hcl. rewrite decide_False by tauto. done.
    + exists cl. by rewrite Hheap.
Qed.

End overwrite.

Section second_logins.
Context {codec : JSON}.

Lemma has_connection_false (s : State) (uid : Z) (c : ptr) (cl : Client) :
  has_connection s uid = false → live s c → heap s !! c = Some cl → userID cl ≠ uid.
Proof.
  intros Hnone Hl Hh Hid.
  assert (has_connection s uid = true) as Hsome; [|congruence].
  apply existsb_exists. exists c. split.
  - apply list_elem_of_In, elem_of_elements, elem_of_dom. exact Hl.
  - rewrite Hh. by apply bool_decide_eq_true_2.
Qed.

Lemma window_open (cn : Conn) (uid : Z) (name : string) (old : ptr) (s s1 : State) :
  consistent s → bijection s → userMap s !! uid = Some old →
  apply_op (Connect cn uid name) s = Done s1 →
  window uid old (fresh (dom (heap s))) s1.
Proof.
  intros Hs [Hlive Hmap] Hold Hop.
  pose proof (consistent_Connect _ _ _ _ _ Hs Hop) as Hs1.
  rewrite apply_op_Connect in Hop. injection Hop as <-.
  pose proof (fresh_unused s) as Hf. set (f := fresh (dom (heap s))) in *.
  destruct (mapped_live s Hs uid old Hold) as ([b Hlo] & ocl & Hho & Hido).
  assert (f ≠ old) as Hne by (intros Heq; rewrite Heq in Hf; congruence).
  split; simpl.
  - done.
  - intros c cl [b' Hl] Hh. simpl in Hl.
    destruct (decide (c = f)) as [->|Hc]; [by right; right|].
    rewrite lookup_insert_ne in Hl by done. rewrite lookup_insert_ne in Hh by done.
    destruct (Hlive c) as (cl' & Hh' & Hu); [by exists b'|].
    assert (cl' = cl) as -> by congruence.
    destruct (decide (userID cl = uid)) as [Hid|Hid].
    + right; left. rewrite Hid, Hold in Hu. congruence.
    + left. by rewrite lookup_insert_ne.
  - exists ocl. by rewrite lookup_insert_ne.
  - eexists. by rewrite lookup_insert_eq.
  - rewrite lookup_insert_eq. congruence.
  - intros _ _. exists b. simpl. by rewrite lookup_insert_ne.
  - intros _ c cl [b' Hl] Hh Hid. simpl in Hl.
    destruct (decide (c = f)) as [->|Hc]; [by right|].
    rewrite lookup_insert_ne in Hl by done. rewrite lookup_insert_ne in Hh by done.
    destruct (Hlive c) as (cl' & Hh' & Hu); [by exists b'|].
    assert (cl' = cl) as -> by congruence.
    rewrite Hid, Hold in Hu. left. congruence.
Qed.

Lemma window_Connect (uid : Z) (old new : ptr) (cn : Conn) (uid' : Z) (name : string)
    (s s1 : State) :
  window uid old new s → has_connection s uid' = false →
  apply_op (Connect cn uid' name) s = Done s1 → window uid old new s1.
Proof.
  intros [Hs Hstray (ocl & Hho & Hido) (ncl & Hhn & Hidn) Hold Hnew Halone] Hnone Hop.
  pose proof (consistent_Connect _ _ _ _ _ Hs Hop) as Hs1.
  rewrite apply_op_Connect in Hop. injection Hop as <-.
  pose proof (fresh_unused s) as Hf. set (f := fresh (dom (heap s))) in *.
  assert (f ≠ old) as Hfo by (intros Heq; rewrite Heq in Hf; congruence).
  assert (f ≠ new) as Hfn by (intros Heq; rewrite Heq in Hf; congruence).
  assert (∀ c, c ≠ f → is_Some (<[f := true]> (clients s) !! c) → live s c) as Hback.
  { intros c Hc Hl. by rewrite lookup_insert_ne in Hl. }
  assert (∀ c, live s c → is_Some (<[f := true]> (clients s) !! c)) as Hforth.
  { intros c [b Hl]. destruct (decide (c = f)) as [->|Hc].
    - rewrite lookup_insert_eq. by eexists.
    - rewrite lookup_insert_ne by done. by exists b. }
  split; simpl.
  - done.
  - intros c cl Hl Hh.
    destruct (decide (c = f)) as [->|Hc].
    + rewrite lookup_insert_eq in Hh. injection Hh as <-. simpl.
      left. by rewrite lookup_insert_eq.
    + rewrite lookup_insert_ne in Hh by done.
      pose proof (Hback c Hc Hl) as Hl'.
      destruct (Hstray c cl Hl' Hh) as [Hu|Hu]; [|by right].
      left. rewrite lookup_insert_ne; [done|].
      intros Heq. by apply (has_connection_false s uid' c cl).
  - exists ocl. by rewrite lookup_insert_ne.
  - exists ncl. by rewrite lookup_insert_ne.
  - destruct (decide (uid' = uid)) as [->|Hu].
    + rewrite lookup_insert_eq. congruence.
    + by rewrite lookup_insert_ne.
  - intros Hl Hu. apply Hforth. apply Hnew; [by apply Hback|].
    destruct (decide (uid' = uid)) as [->|Hu'].
    + rewrite lookup_insert_eq in Hu. congruence.
    + by rewrite lookup_insert_ne in Hu.
  - intros Hl c cl Hlc Hh Hid.
    assert (live s old ∨ live s new) as Hl'.
    { destruct Hl as [Hl|Hl]; [left|right]; by apply Hback. }
    destruct (decide (c = f)) as [->|Hc].
    + rewrite lookup_insert_eq in Hh. injection Hh as <-. simpl in Hid. subst uid'.
      exfalso. destruct Hl' as [Hl'|Hl'].
      * by apply (has_connection_false s uid old ocl).
      * by apply (has_connection_false s uid new ncl).
    + rewrite lookup_insert_ne in Hh by done.
      apply (Halone Hl' c cl); [by apply Hback|done..].
Qed.

Lemma window_Evict (uid : Z) (old new client : ptr) (s : State) :
  window uid old new s →
  ∃ s1, apply_op (Evict client) s = Done s1 ∧ window uid old new s1.
Proof.
  intros Hw.
  destruct (Run_Unregister_consistent client s (window_consistent _ _ _ _ Hw))
    as (s1 & Hrun & Hs1 & Hcase).
  exists s1. split; [done|].
  destruct Hcase as [[-> _]|(cl0 & Hh0 & Hl0 & ->)]; [done|].
  destruct Hw as [Hs Hstray (ocl & Hho & Hido) (ncl & Hhn & Hidn) Hold Hnew Halone].
  assert (∀ c, live (removed client cl0 s) c → c ≠ client ∧ live s c) as Hback.
  { intros c [b Hl]. simpl in Hl. apply lookup_delete_Some in Hl as [Hc Hl].
    split; [done|by exists b]. }
  assert (∀ c, c ≠ client → live s c → live (removed client cl0 s) c) as Hforth.
  { intros c Hc [b Hl]. exists b. simpl. by rewrite lookup_delete_ne. }
  assert (∀ c cl, heap (removed client cl0 s) !! c = Some cl →
            ∃ cl', heap s !! c = Some cl' ∧ userID cl = userID cl' ∧
                   (c ≠ client → cl = cl')) as Hheap.
  { intros c cl Hh. simpl in Hh. destruct (decide (c = client)) as [->|Hc].
    - rewrite lookup_insert_eq in Hh. injection Hh as <-. by exists cl0.
    - rewrite lookup_insert_ne in Hh by done. by exists cl. }
  assert (∀ c cl, heap s !! c = Some cl →
            ∃ cl', heap (removed client cl0 s) !! c = Some cl' ∧ userID cl' = userID cl)
    as Hkept.
  { intros c cl Hh. simpl. destruct (decide (c = client)) as [->|Hc].
    - rewrite lookup_insert_eq. eexists. split; [done|]. simpl. congruence.
    - rewrite lookup_insert_ne by done. by exists cl. }
  split.
  - done.
  - intros c cl Hl Hh. destruct (Hback c Hl) as [Hc Hl'].
    destruct (Hheap c cl Hh) as (cl' & Hh' & _ & Heq). rewrite (Heq Hc). clear Heq.
    destruct (Hstray c cl' Hl' Hh') as [Hu|Hu]; [|by right].
    destruct (decide (userID cl' = userID cl0)) as [Hid|Hid].
    + right.
      assert (client = old ∨ client = new) as Hclient.
      { destruct (Hstray client cl0 Hl0 Hh0) as [Hu0|Hu0]; [|done].
        rewrite <- Hid, Hu in Hu0. congruence. }
      assert (userID cl0 = uid) as Hid0.
      { destruct Hclient as [->| ->]; congruence. }
      assert (live s old ∨ live s new) as Hsome.
      { destruct Hclient as [->| ->]; [by left|by right]. }
      apply (Halone Hsome c cl'); [done|done|congruence].
    + left. simpl. by rewrite lookup_delete_ne.
  - destruct (Hkept old ocl Hho) as (cl' & Hh' & Hid'). exists cl'. split; [done|congruence].
  - destruct (Hkept new ncl Hhn) as (cl' & Hh' & Hid'). exists cl'. split; [done|congruence].
  - simpl. intros Hu. apply lookup_delete_Some in Hu as [_ Hu]. done.
  - intros Hl Hu. destruct (Hback new Hl) as [Hc Hl'].
    simpl in Hu. apply lookup_delete_Some in Hu as [Hne Hu].
    apply Hforth; [|by apply Hnew].
    intros <-. apply Hne. congruence.
  - intros Hl c cl Hlc Hh Hid.
    destruct (Hback c Hlc) as [Hc Hlc'].
    destruct (Hheap c cl Hh) as (cl' & Hh' & Hid' & _).
    assert (live s old ∨ live s new) as Hsome.
    { destruct Hl as [Hl|Hl]; [left|right]; by apply Hback. }
    apply (Halone Hsome c cl'); [done|done|congruence].
Qed.

Lemma window_ops (uid : Z) (old new : ptr) (ops : list registry_op) (s : State) :
  window uid old new s → no_second_login ops s = true →
  ∃ s', apply_ops ops s = Done s' ∧ window uid old new s'.
Proof.
  revert s. induction ops as [|op rest IH]; intros s Hw Hno; [by exists s|].
  simpl in Hno. apply andb_true_iff in Hno as [Hfirst Hno].
  assert (∃ s1, apply_op op s = Done s1 ∧ window uid old new s1) as (s1 & Hop & Hw1).
  { destruct op as [cn uid' name|client]; [|by apply window_Evict].
    eexists. split; [apply apply_op_Connect|].
    apply (window_Connect uid old new cn uid' name s); [done| |apply apply_op_Connect].
    by apply negb_true_iff in Hfirst. }
  rewrite Hop in Hno. destruct (IH s1 Hw1 Hno) as (s' & Hrun & Hw').
  exists s'. simpl. by rewrite Hop.
Qed.

Lemma window_bijection (uid : Z) (old new : ptr) (s : State) :
  window uid old new s → bijection s ↔ ¬ live s old ∧ ¬ live s new.
Proof.
  intros [Hs Hstray (ocl & Hho & Hido) (ncl & Hhn & Hidn) Hold Hnew Halone]. split.
  - intros [Hlive _].
    assert (¬ live s old) as Hno.
    { intros Hl. destruct (Hlive old Hl) as (cl & Hh & Hu).
      assert (cl = ocl) as -> by congruence. by rewrite Hido in Hu. }
    split; [done|].
    intros Hl. destruct (Hlive new Hl) as (cl & Hh & Hu).
    assert (cl = ncl) as -> by congruence. rewrite Hidn in Hu. by apply Hno, Hnew.
  - intros [Hno Hnn]. split; [|apply (mapped_live s Hs)].
    intros c Hl. destruct (live_open s Hs c Hl) as (cl & Hh & _).
    exists cl. split; [done|].
    destruct (Hstray c cl Hl Hh) as [Hu|[->| ->]]; done.
Qed.

End second_logins.

Section window.
Context {codec : JSON}.

(** C2, as the code has it: from a hub whose live set and identity map
    are in bijection, (a) every sequence of admissions and evictions that
    never admits an identity which has an entry runs to its end and leaves
    them in bijection; (b) admitting a connection for an identity that has
    an entry replaces the entry and leaves the superseded connection live,
    its object untouched (queue not closed), so that the bijection is
    broken; (c) unregistering the superseded connection and its
    replacement one after the other, in either order, brings the bijection
    back; (d) whatever admissions and evictions follow the overwrite, as
    long as none of them admits a connection for an identity one of whose
    connections is live, they run to their end and the bijection holds
    exactly when neither the superseded connection nor its replacement is
    live: the unregister of the superseded connection alone does not bring
    it back. *)
Theorem registry_bijection (s : State) :
  consistent s → bijection s →
  (∀ ops, no_overwrite ops s = true →
     ∃ s', apply_ops ops s = Done s' ∧ bijection s') ∧
  (∀ cn uid name old, userMap s !! uid = Some old →
     ∃ s1 new, apply_op (Connect cn uid name) s = Done s1 ∧
       new ≠ old ∧ userMap s1 !! uid = Some new ∧
       live s1 old ∧ live s1 new ∧ heap s1 !! old = heap s !! old ∧
       ¬ bijection s1 ∧
       (∀ first second,
          first = old ∧ second = new ∨ first = new ∧ second = old →
          ∃ s3, apply_ops [Evict first; Evict second] s1 = Done s3 ∧ bijection s3) ∧
       ∀ ops, no_second_login ops s1 = true →
         ∃ s', apply_ops ops s1 = Done s' ∧
               (bijection s' ↔ ¬ live s' old ∧ ¬ live s' new)).
Proof.
  intros Hs Hb. split.
  - intros ops Hno.
    destruct (apply_ops_bijection ops s Hs Hb Hno) as (s' & Hrun & _ & Hb').
    by exists s'.
  - intros cn uid name old Hold.
    set (new := fresh (dom (heap s))).
    set (ncl := {| conn := cn; send := welcomed; userID := uid; username := name |}).
    set (s1 := {| heap := <[new := ncl]> (heap s);
                  clients := <[new := true]> (clients s);
                  userMap := <[uid := new]> (userMap s) |}).
    assert (apply_op (Connect cn uid name) s = Done s1) as Hop by apply apply_op_Connect.
    pose proof (consistent_Connect cn uid name s s1 Hs Hop) as Hs1.
    pose proof (fresh_unused s) as Hnew. fold new in Hnew.
    destruct (mapped_live s Hs uid old Hold) as ([b Hlo] & ocl & Hho & Hido).
    assert (new ≠ old) as Hne by (intros Heq; rewrite Heq in Hnew; congruence).
    assert (live s1 old) as Hlive_old.
    { exists b. simpl. by rewrite lookup_insert_ne. }
    assert (live s1 new) as Hlive_new.
    { exists true. simpl. by rewrite lookup_insert_eq. }
    assert (heap s1 !! old = Some ocl) as Hho1.
    { simpl. by rewrite lookup_insert_ne. }
    assert (heap s1 !! new = Some ncl) as Hhn1.
    { simpl. by rewrite lookup_insert_eq. }
    exists s1, new. split; [done|]. split; [done|].
    split; [simpl; by rewrite lookup_insert_eq|].
    split; [done|]. split; [done|].
    split; [by rewrite Hho1|].
    split.
    { intros [Hlive _]. destruct (Hlive old Hlive_old) as (cl & Hh & Hu).
      assert (cl = ocl) as -> by congruence.
      rewrite Hido in Hu. simpl in Hu. rewrite lookup_insert_eq in Hu. congruence. }
    assert (closed (send ocl) = false) as Hopen_old.
    { destruct (live_open s1 Hs1 old Hlive_old) as (cl & Hh & Hc). congruence. }
    assert (closed (send ncl) = false) as Hopen_new by apply welcomed_open.
    split; [intros first second [[-> ->]|[-> ->]]|].
    + exists (removed new ncl (removed old ocl s1)). split.
      * simpl. rewrite (Run_Unregister_live old ocl s1) by done. simpl.
        rewrite (Run_Unregister_live new ncl (removed old ocl s1)); [done| | |done].
        -- exists true. simpl. rewrite lookup_delete_ne by done.
           by rewrite lookup_insert_eq.
        -- simpl. rewrite lookup_insert_ne by done. by rewrite lookup_insert_eq.
      * apply (bijection_without s _ uid old new Hb Hold Hnew).
        -- intros c. simpl. case_decide as Hc.
           ++ destruct Hc as [->| ->].
              ** rewrite lookup_delete_ne by done. by rewrite lookup_delete_eq.
              ** by rewrite lookup_delete_eq.
           ++ rewrite !lookup_delete_ne by naive_solver.
              rewrite lookup_insert_ne by naive_solver. done.
        -- intros u. simpl. rewrite Hido. case_decide as Hu.
           ++ subst u. by rewrite lookup_delete_eq.
           ++ rewrite !lookup_delete_ne by done. by rewrite lookup_insert_ne.
        -- intros c Hc1 Hc2. simpl. by rewrite !lookup_insert_ne.
    + exists (removed old ocl (removed new ncl s1)). split.
      * simpl. rewrite (Run_Unregister_live new ncl s1) by done. simpl.
        rewrite (Run_Unregister_live old ocl (removed new ncl s1)); [done| | |done].
        -- exists b. simpl. rewrite lookup_delete_ne by done.
           by rewrite lookup_insert_ne.
        -- simpl. by rewrite !lookup_insert_ne.
      * apply (bijection_without s _ uid old new Hb Hold Hnew).
        -- intros c. simpl. case_decide as Hc.
           ++ destruct Hc as [->| ->].
              ** by rewrite lookup_delete_eq.
              ** rewrite lookup_delete_ne by done. by rewrite lookup_delete_eq.
           ++ rewrite !lookup_delete_ne by naive_solver.
              rewrite lookup_insert_ne by naive_solver. done.
        -- intros u. simpl. rewrite Hido. case_decide as Hu.
           ++ subst u. by rewrite lookup_delete_eq.
           ++ rewrite !lookup_delete_ne by done. by rewrite lookup_insert_ne.
        -- intros c Hc1 Hc2. simpl. by rewrite !lookup_insert_ne.
    + intros ops Hno.
      destruct (window_ops uid old new ops s1
                  (window_open cn uid name old s s1 Hs Hb Hold Hop) Hno)
        as (s' & Hrun & Hw').
      exists s'. split; [done|]. by apply (window_bijection uid old new).
Qed.

End window.

(** In the hub after client 0 (user 1) was admitted, a second connection
    for user 1 was admitted as client 1 and client 0, the superseded one,
    was unregistered: client 1 is live and user 1 has no entry. *)
Lemma superseded_unregister_counterexample :
  ∃ s, apply_ops (codec := demo_JSON)
         [Connect (conn (demo_client 1 [])) 1 "a";
          Connect (conn (demo_client 1 [])) 1 "a";
          Evict 0] NewHub = Done s ∧
       live s 1 ∧ userMap s !! 1%Z = None ∧ ¬ bijection s.
Proof.
  eexists. split; [vm_compute; reflexivity|].
  assert (∀ s, live s 1 → userMap s !! 1%Z = None →
            (∃ cl, heap s !! 1 = Some cl ∧ userID cl = 1%Z) → ¬ bijection s) as Hno.
  { intros s Hl Hu (cl & Hh & Hid) [Hlive _].
    destruct (Hlive 1 Hl) as (cl' & Hh' & Hu').
    pose proof (eq_trans (eq_sym Hh') Hh) as [= ->].
    rewrite Hid, Hu in Hu'. done. }
  split; [by eexists|]. split; [reflexivity|].
  apply Hno; [by eexists|reflexivity|]. eexists. split; reflexivity.
Qed.

(** ** Saturated recipients *)

Lemma shed_elem (s : State) (order : list ptr) (c : ptr) (cl : Client) :
  c ∈ order → heap s !! c = Some cl → full (send cl) = true →
  userID cl ∈ shed s order.
Proof.
  intros Hin Hh Hfull. induction order as [|c0 rest IH]; [set_solver|].
  simpl. apply elem_of_app. apply elem_of_cons in Hin as [<-|Hin].
  - left. rewrite Hh, Hfull. set_solver.
  - right. by apply IH.
Qed.

Lemma occurrences_pos (um : gmap Z ptr) (c : ptr) (uid : Z) (participants : list Z) :
  uid ∈ participants → um !! uid = Some c → 0 < occurrences um c participants.
Proof.
  intros Hin Hu. induction participants as [|u rest IH]; [set_solver|].
  rewrite occurrences_cons. apply elem_of_cons in Hin as [<-|Hin].
  - rewrite decide_True by done. lia.
  - specialize (IH Hin). lia.
Qed.

Section saturation.
Context {codec : JSON}.

Lemma Run_Broadcast_spec (data : bytes) (s : State) :
  consistent s →
  ∃ s', Run_Broadcast data s = Done s' ∧
    (∀ c, heap s' !! c =
          if decide (live s c) then deliver_or_shut data <$> heap s !! c
          else heap s !! c) ∧
    (∀ c, clients s' !! c = if saturated s c then None else clients s !! c) ∧
    (∀ uid, userMap s' !! uid =
          if decide (uid ∈ shed s (elements (dom (clients s)))) then None
          else userMap s !! uid).
Proof.
  intros Hs.
  destruct (Broadcast_range_spec (elements (dom (clients s))) data s)
    as (s' & Hrun & Hheap & Hclients & Humap).
  { apply NoDup_elements. }
  { intros c Hc. apply (live_open s Hs). by apply elem_of_elements, elem_of_dom in Hc. }
  exists s'. split; [done|]. split; [|split; [|done]].
  - intros c. rewrite Hheap. unfold live.
    destruct (decide (c ∈ elements (dom (clients s)))) as [Hin|Hout].
    + rewrite decide_True; [done|]. by apply elem_of_elements, elem_of_dom in Hin.
    + rewrite decide_False; [done|]. intros Hl. apply Hout.
      by apply elem_of_elements, elem_of_dom.
  - intros c. rewrite Hclients.
    destruct (bool_decide (c ∈ elements (dom (clients s)))) eqn:Hin; [done|].
    simpl. apply bool_decide_eq_false in Hin.
    assert (clients s !! c = None) as ->; [|by destruct (saturated s c)].
    apply eq_None_not_Some. intros Hl. apply Hin.
    by apply elem_of_elements, elem_of_dom.
Qed.

(** C1, as the code has it.  A registered client [c] whose queue is full:
    direct delivery and broadcast return without waiting, leave the queue's
    buffer as it was (the message is dropped for [c]), close the queue and
    take [c] out of the live set and its identity out of the identity map.
    Scoped delivery returns without waiting and drops the message for [c]
    too, but evicts nobody: both maps and the object of [c] are as before,
    and every other participant whose queue has room has the message
    appended. *)
Theorem full_queue_policy (s : State) (c : ptr) (cl : Client) (message : value) (data : bytes) :
  consistent s →
  live s c → heap s !! c = Some cl → full (send cl) = true →
  json_Marshal message = inl data →
  (∀ uid, userMap s !! uid = Some c →
     SendToUser uid message s = Done (removed c cl s, None)) ∧
  (∃ s', BroadcastMessage message s = Done (s', None) ∧
         heap s' !! c = Some (with_send cl (shut (send cl))) ∧
         clients s' !! c = None ∧
         userMap s' !! userID cl = None) ∧
  (∀ conversationID participants,
     ∃ s', SendToConversation conversationID message participants s = Done (s', None) ∧
           clients s' = clients s ∧ userMap s' = userMap s ∧
           heap s' !! c = Some cl ∧
           ∀ uid c' cl', uid ∈ participants → userMap s !! uid = Some c' →
             heap s !! c' = Some cl' → full (send cl') = false →
             ∃ k, 0 < k ∧
                  heap s' !! c' = Some (with_send cl' (pushes (send cl') data k))).
Proof.
  intros Hs Hl Hh Hfull Hdata.
  destruct (live_open s Hs c Hl) as (cl0 & Hh0 & Hopen).
  assert (cl0 = cl) as -> by congruence.
  split; [|split].
  - intros uid Hu. unfold SendToUser. rewrite Hu, Hdata.
    rewrite (select_send_open c cl data s Hh Hopen), Hfull. simpl.
    by rewrite (close_and_remove_open c cl s Hh Hopen).
  - destruct (Run_Broadcast_spec data s Hs) as (s' & Hrun & Hheap & Hclients & Humap).
    exists s'. unfold BroadcastMessage. rewrite Hdata, Hrun. split; [done|].
    split; [|split].
    + rewrite Hheap, decide_True by done. rewrite Hh. simpl.
      unfold deliver_or_shut. by rewrite Hfull.
    + rewrite Hclients. unfold saturated. by rewrite Hh, Hfull.
    + rewrite Humap. rewrite decide_True; [done|].
      apply (shed_elem s _ c cl); [|done..].
      by apply elem_of_elements, elem_of_dom.
  - intros conversationID participants.
    destruct (SendToConversation_range_spec participants data s
                (consistent_recipients_open s Hs))
      as (s' & Hrun & Hclients & Humap & Hheap).
    exists s'. unfold SendToConversation. rewrite Hdata, Hrun.
    split; [done|]. split; [done|]. split; [done|]. split.
    + rewrite Hheap, Hh. simpl. apply full_room in Hfull. rewrite Hfull.
      by rewrite Nat.min_0_r, pushes_0, with_send_id.
    + intros uid c' cl' Hin Hu Hh' Hroom.
      exists (occurrences (userMap s) c' participants `min` room (send cl')).
      split.
      * pose proof (occurrences_pos _ _ _ _ Hin Hu).
        assert (room (send cl') ≠ 0).
        { intros Hr. apply full_room in Hr. congruence. }
        lia.
      * by rewrite Hheap, Hh'.
Qed.

End saturation.

Lemma consistent_demo_state : consistent demo_state.
Proof.
  split.
  - intros uid c Hu. unfold demo_state in Hu. simpl in Hu.
    apply lookup_insert_Some in Hu as [[<- <-]|[_ Hu]].
    { split; [by eexists|]. eexists. split; reflexivity. }
    apply lookup_insert_Some in Hu as [[<- <-]|[_ Hu]].
    { split; [by eexists|]. eexists. split; reflexivity. }
    by rewrite lookup_empty in Hu.
  - intros c [b Hb]. unfold demo_state in Hb. simpl in Hb.
    apply lookup_insert_Some in Hb as [[<- <-]|[_ Hb]].
    { eexists. split; reflexivity. }
    apply lookup_insert_Some in Hb as [[<- <-]|[_ Hb]].
    { eexists. split; reflexivity. }
    by rewrite lookup_empty in Hb.
Qed.

Lemma bijection_demo_state : bijection demo_state.
Proof.
  split; [|apply (mapped_live demo_state consistent_demo_state)].
  intros c [b Hb]. unfold demo_state in Hb |- *. simpl in Hb |- *.
  apply lookup_insert_Some in Hb as [[<- _]|[_ Hb]]; [by eexists|].
  apply lookup_insert_Some in Hb as [[<- _]|[_ Hb]]; [by eexists|done].
Qed.

(** From the empty hub without a second login; and from the hub of
    clients 1 and 2, a second connection for user 1 (client 3), then the
    unregister of client 1, the admission of a user that has no
    connection and the unregister of client 3. *)
Lemma registry_bijection_witness :
  (∃ s', apply_ops (codec := demo_JSON)
           [Connect (conn (demo_client 1 [])) 1 "a";
            Connect (conn (demo_client 2 [])) 2 "b";
            Evict 0] NewHub = Done s' ∧ bijection s') ∧
  ∃ s1 s', apply_op (codec := demo_JSON) (Connect (conn (demo_client 1 [])) 1 "a")
             demo_state = Done s1 ∧
           ¬ bijection s1 ∧
           apply_ops (codec := demo_JSON)
             [Evict 1; Connect (conn (demo_client 7 [])) 7 "c"; Evict 3] s1 = Done s' ∧
           bijection s'.
Proof.
  split.
  - apply (proj1 (registry_bijection (codec := demo_JSON) NewHub
                    consistent_NewHub bijection_NewHub)).
    vm_compute. reflexivity.
  - destruct (proj2 (registry_bijection (codec := demo_JSON) demo_state
                       consistent_demo_state bijection_demo_state)
                (conn (demo_client 1 [])) 1%Z "a" 1 eq_refl)
      as (s1 & new & Hop & _ & Hentry & _ & _ & _ & Hbroken & _ & Hlater).
    rewrite apply_op_Connect in Hop. injection Hop as <-.
    vm_compute in Hentry. injection Hentry as <-.
    destruct (Hlater [Evict 1; Connect (conn (demo_client 7 [])) 7 "c"; Evict 3])
      as (s' & Hrun & Hiff); [vm_compute; reflexivity|].
    eexists _, s'. split; [apply apply_op_Connect|]. split; [exact Hbroken|].
    split; [exact Hrun|].
    apply Hiff. vm_compute in Hrun. injection Hrun as <-.
    split; intros [b Hb]; vm_compute in Hb; discriminate.
Defined.

(** Scoped delivery to users 1 and 2 while the queue of user 2's client is
    full: afterwards that client is still live, still the entry of user 2,
    and its queue is still open. *)
Lemma scoped_delivery_counterexample :
  live demo_state 2 ∧ userMap demo_state !! 2%Z = Some 2 ∧ saturated demo_state 2 = true ∧
  ∃ s', SendToConversation (codec := demo_JSON) 7 (as_interface demo_chat)
          [1%Z; 2%Z] demo_state = Done (s', None) ∧
        live s' 2 ∧ userMap s' !! 2%Z = Some 2 ∧
        closed ∘ send <$> heap s' !! 2 = Some false.
Proof.
  split; [by eexists|]. split; [reflexivity|]. split; [reflexivity|].
  eexists. split; [vm_compute; reflexivity|].
  split; [by eexists|]. split; reflexivity.
Qed.

Lemma full_queue_policy_witness :
  SendToUser (codec := demo_JSON) 2 (as_interface demo_chat) demo_state
    = Done (removed 2 (demo_client 2 [demo_bytes "old"]) demo_state, None) ∧
  (∃ s', BroadcastMessage (codec := demo_JSON) (as_interface demo_chat) demo_state
           = Done (s', None) ∧
         heap s' !! 2 = Some (with_send (demo_client 2 [demo_bytes "old"])
                                (shut (send (demo_client 2 [demo_bytes "old"])))) ∧
         clients s' !! 2 = None ∧ userMap s' !! 2%Z = None) ∧
  (∃ s', SendToConversation (codec := demo_JSON) 7 (as_interface demo_chat)
           [1%Z; 2%Z] demo_state = Done (s', None) ∧
         clients s' = clients demo_state ∧ userMap s' = userMap demo_state ∧
         heap s' !! 2 = Some (demo_client 2 [demo_bytes "old"]) ∧
         ∃ k, 0 < k ∧
              heap s' !! 1 = Some (with_send (demo_client 1 [])
                                     (pushes (send (demo_client 1 []))
                                        (demo_bytes "message") k))).
Proof.
  destruct (full_queue_policy (codec := demo_JSON) demo_state 2
              (demo_client 2 [demo_bytes "old"]) (as_interface demo_chat)
              (demo_bytes "message") consistent_demo_state)
    as (Hdirect & Hbroadcast & Hscoped);
    [by eexists|reflexivity|reflexivity|reflexivity|].
  split; [apply Hdirect; reflexivity|]. split; [exact Hbroadcast|].
  destruct (Hscoped 7%Z [1%Z; 2%Z]) as (s' & Hrun & Hcl & Hum & Hh & Hothers).
  exists s'. repeat (split; [done|]).
  apply (Hothers 1%Z 1 (demo_client 1 [])); [set_solver|reflexivity..].
Defined.

(** ** The inbound pump on one frame *)

Section inbound.
Context {codec : JSON} {DB : Type} {sql : SQL DB}.

Lemma index_Some (m : gmap string value) (key : string) (v : value) :
  m !! key = Some v → index m key = v.
Proof. intros Hk. unfold index. by rewrite Hk. Qed.

Lemma int64_of_float64_id (f : Z) :
  (int64_min ≤ f ≤ int64_max)%Z → int64_of_float64 f = f.
Proof. intros Hf. unfold int64_of_float64. by rewrite bool_decide_eq_true_2. Qed.


Lemma ReadPump_frame_chat (c : ptr) (cl : Client) (now : Z) (message : bytes)
    (msg : gmap string value) (f : Z) (content : string) (w : World DB) :
  json_Unmarshal message = inl {| Type' := "message"; Payload := VMap msg |} →
  msg !! "conversation_id" = Some (VFloat64 f) →
  (int64_min ≤ f ≤ int64_max)%Z →
  msg !! "content" = Some (VString content) →
  heap (hub w) !! c = Some cl →
  ReadPump_frame c now message w =
    match SaveMessage {| ID := 0; ConversationID := f; SenderID := userID cl;
                         Content := content; CreatedAt := now |} (database w) with
    | (d, inr _) => Done {| hub := hub w; database := d |}
    | (d, inl saved) =>
        match GetConversationParticipantIDs f d with
        | inr _ => Done {| hub := hub w; database := d |}
        | inl participants =>
            '(h, _) ← SendToConversation f (VWebSocketMessage "message" (VMessage saved))
                        participants (hub w);
            Done {| hub := h; database := d |}
        end
    end.
Proof.
  intros Hdec Hcid Hrange Hcontent Hh.
  unfold ReadPump_frame. rewrite Hdec. simpl.
  unfold ReadPump_message, chat_fields.
  rewrite (index_Some _ _ _ Hcid), (index_Some _ _ _ Hcontent). simpl. rewrite Hh.
  by rewrite (int64_of_float64_id f Hrange).
Qed.


End inbound.


(** ** Typing notifications and scoped copies *)

Lemma mentions_cons (uid u : Z) (l : list Z) :
  mentions uid (u :: l) = (if decide (u = uid) then 1 else 0) + mentions uid l.
Proof. unfold mentions. rewrite filter_cons. by case_decide. Qed.

Lemma occurrences_mentions (s : State) (uid : Z) (c : ptr) (participants : list Z) :
  consistent s → userMap s !! uid = Some c →
  occurrences (userMap s) c participants = mentions uid participants.
Proof.
  intros Hs Hu. induction participants as [|u rest IH]; [done|].
  rewrite occurrences_cons, mentions_cons, IH. f_equal.
  destruct (decide (u = uid)) as [->|Hne].
  - by rewrite decide_True.
  - rewrite decide_False; [done|]. intros Hu'.
    destruct (mapped_live s Hs uid c Hu) as (_ & cl & Hh & Hid).
    destruct (mapped_live s Hs u c Hu') as (_ & cl' & Hh' & Hid').
    congruence.
Qed.

Lemma occurrences_0 (um : gmap Z ptr) (c : ptr) (participants : list Z) :
  (∀ uid, uid ∈ participants → um !! uid ≠ Some c) →
  occurrences um c participants = 0.
Proof.
  intros Hno. induction participants as [|u rest IH]; [done|].
  rewrite occurrences_cons, IH by set_solver.
  rewrite decide_False; [done|]. apply Hno. set_solver.
Qed.

Lemma mentions_pos (uid : Z) (participants : list Z) :
  uid ∈ participants → 0 < mentions uid participants.
Proof.
  intros Hin. induction participants as [|u rest IH]; [set_solver|].
  rewrite mentions_cons. apply elem_of_cons in Hin as [<-|Hin].
  - rewrite decide_True by done. lia.
  - specialize (IH Hin). lia.
Qed.

Section fan_out.
Context {codec : JSON} {DB : Type} {sql : SQL DB}.

Lemma SendToConversation_spec (s : State) (conversationID : Z) (message : value)
    (data : bytes) (participants : list Z) :
  consistent s → json_Marshal message = inl data →
  ∃ s', SendToConversation conversationID message participants s = Done (s', None) ∧
        clients s' = clients s ∧ userMap s' = userMap s ∧
        (∀ uid c cl, userMap s !! uid = Some c → heap s !! c = Some cl →
           heap s' !! c =
             Some (with_send cl (pushes (send cl) data
                     (mentions uid participants `min` room (send cl))))) ∧
        (∀ c cl, heap s !! c = Some cl →
           (∀ uid, uid ∈ participants → userMap s !! uid ≠ Some c) →
           heap s' !! c = Some cl).
Proof.
  intros Hs Hdata.
  destruct (SendToConversation_range_spec participants data s
              (consistent_recipients_open s Hs))
    as (s' & Hrun & Hclients & Humap & Hheap).
  exists s'. unfold SendToConversation. rewrite Hdata, Hrun.
  split; [done|]. split; [done|]. split; [done|]. split.
  - intros uid c cl Hu Hh. rewrite Hheap, Hh. simpl.
    by rewrite (occurrences_mentions s uid c participants Hs Hu).
  - intros c cl Hh Hno. rewrite Hheap, Hh. simpl.
    rewrite (occurrences_0 _ _ _ Hno). simpl.
    by rewrite pushes_0, with_send_id.
Qed.

(** C10, as the code has it.  A scoped delivery of a serialisable
    envelope returns [nil] and changes neither map.  The client of a
    registered identity gets one copy of the serialised envelope appended
    for each occurrence of the identity in the participant list, for as
    long as its queue has room: as many copies as the smaller of the number
    of occurrences and the free slots of the queue.  Repeated identities
    are not merged and no identity is left out, so the sender of a chat
    frame whose connection is the entry of its identity, has room and is
    among the participants the database lists has the envelope appended to
    its own queue.  A sender whose connection is not the entry of its
    identity (it was superseded by a later login, or lost the entry to the
    unregister of the connection it superseded) has nothing appended,
    though its identity is in the list and the message is stored. *)
Theorem SendToConversation_copies (s : State) (conversationID : Z) (message : value)
    (data : bytes) (participants : list Z) :
  consistent s → json_Marshal message = inl data →
  (∃ s', SendToConversation conversationID message participants s = Done (s', None) ∧
         clients s' = clients s ∧ userMap s' = userMap s ∧
         (∀ uid c cl, userMap s !! uid = Some c → heap s !! c = Some cl →
            heap s' !! c =
              Some (with_send cl (pushes (send cl) data
                      (mentions uid participants `min` room (send cl))))) ∧
         (∀ c cl, heap s !! c = Some cl →
            (∀ uid, uid ∈ participants → userMap s !! uid ≠ Some c) →
            heap s' !! c = Some cl)) ∧
  (∀ (w : World DB) c cl now frame msg content d saved,
     hub w = s →
     json_Unmarshal frame = inl {| Type' := "message"; Payload := VMap msg |} →
     msg !! "conversation_id" = Some (VFloat64 conversationID) →
     (int64_min ≤ conversationID ≤ int64_max)%Z →
     msg !! "content" = Some (VString content) →
     heap s !! c = Some cl → userMap s !! userID cl = Some c →
     full (send cl) = false →
     SaveMessage {| ID := 0; ConversationID := conversationID; SenderID := userID cl;
                    Content := content; CreatedAt := now |} (database w) = (d, inl saved) →
     GetConversationParticipantIDs conversationID d = inl participants →
     userID cl ∈ participants →
     message = VWebSocketMessage "message" (VMessage saved) →
     ∃ h k, ReadPump_frame c now frame w = Done {| hub := h; database := d |} ∧
            0 < k ∧
            heap h !! c = Some (with_send cl (pushes (send cl) data k))) ∧
  (∀ (w : World DB) c cl now frame msg content d saved,
     hub w = s →
     json_Unmarshal frame = inl {| Type' := "message"; Payload := VMap msg |} →
     msg !! "conversation_id" = Some (VFloat64 conversationID) →
     (int64_min ≤ conversationID ≤ int64_max)%Z →
     msg !! "content" = Some (VString content) →
     heap s !! c = Some cl → userMap s !! userID cl ≠ Some c →
     SaveMessage {| ID := 0; ConversationID := conversationID; SenderID := userID cl;
                    Content := content; CreatedAt := now |} (database w) = (d, inl saved) →
     GetConversationParticipantIDs conversationID d = inl participants →
     message = VWebSocketMessage "message" (VMessage saved) →
     ∃ h, ReadPump_frame c now frame w = Done {| hub := h; database := d |} ∧
          heap h !! c = Some cl).
Proof.
  intros Hs Hdata.
  destruct (SendToConversation_spec s conversationID message data participants Hs Hdata)
    as (s' & Hrun & Hclients & Humap & Hheap & Hother).
  split; [by exists s'|]. split.
  - intros w c cl now frame msg content d saved Hw Hdec Hcid Hrange Hcontent Hh Hu
      Hroom Hsave Hp Hin ->.
    exists s', (mentions (userID cl) participants `min` room (send cl)).
    subst s.
    rewrite (ReadPump_frame_chat c cl now frame msg conversationID content w
               Hdec Hcid Hrange Hcontent Hh).
    rewrite Hsave, Hp, Hrun. split; [done|]. split.
    + pose proof (mentions_pos _ _ Hin).
      assert (room (send cl) ≠ 0).
      { intros Hr. apply full_room in Hr. congruence. }
      lia.
    + by apply Hheap.
  - intros w c cl now frame msg content d saved Hw Hdec Hcid Hrange Hcontent Hh Hu
      Hsave Hp ->.
    exists s'. subst s.
    rewrite (ReadPump_frame_chat c cl now frame msg conversationID content w
               Hdec Hcid Hrange Hcontent Hh).
    rewrite Hsave, Hp, Hrun. split; [done|].
    apply Hother; [done|].
    intros uid _ Hentry.
    destruct (mapped_live (hub w) Hs uid c Hentry) as (_ & cl' & Hh' & Hid).
    assert (cl' = cl) as -> by congruence. by rewrite Hid in Hu.
Qed.

Lemma ReadPump_frame_typing (c : ptr) (cl : Client) (now : Z) (frame : bytes)
    (typing : gmap string value) (cid flag : value) (w : World DB) :
  json_Unmarshal frame = inl {| Type' := "typing"; Payload := VMap typing |} →
  typing !! "conversation_id" = Some cid →
  typing !! "is_typing" = Some flag →
  heap (hub w) !! c = Some cl →
  ReadPump_frame c now frame w =
    '(h, _) ← BroadcastMessage
                (VWebSocketMessage "typing"
                   (VMap (<["user_id" := VInt64 (userID cl)]>
                         (<["conversation_id" := cid]>
                         (<["is_typing" := flag]> ∅))))) (hub w);
    Done {| hub := h; database := database w |}.
Proof.
  intros Hdec Hcid Hflag Hh. unfold ReadPump_frame. rewrite Hdec. simpl.
  unfold ReadPump_typing.
  by rewrite (index_Some _ _ _ Hcid), (index_Some _ _ _ Hflag), Hh.
Qed.

(** C8, as the code has it.  A frame that decodes to a ["typing"]
    envelope with [conversation_id] and [is_typing]: the database stays as
    it is, and the frame's effect is [BroadcastMessage] of the ["typing"]
    envelope whose payload maps [user_id] to the sender's identity and
    carries the two fields over.  When that envelope serialises, every
    client in the live set, whatever conversations it takes part in, has
    the bytes appended to its queue if the queue has room and stays live; a
    client whose queue is full gets nothing and is closed and removed. *)
Theorem ReadPump_typing_broadcast (c : ptr) (cl : Client) (now : Z) (frame : bytes)
    (typing : gmap string value) (cid flag : value) (w : World DB) :
  json_Unmarshal frame = inl {| Type' := "typing"; Payload := VMap typing |} →
  typing !! "conversation_id" = Some cid →
  typing !! "is_typing" = Some flag →
  heap (hub w) !! c = Some cl →
  let response :=
    VWebSocketMessage "typing"
      (VMap (<["user_id" := VInt64 (userID cl)]>
            (<["conversation_id" := cid]>
            (<["is_typing" := flag]> ∅)))) in
  ReadPump_frame c now frame w =
    ('(h, _) ← BroadcastMessage response (hub w);
     Done {| hub := h; database := database w |}) ∧
  (∀ data, consistent (hub w) → json_Marshal response = inl data →
     ∃ h, ReadPump_frame c now frame w = Done {| hub := h; database := database w |} ∧
          ∀ c' cl', live (hub w) c' → heap (hub w) !! c' = Some cl' →
            if full (send cl')
            then heap h !! c' = Some (with_send cl' (shut (send cl'))) ∧ ¬ live h c'
            else heap h !! c' = Some (with_send cl' (enqueue (send cl') data)) ∧
                 live h c').
Proof.
  intros Hdec Hcid Hflag Hh response.
  pose proof (ReadPump_frame_typing c cl now frame typing cid flag w
                Hdec Hcid Hflag Hh) as Hframe.
  fold response in Hframe. split; [done|].
  intros data Hs Hdata.
  destruct (Run_Broadcast_spec data (hub w) Hs) as (h & Hrun & Hheap & Hclients & _).
  exists h. rewrite Hframe. unfold BroadcastMessage. rewrite Hdata, Hrun.
  split; [done|].
  intros c' cl' Hl Hh'. specialize (Hheap c'). specialize (Hclients c').
  rewrite decide_True in Hheap by done. rewrite Hh' in Hheap. simpl in Hheap.
  unfold deliver_or_shut in Hheap. unfold saturated in Hclients.
  rewrite Hh' in Hclients. unfold live.
  destruct (full (send cl')).
  - split; [done|]. rewrite Hclients. by intros [? ?].
  - split; [done|]. by rewrite Hclients.
Qed.

End fan_out.

(** Scoped delivery to user 2 alone, whose client's queue is full: the
    list names a registered identity once and no copy is enqueued. *)
Lemma SendToConversation_copies_counterexample :
  userMap demo_state !! 2%Z = Some 2 ∧ mentions 2 [2%Z] = 1 ∧
  ∃ s', SendToConversation (codec := demo_JSON) 7 (as_interface demo_chat)
          [2%Z] demo_state = Done (s', None) ∧
        buf ∘ send <$> heap s' !! 2 = buf ∘ send <$> heap demo_state !! 2.
Proof.
  split; [reflexivity|]. split; [reflexivity|].
  eexists. split; [vm_compute; reflexivity|]. reflexivity.
Qed.

(** After user 1 connects, a scoped delivery whose list names user 1
    twice appends two copies behind the welcome.  A chat frame from client
    1, the entry of user 1 with room in its queue, comes back to client 1.
    After a second login of user 1 and the unregister of the first
    connection, the second connection (client 1) is live without an entry:
    its chat frame is stored and nothing is appended to its queue. *)
Lemma SendToConversation_copies_witness :
  (∃ s s', apply_ops (codec := demo_JSON) [Connect (conn (demo_client 1 [])) 1 "a"] NewHub
             = Done s ∧
           SendToConversation (codec := demo_JSON) 7 (as_interface demo_chat)
             [1%Z; 1%Z] s = Done (s', None) ∧
           buf ∘ send <$> heap s' !! 0
             = Some [demo_bytes "system"; demo_bytes "message"; demo_bytes "message"]) ∧
  (∃ h d k, ReadPump_frame (codec := demo_JSON) (sql := demo_SQL) 1 0 (demo_bytes "chat")
              (demo_world true) = Done {| hub := h; database := d |} ∧
            0 < k ∧
            buf ∘ send <$> heap h !! 1 = Some (replicate k (demo_bytes "message"))) ∧
  (∃ s h d, apply_ops (codec := demo_JSON)
              [Connect (conn (demo_client 1 [])) 1 "a";
               Connect (conn (demo_client 1 [])) 1 "a"; Evict 0] NewHub = Done s ∧
            live s 1 ∧
            ReadPump_frame (codec := demo_JSON) (sql := demo_SQL) 1 0 (demo_bytes "chat")
              {| hub := s; database := database (demo_world true) |}
              = Done {| hub := h; database := d |} ∧
            length (stored d) = 1 ∧
            heap h !! 1 = heap s !! 1).
Proof.
  split; [|split].
  - destruct (apply_ops_consistent (codec := demo_JSON)
                [Connect (conn (demo_client 1 [])) 1 "a"] NewHub consistent_NewHub)
      as (s & Hrun & Hs).
    destruct (proj1 (SendToConversation_copies (codec := demo_JSON) (sql := demo_SQL)
                       s 7 (as_interface demo_chat) (demo_bytes "message")
                       [1%Z; 1%Z] Hs eq_refl))
      as (s' & Hsend & _ & _ & Hcopies & _).
    exists s, s'. split; [done|]. split; [done|].
    vm_compute in Hrun. injection Hrun as <-.
    rewrite (Hcopies 1%Z 0 _ eq_refl eq_refl). reflexivity.
  - destruct (proj1 (proj2 (SendToConversation_copies (codec := demo_JSON) (sql := demo_SQL)
                demo_state 7
                (VWebSocketMessage "message"
                   (VMessage {| ID := 1; ConversationID := 7; SenderID := 1;
                                Content := "hi"; CreatedAt := 0 |}))
                (demo_bytes "message") [1%Z; 2%Z] consistent_demo_state eq_refl))
                (demo_world true) 1 (demo_client 1 []) 0%Z (demo_bytes "chat")
                (<["conversation_id" := VFloat64 7]> (<["content" := VString "hi"]> ∅))
                "hi"
                {| stored := [{| ID := 1; ConversationID := 7; SenderID := 1;
                                 Content := "hi"; CreatedAt := 0 |}]; online := true |}
                {| ID := 1; ConversationID := 7; SenderID := 1;
                   Content := "hi"; CreatedAt := 0 |})
      as (h & k & Hrun & Hk & Hh); try reflexivity.
    { unfold int64_min, int64_max. lia. }
    { set_solver. }
    eexists h, _, k. split; [exact Hrun|]. split; [done|]. by rewrite Hh.
  - destruct (apply_ops_consistent (codec := demo_JSON)
                [Connect (conn (demo_client 1 [])) 1 "a";
                 Connect (conn (demo_client 1 [])) 1 "a"; Evict 0] NewHub consistent_NewHub)
      as (s & Hops & Hs).
    pose proof (proj2 (proj2 (SendToConversation_copies (codec := demo_JSON)
                  (sql := demo_SQL) s 7
                  (VWebSocketMessage "message"
                     (VMessage {| ID := 1; ConversationID := 7; SenderID := 1;
                                  Content := "hi"; CreatedAt := 0 |}))
                  (demo_bytes "message") [1%Z; 2%Z] Hs eq_refl))
                  {| hub := s; database := database (demo_world true) |} 1) as Hquiet.
    vm_compute in Hops. injection Hops as <-.
    edestruct (Hquiet {| conn := conn (demo_client 1 []);
                         send := welcomed (codec := demo_JSON);
                         userID := 1; username := "a" |} 0%Z (demo_bytes "chat")
                 (<["conversation_id" := VFloat64 7]> (<["content" := VString "hi"]> ∅))
                 "hi"
                 {| stored := [{| ID := 1; ConversationID := 7; SenderID := 1;
                                  Content := "hi"; CreatedAt := 0 |}]; online := true |}
                 {| ID := 1; ConversationID := 7; SenderID := 1;
                    Content := "hi"; CreatedAt := 0 |})
      as (h & Hrun & Hh); try reflexivity.
    { unfold int64_min, int64_max. lia. }
    { vm_compute. discriminate. }
    eexists _, h, _. split; [vm_compute; reflexivity|].
    split; [by eexists|]. split; [exact Hrun|]. split; [reflexivity|exact Hh].
Defined.

(** A typing frame from client 1 while client 2 is registered with a full
    queue: client 2 does not get the envelope, its queue still holds what
    it held, and it is not live afterwards. *)
Lemma ReadPump_typing_broadcast_counterexample :
  live demo_state 2 ∧
  ∃ w', ReadPump_frame (codec := demo_JSON) (sql := demo_SQL) 1 0 (demo_bytes "typing")
          (demo_world true) = Done w' ∧
        buf ∘ send <$> heap (hub w') !! 2 = Some [demo_bytes "old"] ∧
        ¬ live (hub w') 2.
Proof.
  split; [by eexists|].
  eexists. split; [vm_compute; reflexivity|]. split; [reflexivity|].
  intros [b Hb]. vm_compute in Hb. discriminate.
Qed.

Lemma ReadPump_typing_broadcast_witness :
  ∃ h, ReadPump_frame (codec := demo_JSON) (sql := demo_SQL) 1 0 (demo_bytes "typing")
         (demo_world true) = Done {| hub := h; database := database (demo_world true) |} ∧
       heap h !! 1 = Some (with_send (demo_client 1 [])
                             (enqueue (send (demo_client 1 [])) (demo_bytes "typing"))) ∧
       live h 1 ∧
       heap h !! 2 = Some (with_send (demo_client 2 [demo_bytes "old"])
                             (shut (send (demo_client 2 [demo_bytes "old"])))) ∧
       ¬ live h 2.
Proof.
  destruct (proj2 (ReadPump_typing_broadcast (codec := demo_JSON) (sql := demo_SQL)
                     1 (demo_client 1 []) 0 (demo_bytes "typing")
                     (<["conversation_id" := VFloat64 7]> (<["is_typing" := VBool true]> ∅))
                     (VFloat64 7) (VBool true) (demo_world true)
                     eq_refl eq_refl eq_refl eq_refl)
              (demo_bytes "typing") consistent_demo_state eq_refl)
    as (h & Hframe & Hall).
  exists h. split; [exact Hframe|].
  pose proof (Hall 1 (demo_client 1 []) (ex_intro _ true eq_refl) eq_refl) as H1.
  pose proof (Hall 2 (demo_client 2 [demo_bytes "old"]) (ex_intro _ true eq_refl) eq_refl)
    as H2.
  simpl in H1, H2. tauto.
Defined.

(** ** The outbound pump *)

Lemma write_fails_step (cn cn' : Conn) (message : bytes) (n : nat) :
  WriteMessage (TextMessage message) cn = (cn', None) →
  write_fails cn (S n) = write_fails cn' n ∧ conn_closed cn' = conn_closed cn.
Proof.
  unfold WriteMessage, write_fails.
  destruct (conn_closed cn) eqn:Hc; [done|].
  destruct (writes_left cn) as [[|k]|] eqn:Hk; [done| |].
  - intros [= <-]. simpl. split; [|done].
    destruct n as [|n]; [apply bool_decide_eq_false; lia|].
    apply bool_decide_ext. lia.
  - intros [= <-]. simpl. split; [|done]. by destruct n.
Qed.

Lemma write_fails_error (cn cn' : Conn) (message : bytes) (err : string) (n : nat) :
  WriteMessage (TextMessage message) cn = (cn', Some err) →
  write_fails cn (S n) = true.
Proof.
  unfold WriteMessage, write_fails.
  destruct (conn_closed cn) eqn:Hc; [done|].
  destruct (writes_left cn) as [[|k]|] eqn:Hk; [|done..].
  by intros _.
Qed.

Lemma WritePump_loop_spec (fuel : nat) (ch : chan) (cn : Conn) :
  length (buf ch) < fuel →
  ∃ ch' cn' st, WritePump_loop fuel ch cn = Some (ch', cn', st) ∧
    match st with
    | Waiting =>
        write_fails cn (length (buf ch)) = false ∧ closed ch = false ∧
        buf ch' = [] ∧ conn_closed cn' = conn_closed cn
    | ExitQueueClosed =>
        write_fails cn (length (buf ch)) = false ∧ closed ch = true ∧
        buf ch' = [] ∧ conn_closed cn' = true
    | ExitWriteError =>
        write_fails cn (length (buf ch)) = true ∧ conn_closed cn' = true
    | ExitReadError => False
    end.
Proof.
  revert ch cn. induction fuel as [|fuel IH]; intros ch cn Hfuel; [lia|].
  simpl. unfold try_recv. destruct ch as [pending n is_closed]. simpl in *.
  destruct pending as [|message rest].
  - destruct is_closed.
    + destruct (WriteMessage CloseMessage cn) as [cn' e].
      eexists _, _, _. split; [done|]. done.
    + eexists _, _, _. split; [done|]. done.
  - destruct (WriteMessage (TextMessage message) cn) as [cn' [err|]] eqn:Hw.
    + eexists _, _, _. split; [done|]. simpl. split; [|done].
      by eapply write_fails_error.
    + destruct (write_fails_step cn cn' message (length rest) Hw) as [Hf Hc].
      destruct (IH {| buf := rest; cap := n; closed := is_closed |} cn')
        as (ch' & cn'' & st & Hrun & Hst); [simpl in *; lia|].
      exists ch', cn'', st. split; [done|]. simpl in *.
      rewrite Hf. destruct st; try done.
      destruct Hst as (? & ? & ? & ?). repeat split; try done. congruence.
Qed.

(** C6, as the code has it: [WritePump] always comes to a point where it
    returns or waits for the next value.  It returns at the closed-queue
    branch exactly when the queue is closed and no write of a pending
    message fails (the queue is then drained); it returns at the
    write-error branch exactly when a write of a pending message fails,
    whether the queue is closed or not; it waits exactly when the queue is
    open and no write fails.  So it returns exactly when the queue is
    closed or a write fails, and whenever it returns the transport is
    closed; while it waits the pump has not closed the transport. *)
Theorem WritePump_termination (cl : Client) :
  ∃ cl' st, WritePump cl = Some (cl', st) ∧
    (st = ExitQueueClosed ↔
       closed (send cl) = true ∧
       write_fails (conn cl) (length (buf (send cl))) = false) ∧
    (st = ExitWriteError ↔
       write_fails (conn cl) (length (buf (send cl))) = true) ∧
    (st = Waiting ↔
       closed (send cl) = false ∧
       write_fails (conn cl) (length (buf (send cl))) = false) ∧
    (st ≠ Waiting ↔
       closed (send cl) = true ∨
       write_fails (conn cl) (length (buf (send cl))) = true) ∧
    (st ≠ Waiting → conn_closed (conn cl') = true) ∧
    (st = Waiting →
       buf (send cl') = [] ∧ conn_closed (conn cl') = conn_closed (conn cl)).
Proof.
  destruct (WritePump_loop_spec (S (length (buf (send cl)))) (send cl) (conn cl))
    as (ch' & cn' & st & Hrun & Hst); [lia|].
  exists (with_conn (with_send cl ch') cn'), st.
  unfold WritePump. rewrite Hrun. split; [done|]. simpl.
  destruct (closed (send cl)), (write_fails (conn cl) (length (buf (send cl))));
    destruct st; naive_solver.
Qed.

(** The queue is open and holds one message, the network takes no more
    writes: the pump returns, at the write-error branch. *)
Lemma WritePump_termination_counterexample :
  ∃ cl',
    WritePump {| conn := {| wire := []; conn_closed := false; writes_left := Some 0 |};
                 send := {| buf := [demo_bytes "message"]; cap := 256; closed := false |};
                 userID := 1; username := "a" |} = Some (cl', ExitWriteError) ∧
    closed (send cl') = false ∧ conn_closed (conn cl') = true.
Proof. eexists. split; [reflexivity|]. split; reflexivity. Qed.

(** ** Admission *)

Section admission_facts.
Context {codec : JSON} {jwt : JWT} {DB : Type} {sql : SQL DB}.

(** C5, as the code has it: when the credential is missing, does not
    parse (bad signature or expired), is not valid, or names a user the
    database does not have, the handler answers with an HTTP error whose
    status is 401 or 404, so not a 2xx status, and returns at once:
    whatever the handshake of the request is, no upgrade is made, and the
    hub is what it was, so no client object is constructed and none is
    registered.  The response does not tell the failures of the credential
    apart: a missing one, one that does not parse and one that is not valid
    all get 401 with the body [Unauthorized]; only the unknown user gets
    another response, 404 with the body [User not found]. *)
Theorem HandleWebSocket_rejects (r : Request) (w : World DB) :
  auth_failure r w →
  ∃ body code,
    HandleWebSocket r w = Done (HttpError body code, w) ∧
    (code = StatusUnauthorized ∨ code = StatusNotFound) ∧
    ¬ (200 ≤ code < 300)%Z ∧
    (∀ cookie err,
       Cookie r !! "auth_token" = Some cookie →
       parse_err (jwt_ParseWithClaims cookie "your-secret-key") = None →
       token_Valid (jwt_ParseWithClaims cookie "your-secret-key") = true →
       GetUserByID (claimed_user (jwt_ParseWithClaims cookie "your-secret-key"))
         (database w) = inr err →
       body = "User not found" ∧ code = StatusNotFound) ∧
    ((Cookie r !! "auth_token" = None ∨
      ∃ cookie, Cookie r !! "auth_token" = Some cookie ∧
        (is_Some (parse_err (jwt_ParseWithClaims cookie "your-secret-key")) ∨
         token_Valid (jwt_ParseWithClaims cookie "your-secret-key") = false)) →
     body = "Unauthorized" ∧ code = StatusUnauthorized).
Proof.
  intros Hfail. unfold HandleWebSocket, StatusUnauthorized, StatusNotFound.
  destruct Hfail as [Hc|cookie e Hc He|cookie Hc Hv|cookie err Hc He Hv Hu].
  - rewrite Hc. exists "Unauthorized", 401%Z.
    split; [done|]. split; [by left|]. split; [lia|]. split; [|done].
    intros cookie err Hc'. congruence.
  - rewrite Hc, He. simpl. exists "Unauthorized", 401%Z.
    split; [|split; [by left|split; [lia|split; [|done]]]].
    + done.
    + intros cookie' err Hc' He'. congruence.
  - rewrite Hc, Hv. simpl. exists "Unauthorized", 401%Z.
    split; [|split; [by left|split; [lia|split; [|done]]]].
    + by rewrite orb_true_r.
    + intros cookie' err Hc' _ Hv'. congruence.
  - rewrite Hc, He, Hv. simpl. unfold claimed_user in Hu.
    rewrite Hu. exists "User not found", 404%Z.
    split; [done|]. split; [by right|]. split; [lia|]. split; [done|].
    intros [Hc'|(cookie' & Hc' & [[e' He']|Hv'])]; congruence.
Qed.

End admission_facts.

Lemma HandleWebSocket_rejects_witness :
  ∃ body code,
    HandleWebSocket (codec := demo_JSON) (jwt := demo_JWT) (sql := demo_SQL)
      (demo_request (Some "stale")) (demo_world true)
      = Done (HttpError body code, demo_world true) ∧
    ¬ (200 ≤ code < 300)%Z.
Proof.
  destruct (HandleWebSocket_rejects (codec := demo_JSON) (jwt := demo_JWT)
              (sql := demo_SQL) (demo_request (Some "stale")) (demo_world true))
    as (body & code & Hrun & _ & Hcode & _).
  - apply (CredentialRefused _ _ "stale" ErrExpired); reflexivity.
  - by exists body, code.
Defined.

(** A request without a credential, one whose credential has a bad
    signature and one whose credential is expired: three different
    failures, one and the same response. *)
Lemma HandleWebSocket_rejects_counterexample :
  parse_err (jwt_ParseWithClaims (JWT := demo_JWT) "forged" "your-secret-key")
    = Some ErrSignatureInvalid ∧
  parse_err (jwt_ParseWithClaims (JWT := demo_JWT) "stale" "your-secret-key")
    = Some ErrExpired ∧
  HandleWebSocket (codec := demo_JSON) (jwt := demo_JWT) (sql := demo_SQL)
    (demo_request None) (demo_world true)
    = Done (HttpError "Unauthorized" StatusUnauthorized, demo_world true) ∧
  HandleWebSocket (codec := demo_JSON) (jwt := demo_JWT) (sql := demo_SQL)
    (demo_request (Some "forged")) (demo_world true)
    = HandleWebSocket (codec := demo_JSON) (jwt := demo_JWT) (sql := demo_SQL)
        (demo_request None) (demo_world true) ∧
  HandleWebSocket (codec := demo_JSON) (jwt := demo_JWT) (sql := demo_SQL)
    (demo_request (Some "stale")) (demo_world true)
    = HandleWebSocket (codec := demo_JSON) (jwt := demo_JWT) (sql := demo_SQL)
        (demo_request None) (demo_world true).
Proof. repeat split; reflexivity. Qed.

(** ** [SendToUser] against the hub's loop *)

Section race.
Context {codec : JSON}.

(** The three regions of [SendToUser], run with nothing in between, are
    the function. *)
Lemma SendToUser_uninterrupted (uid : Z) (message : value) (s : State) :
  interleave uid message [Caller; Caller; Caller] AtLookup s =
    '(s', err) ← SendToUser uid message s; Done (Returned err, s').
Proof.
  unfold SendToUser. simpl.
  destruct (userMap s !! uid) as [client|]; [|done].
  destruct (json_Marshal message) as [data|err]; [|done]. simpl.
  destruct (select_send client data s) as [[s'|]|msg|]; simpl; try done.
  by destruct (close_and_remove client s).
Qed.

End race.

(** C9, on the code: client 2 (user 2) is registered and its queue is
    full.  Run alone, [SendToUser] for user 2 evicts it and returns.  With
    the hub's loop serving [Unregister] for client 2 after the caller found
    the queue full and before it takes the write lock, the caller closes
    the queue a second time and the process panics; with the unregister
    served after the lookup and before the send, the caller sends on the
    closed queue and the process panics. *)
Theorem SendToUser_Unregister_race :
  interleave (codec := demo_JSON) 2 (as_interface demo_chat)
      [Caller; Caller; Caller] AtLookup demo_state
    = Done (Returned None, removed 2 (demo_client 2 [demo_bytes "old"]) demo_state) ∧
  interleave (codec := demo_JSON) 2 (as_interface demo_chat)
      [Caller; Caller; HubLoop (Unregister 2); Caller] AtLookup demo_state
    = Panic "close of closed channel" ∧
  interleave (codec := demo_JSON) 2 (as_interface demo_chat)
      [Caller; HubLoop (Unregister 2); Caller] AtLookup demo_state
    = Panic "send on closed channel".
Proof. split; [reflexivity|]. split; reflexivity. Qed.

(** ** Every state the hub reaches is consistent *)

Section reachable.
Context {codec : JSON}.

Lemma SendToUser_consistent (uid : Z) (message : value) (s : State) :
  consistent s →
  ∃ s' err, SendToUser uid message s = Done (s', err) ∧ consistent s'.
Proof.
  intros Hs. unfold SendToUser.
  destruct (userMap s !! uid) as [client|] eqn:Hu; [|by exists s, None].
  destruct (json_Marshal message) as [data|err]; [|by exists s, (Some err)].
  destruct (consistent_recipients_open s Hs uid client Hu) as (cl & Hh & Hopen).
  rewrite (select_send_open client cl data s Hh Hopen).
  destruct (full (send cl)); simpl.
  - rewrite (close_and_remove_open client cl s Hh Hopen). simpl.
    eexists _, _. split; [done|]. by apply consistent_removed.
  - eexists _, _. split; [done|]. by apply consistent_enqueue.
Qed.

Lemma SendToConversation_range_consistent (participants : list Z) (data : bytes)
    (s : State) :
  consistent s →
  ∃ s', SendToConversation_range participants data s = Done s' ∧ consistent s'.
Proof.
  revert s. induction participants as [|uid rest IH]; intros s Hs; [by exists s|].
  simpl. unfold SendToConversation_to.
  destruct (userMap s !! uid) as [client|] eqn:Hu; [|by apply IH].
  destruct (consistent_recipients_open s Hs uid client Hu) as (cl & Hh & Hopen).
  rewrite (select_send_open client cl data s Hh Hopen).
  destruct (full (send cl)); simpl; [by apply IH|].
  apply IH. by apply consistent_enqueue.
Qed.

Lemma Broadcast_range_consistent (order : list ptr) (data : bytes) (s : State) :
  NoDup order → (∀ c, c ∈ order → live s c) → consistent s →
  ∃ s', Broadcast_range order data s = Done s' ∧ consistent s'.
Proof.
  revert s. induction order as [|c0 rest IH]; intros s Hnd Hlive Hs; [by exists s|].
  apply NoDup_cons in Hnd as [Hc0 Hnd].
  destruct (live_open s Hs c0) as (cl0 & Hh0 & Hopen); [apply Hlive; set_solver|].
  simpl. rewrite (Broadcast_to_open data c0 cl0 s Hh0 Hopen). simpl.
  apply IH; [done| |].
  - intros c Hc. assert (c ≠ c0) by set_solver.
    destruct (Hlive c) as [b Hb]; [set_solver|].
    exists b. destruct (full (send cl0)); simpl; [|done].
    by rewrite lookup_delete_ne.
  - destruct (full (send cl0)).
    + by apply consistent_removed.
    + by apply consistent_enqueue.
Qed.

Lemma run_call_consistent (k : hub_call) (s : State) :
  consistent s → ∃ s', run_call k s = Done s' ∧ consistent s'.
Proof.
  intros Hs. destruct k as [op|uid message|cid message participants|message]; simpl.
  - by apply apply_op_consistent.
  - destruct (SendToUser_consistent uid message s Hs) as (s' & err & -> & Hs').
    by exists s'.
  - unfold SendToConversation.
    destruct (json_Marshal message) as [data|err]; [|by exists s].
    destruct (SendToConversation_range_consistent participants data s Hs)
      as (s' & -> & Hs').
    by exists s'.
  - unfold BroadcastMessage, Run_Broadcast.
    destruct (json_Marshal message) as [data|err]; [|by exists s].
    destruct (Broadcast_range_consistent (elements (dom (clients s))) data s)
      as (s' & -> & Hs'); [apply NoDup_elements| |done|by exists s'].
    intros c Hc. by apply elem_of_elements, elem_of_dom in Hc.
Qed.

(** Started from the empty hub and with the goroutines taking turns,
    no admission, eviction or delivery waits or faults, and the hub they
    leave is consistent. *)
Lemma run_calls_consistent (ks : list hub_call) :
  ∃ s, run_calls ks NewHub = Done s ∧ consistent s.
Proof.
  assert (∀ s0, consistent s0 → ∃ s, run_calls ks s0 = Done s ∧ consistent s) as Hgen.
  { induction ks as [|k rest IH]; intros s0 Hs0; [by exists s0|].
    destruct (run_call_consistent k s0 Hs0) as (s1 & Hk & Hs1).
    destruct (IH s1 Hs1) as (s & Hrun & Hs).
    exists s. simpl. by rewrite Hk. }
  apply Hgen, consistent_NewHub.
Qed.

End reachable.

(** * Further properties of the hub *)

(** ** Deliveries and evictions as sequences of steps *)

Lemma consistent_hub_step (s s' : State) :
  consistent s → hub_step s s' → consistent s'.
Proof.
  intros Hs [c cl data Hl Hh Hc Hf|c cl Hl Hh Hc].
  - by apply consistent_enqueue.
  - by apply consistent_removed.
Qed.

Lemma consistent_hub_steps (s s' : State) :
  consistent s → rtc hub_step s s' → consistent s'.
Proof.
  intros Hs Hsteps. induction Hsteps as [|s s1 s2 Hstep _ IH]; [done|].
  apply IH. by eapply consistent_hub_step.
Qed.

Section steps.
Context {codec : JSON}.

Lemma SendToConversation_range_steps (participants : list Z) (data : bytes) (s : State) :
  consistent s →
  ∃ s', SendToConversation_range participants data s = Done s' ∧ rtc hub_step s s'.
Proof.
  revert s. induction participants as [|uid rest IH]; intros s Hs; [by exists s|].
  simpl. unfold SendToConversation_to.
  destruct (userMap s !! uid) as [client|] eqn:Hu; [|by apply IH].
  destruct (mapped_live s Hs uid client Hu) as [Hl _].
  destruct (live_open s Hs client Hl) as (cl & Hh & Hopen).
  rewrite (select_send_open client cl data s Hh Hopen).
  destruct (full (send cl)) eqn:Hfull; simpl; [by apply IH|].
  destruct (IH (store client (with_send cl (enqueue (send cl) data)) s))
    as (s' & Hrun & Hsteps); [by apply consistent_enqueue|].
  exists s'. split; [done|]. eapply rtc_l; [|done]. by apply step_push.
Qed.

Lemma Broadcast_range_steps (order : list ptr) (data : bytes) (s : State) :
  NoDup order → (∀ c, c ∈ order → live s c) → consistent s →
  ∃ s', Broadcast_range order data s = Done s' ∧ rtc hub_step s s'.
Proof.
  revert s. induction order as [|c0 rest IH]; intros s Hnd Hlive Hs; [by exists s|].
  apply NoDup_cons in Hnd as [Hc0 Hnd].
  assert (live s c0) as Hl0 by (apply Hlive; set_solver).
  destruct (live_open s Hs c0 Hl0) as (cl0 & Hh0 & Hopen).
  simpl. rewrite (Broadcast_to_open data c0 cl0 s Hh0 Hopen). simpl.
  set (s1 := if full (send cl0) then removed c0 cl0 s
             else store c0 (with_send cl0 (enqueue (send cl0) data)) s).
  assert (hub_step s s1) as Hstep.
  { unfold s1. destruct (full (send cl0)) eqn:Hfull.
    - by apply step_drop.
    - by apply step_push. }
  destruct (IH s1 Hnd) as (s' & Hrun & Hsteps).
  - intros c Hc. assert (c ≠ c0) by set_solver.
    destruct (Hlive c) as [b Hb]; [set_solver|].
    exists b. unfold s1. destruct (full (send cl0)); simpl; [|done].
    by rewrite lookup_delete_ne.
  - by eapply consistent_hub_step.
  - exists s'. split; [done|]. by eapply rtc_l.
Qed.

Lemma run_call_steps (k : hub_call) (s : State) :
  consistent s → admits_nobody k = true →
  ∃ s', run_call k s = Done s' ∧ rtc hub_step s s'.
Proof.
  intros Hs Hk.
  destruct k as [[cn uid name|client]|uid message|cid message participants|message];
    simpl in *; [done| | | |].
  - destruct (Run_Unregister_consistent client s Hs)
      as (s' & Hrun & _ & [[-> _]|(cl & Hh & Hl & ->)]).
    + by exists s.
    + eexists. split; [done|]. apply rtc_once.
      destruct (live_open s Hs client Hl) as (cl' & Hh' & Hopen).
      assert (cl' = cl) as -> by congruence. by apply step_drop.
  - unfold SendToUser.
    destruct (userMap s !! uid) as [client|] eqn:Hu; [|by exists s].
    destruct (json_Marshal message) as [data|err]; [|by exists s].
    destruct (mapped_live s Hs uid client Hu) as [Hl _].
    destruct (live_open s Hs client Hl) as (cl & Hh & Hopen).
    rewrite (select_send_open client cl data s Hh Hopen).
    destruct (full (send cl)) eqn:Hfull; simpl.
    + rewrite (close_and_remove_open client cl s Hh Hopen). simpl.
      eexists. split; [done|]. apply rtc_once. by apply step_drop.
    + eexists. split; [done|]. apply rtc_once. by apply step_push.
  - unfold SendToConversation.
    destruct (json_Marshal message) as [data|err]; [|by exists s].
    destruct (SendToConversation_range_steps participants data s Hs) as (s' & -> & Hsteps).
    by exists s'.
  - unfold BroadcastMessage, Run_Broadcast.
    destruct (json_Marshal message) as [data|err]; [|by exists s].
    destruct (Broadcast_range_steps (elements (dom (clients s))) data s)
      as (s' & -> & Hsteps); [apply NoDup_elements| |done|by exists s'].
    intros c Hc. by apply elem_of_elements, elem_of_dom in Hc.
Qed.

End steps.

(** ** What the steps keep *)

Lemma hub_step_frozen (s s' : State) (c : ptr) (cl : Client) :
  hub_step s s' → heap s !! c = Some cl → closed (send cl) = true →
  heap s' !! c = Some cl.
Proof.
  intros [c0 cl0 data Hl Hh0 Hc0 Hf|c0 cl0 Hl Hh0 Hc0] Hh Hc; simpl;
    (rewrite lookup_insert_ne; [done|]); intros ->; congruence.
Qed.

Lemma hub_step_within_capacity (s s' : State) :
  hub_step s s' → within_capacity s → within_capacity s'.
Proof.
  intros [c0 cl0 data Hl Hh0 Hc0 Hf|c0 cl0 Hl Hh0 Hc0] Hcap c cl; simpl.
  - destruct (decide (c = c0)) as [->|Hne].
    + rewrite lookup_insert_eq. intros [= <-]. simpl.
      destruct (Hcap c0 cl0 Hh0) as [Hcap0 Hlen].
      split; [done|]. rewrite length_app. simpl.
      apply bool_decide_eq_false in Hf. lia.
    + rewrite lookup_insert_ne by done. apply Hcap.
  - destruct (decide (c = c0)) as [->|Hne].
    + rewrite lookup_insert_eq. intros [= <-]. simpl. by apply (Hcap c0 cl0).
    + rewrite lookup_insert_ne by done. apply Hcap.
Qed.

Lemma bijection_enqueue (c : ptr) (cl : Client) (data : bytes) (s : State) :
  bijection s → heap s !! c = Some cl →
  bijection (store c (with_send cl (enqueue (send cl) data)) s).
Proof.
  intros [Hlive Hmap] Hh. split.
  - intros c' Hl. destruct (Hlive c' Hl) as (cl' & Hh' & Hu). simpl.
    destruct (decide (c' = c)) as [->|Hne].
    + rewrite lookup_insert_eq. eexists. split; [done|]. simpl. congruence.
    + rewrite lookup_insert_ne by done. by exists cl'.
  - intros uid c' Hu. destruct (Hmap uid c' Hu) as (Hl & cl' & Hh' & Hid).
    split; [done|]. simpl.
    destruct (decide (c' = c)) as [->|Hne].
    + rewrite lookup_insert_eq. eexists. split; [done|]. simpl. congruence.
    + rewrite lookup_insert_ne by done. by exists cl'.
Qed.

Lemma hub_steps_bijection (s s' : State) :
  rtc hub_step s s' → consistent s → bijection s → bijection s'.
Proof.
  intros Hsteps. induction Hsteps as [|s s1 s2 Hstep _ IH]; [done|].
  intros Hs Hb. apply IH; [by eapply consistent_hub_step|].
  destruct Hstep as [c cl data Hl Hh Hc Hf|c cl Hl Hh Hc].
  - by apply bijection_enqueue.
  - by apply bijection_removed.
Qed.

Lemma hub_steps_shrink (s s' : State) :
  rtc hub_step s s' →
  clients s' ⊆ clients s ∧ userMap s' ⊆ userMap s ∧
  ∀ c cl', heap s' !! c = Some cl' →
    ∃ cl, heap s !! c = Some cl ∧ userID cl' = userID cl ∧
          username cl' = username cl ∧ conn cl' = conn cl.
Proof.
  intros Hsteps. induction Hsteps as [|s s1 s2 Hstep _ IH].
  - split; [done|]. split; [done|]. intros c cl' Hh. by exists cl'.
  - destruct IH as (Hcl & Hum & Hobj).
    assert (clients s1 ⊆ clients s ∧ userMap s1 ⊆ userMap s ∧
            ∀ c cl', heap s1 !! c = Some cl' →
              ∃ cl, heap s !! c = Some cl ∧ userID cl' = userID cl ∧
                    username cl' = username cl ∧ conn cl' = conn cl)
      as (Hcl1 & Hum1 & Hobj1).
    { destruct Hstep as [c0 cl0 data Hl Hh0 Hc0 Hf|c0 cl0 Hl Hh0 Hc0]; simpl.
      - split; [done|]. split; [done|]. intros c cl'.
        destruct (decide (c = c0)) as [->|Hne].
        + rewrite lookup_insert_eq. intros [= <-]. by exists cl0.
        + rewrite lookup_insert_ne by done. intros Hh. by exists cl'.
      - split; [apply delete_subseteq|]. split; [apply delete_subseteq|].
        intros c cl'. destruct (decide (c = c0)) as [->|Hne].
        + rewrite lookup_insert_eq. intros [= <-]. by exists cl0.
        + rewrite lookup_insert_ne by done. intros Hh. by exists cl'. }
    split; [by etrans|]. split; [by etrans|].
    intros c cl2 Hh2. destruct (Hobj c cl2 Hh2) as (cl1 & Hh1 & ? & ? & ?).
    destruct (Hobj1 c cl1 Hh1) as (cl & Hh & ? & ? & ?).
    exists cl. repeat split; [done|congruence..].
Qed.

Section kept.
Context {codec : JSON}.

(** Once the queue of a client is closed nothing reaches the client any
    more: whatever admissions, evictions and deliveries follow, they run to
    their end, the client object (its queue with what it held, its
    identity, its transport) stays as it is, the client is not in the live
    set and no identity has it as its entry. *)
Theorem closed_queue_is_final (ks : list hub_call) (s : State) (c : ptr) (cl : Client) :
  consistent s → heap s !! c = Some cl → closed (send cl) = true →
  ∃ s', run_calls ks s = Done s' ∧ heap s' !! c = Some cl ∧
        ¬ live s' c ∧ ∀ uid, userMap s' !! uid ≠ Some c.
Proof.
  revert s. induction ks as [|k rest IH]; intros s Hs Hh Hc.
  - exists s. split; [done|]. split; [done|].
    assert (¬ live s c) as Hnl.
    { intros Hl. destruct (live_open s Hs c Hl) as (cl' & Hh' & Hopen). congruence. }
    split; [done|]. intros uid Hu. by destruct (mapped_live s Hs uid c Hu).
  - assert (∃ s1, run_call k s = Done s1 ∧ consistent s1 ∧ heap s1 !! c = Some cl)
      as (s1 & Hk & Hs1 & Hh1).
    { destruct (admits_nobody k) eqn:Hadm.
      - destruct (run_call_steps k s Hs Hadm) as (s1 & Hk & Hsteps).
        exists s1. split; [done|]. split; [by eapply consistent_hub_steps|].
        clear Hk. induction Hsteps as [|s s1 s2 Hstep _ IH']; [done|].
        apply IH'; [by eapply consistent_hub_step|].
        by eapply hub_step_frozen.
      - destruct k as [[cn uid name|client]| | |]; try done. simpl.
        eexists. split; [apply apply_op_Connect|].
        split; [eapply consistent_Connect; [done|apply apply_op_Connect]|].
        simpl. rewrite lookup_insert_ne; [done|].
        intros Heq. pose proof (fresh_unused s) as Hf. rewrite Heq in Hf. congruence. }
    destruct (IH s1 Hs1 Hh1 Hc) as (s' & Hrun & Hrest).
    exists s'. simpl. rewrite Hk. done.
Qed.

(** Started from the empty hub, whatever is admitted, evicted and
    delivered, every queue keeps the capacity of 256 it was made with and
    never holds more than 256 messages. *)
Theorem queues_stay_within_capacity (ks : list hub_call) :
  ∃ s, run_calls ks NewHub = Done s ∧ within_capacity s.
Proof.
  assert (∀ s0, consistent s0 → within_capacity s0 →
            ∃ s, run_calls ks s0 = Done s ∧ within_capacity s) as Hgen.
  { induction ks as [|k rest IH]; intros s0 Hs0 Hcap0; [by exists s0|].
    assert (∃ s1, run_call k s0 = Done s1 ∧ consistent s1 ∧ within_capacity s1)
      as (s1 & Hk & Hs1 & Hcap1).
    { destruct (admits_nobody k) eqn:Hadm.
      - destruct (run_call_steps k s0 Hs0 Hadm) as (s1 & Hk & Hsteps).
        exists s1. split; [done|]. split; [by eapply consistent_hub_steps|].
        clear Hk Hs0. induction Hsteps as [|s s1 s2 Hstep _ IH']; [done|].
        apply IH'. by eapply hub_step_within_capacity.
      - destruct k as [[cn uid name|client]| | |]; try done. simpl.
        eexists. split; [apply apply_op_Connect|].
        split; [eapply consistent_Connect; [done|apply apply_op_Connect]|].
        intros c cl. simpl.
        destruct (decide (c = fresh (dom (heap s0)))) as [->|Hne].
        + rewrite lookup_insert_eq. intros [= <-]. simpl. unfold welcomed.
          destruct (json_Marshal _); simpl; split; (done || lia).
        + rewrite lookup_insert_ne by done. apply Hcap0. }
    destruct (IH s1 Hs1 Hcap1) as (s & Hrun & Hcap).
    exists s. simpl. by rewrite Hk. }
  apply Hgen; [apply consistent_NewHub|].
  intros c cl. simpl. by rewrite lookup_empty.
Qed.

(** A delivery or an eviction keeps the bijection between the live set and
    the identity map where it holds, and registers nobody: it runs to its
    end, both maps can only lose entries, no client object appears, and the
    identity, name and transport of every client object stay as they were. *)
Theorem deliveries_keep_the_registry (k : hub_call) (s : State) :
  consistent s → admits_nobody k = true →
  ∃ s', run_call k s = Done s' ∧
        (bijection s → bijection s') ∧
        clients s' ⊆ clients s ∧ userMap s' ⊆ userMap s ∧
        ∀ c cl', heap s' !! c = Some cl' →
          ∃ cl, heap s !! c = Some cl ∧ userID cl' = userID cl ∧
                username cl' = username cl ∧ conn cl' = conn cl.
Proof.
  intros Hs Hadm. destruct (run_call_steps k s Hs Hadm) as (s' & Hk & Hsteps).
  exists s'. split; [done|]. split; [by apply hub_steps_bijection|].
  by apply hub_steps_shrink.
Qed.

End kept.

Lemma closed_queue_is_final_witness :
  ∃ s', run_calls (codec := demo_JSON)
          [Direct 2 (as_interface demo_chat); ToAll (as_interface demo_typing);
           Registry (Evict 2); Scoped 7 (as_interface demo_chat) [1%Z; 2%Z]]
          (removed 2 (demo_client 2 [demo_bytes "old"]) demo_state) = Done s' ∧
        heap s' !! 2 = Some (with_send (demo_client 2 [demo_bytes "old"])
                               (shut (send (demo_client 2 [demo_bytes "old"])))) ∧
        ¬ live s' 2 ∧ ∀ uid, userMap s' !! uid ≠ Some 2.
Proof.
  apply (closed_queue_is_final (codec := demo_JSON)).
  - apply consistent_removed; [apply consistent_demo_state|reflexivity].
  - reflexivity.
  - reflexivity.
Defined.

Lemma deliveries_keep_the_registry_witness :
  ∃ s', run_call (codec := demo_JSON) (ToAll (as_interface demo_typing)) demo_state
          = Done s' ∧
        clients s' ⊆ clients demo_state ∧ userMap s' ⊆ userMap demo_state.
Proof.
  destruct (deliveries_keep_the_registry (codec := demo_JSON)
              (ToAll (as_interface demo_typing)) demo_state
              consistent_demo_state eq_refl)
    as (s' & Hrun & _ & Hcl & Hum & _).
  by exists s'.
Defined.

(** ** Admission followed by delivery or eviction *)

Section admitted.
Context {codec : JSON}.

Lemma welcomed_room : full welcomed = false.
Proof.
  unfold welcomed. destruct (json_Marshal _); apply bool_decide_eq_false; simpl; lia.
Qed.

(** A connection that has just been admitted is reachable at once: it is
    live and the entry of its identity, and a direct delivery to that
    identity returns [nil] and puts the message in its queue right behind
    the welcome, whatever the hub held before. *)
Theorem Connect_then_SendToUser (cn : Conn) (uid : Z) (name : string)
    (message : value) (data : bytes) (s : State) :
  json_Marshal message = inl data →
  ∃ s1 s2,
    apply_op (Connect cn uid name) s = Done s1 ∧
    live s1 (fresh (dom (heap s))) ∧
    userMap s1 !! uid = Some (fresh (dom (heap s))) ∧
    SendToUser uid message s1 = Done (s2, None) ∧
    heap s2 !! fresh (dom (heap s)) =
      Some {| conn := cn; send := enqueue welcomed data;
              userID := uid; username := name |} ∧
    clients s2 = clients s1 ∧ userMap s2 = userMap s1.
Proof.
  intros Hdata. eexists _, _. split; [apply apply_op_Connect|].
  split; [exists true; simpl; by rewrite lookup_insert_eq|].
  split; [simpl; by rewrite lookup_insert_eq|].
  unfold SendToUser. simpl. rewrite lookup_insert_eq, Hdata.
  erewrite select_send_open;
    [|simpl; by rewrite lookup_insert_eq|simpl; apply welcomed_open].
  simpl. rewrite welcomed_room. simpl. split; [done|].
  simpl. by rewrite lookup_insert_eq.
Qed.

(** Admitting a connection for an identity that has no entry and then
    unregistering it leaves the live set and the identity map exactly as
    they were, closes the queue of that connection and changes no other
    client object. *)
Theorem Connect_then_Evict (cn : Conn) (uid : Z) (name : string) (s : State) :
  consistent s → userMap s !! uid = None →
  ∃ s', apply_ops [Connect cn uid name; Evict (fresh (dom (heap s)))] s = Done s' ∧
        clients s' = clients s ∧ userMap s' = userMap s ∧
        heap s' !! fresh (dom (heap s)) =
          Some {| conn := cn; send := shut welcomed; userID := uid; username := name |} ∧
        ∀ c, c ≠ fresh (dom (heap s)) → heap s' !! c = heap s !! c.
Proof.
  intros Hs Hu. pose proof (fresh_unused s) as Hfresh.
  assert (clients s !! fresh (dom (heap s)) = None) as Hnl.
  { apply eq_None_not_Some. intros Hl.
    destruct (live_open s Hs _ Hl) as (cl & Hh & _). congruence. }
  eexists. split.
  - cbn [apply_ops]. rewrite apply_op_Connect. simpl.
    erewrite Run_Unregister_live;
      [done|exists true; simpl; by rewrite lookup_insert_eq
      |simpl; by rewrite lookup_insert_eq|apply welcomed_open].
  - simpl. rewrite !delete_insert_id by done.
    split; [done|]. split; [done|]. split.
    + by rewrite lookup_insert_eq.
    + intros c Hc. by rewrite !lookup_insert_ne.
Qed.

End admitted.

Lemma Connect_then_SendToUser_witness :
  ∃ s1 s2,
    apply_op (codec := demo_JSON) (Connect (conn (demo_client 3 [])) 3 "c") demo_state
      = Done s1 ∧
    SendToUser (codec := demo_JSON) 3 (as_interface demo_chat) s1 = Done (s2, None) ∧
    buf ∘ send <$> heap s2 !! 3 = Some [demo_bytes "system"; demo_bytes "message"].
Proof.
  destruct (Connect_then_SendToUser (codec := demo_JSON) (conn (demo_client 3 [])) 3 "c"
              (as_interface demo_chat) (demo_bytes "message") demo_state eq_refl)
    as (s1 & s2 & Hop & _ & _ & Hsend & Hh & _).
  exists s1, s2. split; [done|]. split; [done|].
  change (fresh (dom (heap demo_state))) with 3 in Hh. by rewrite Hh.
Defined.

Lemma Connect_then_Evict_witness :
  ∃ s', apply_ops (codec := demo_JSON)
          [Connect (conn (demo_client 3 [])) 3 "c"; Evict 3] demo_state = Done s' ∧
        clients s' = clients demo_state ∧ userMap s' = userMap demo_state.
Proof.
  destruct (Connect_then_Evict (codec := demo_JSON) (conn (demo_client 3 [])) 3 "c"
              demo_state consistent_demo_state eq_refl)
    as (s' & Hrun & Hcl & Hum & _).
  by exists s'.
Defined.

(** ** Broadcast when nobody is saturated; the replacement of a superseded connection *)

Lemma shed_nil (s : State) (order : list ptr) :
  (∀ c cl, c ∈ order → heap s !! c = Some cl → full (send cl) = false) →
  shed s order = [].
Proof.
  induction order as [|c rest IH]; intros Hroom; [done|].
  simpl. rewrite IH by (intros c' cl' Hc'; apply Hroom; set_solver).
  destruct (heap s !! c) as [cl|] eqn:Hh; [|done].
  rewrite (Hroom c cl); [done|set_solver|done].
Qed.

Section reach.
Context {codec : JSON}.

(** When no live client has a full queue, a broadcast of a serialisable
    message returns [nil], leaves the live set and the identity map as they
    are, appends the bytes once at the end of the queue of every live
    client and touches no client outside the live set. *)
Theorem BroadcastMessage_reaches_all (message : value) (data : bytes) (s : State) :
  consistent s → json_Marshal message = inl data →
  (∀ c cl, live s c → heap s !! c = Some cl → full (send cl) = false) →
  ∃ s', BroadcastMessage message s = Done (s', None) ∧
        clients s' = clients s ∧ userMap s' = userMap s ∧
        ∀ c, heap s' !! c =
             if decide (live s c)
             then (λ cl, with_send cl (enqueue (send cl) data)) <$> heap s !! c
             else heap s !! c.
Proof.
  intros Hs Hdata Hroom.
  destruct (Run_Broadcast_spec data s Hs) as (s' & Hrun & Hheap & Hclients & Humap).
  exists s'. unfold BroadcastMessage. rewrite Hdata, Hrun. split; [done|].
  split; [|split].
  - apply map_eq. intros c. rewrite Hclients. unfold saturated.
    destruct (heap s !! c) as [cl|] eqn:Hh; [|done].
    destruct (full (send cl)) eqn:Hfull; [|done].
    destruct (clients s !! c) as [b|] eqn:Hc; [|done].
    rewrite (Hroom c cl) in Hfull; [done|by exists b|done].
  - apply map_eq. intros uid. rewrite Humap.
    rewrite shed_nil; [by rewrite decide_False by set_solver|].
    intros c cl Hc Hh. apply (Hroom c cl); [|done].
    by apply elem_of_elements, elem_of_dom in Hc.
  - intros c. rewrite Hheap. destruct (decide (live s c)) as [Hl|]; [|done].
    destruct (heap s !! c) as [cl|] eqn:Hh; [|done]. simpl.
    unfold deliver_or_shut. by rewrite (Hroom c cl Hl Hh).
Qed.

(** Two live connections of one identity, the identity map pointing to
    the newer one: when the older one is unregistered, the identity loses
    its entry although the newer connection stays live with its queue
    untouched.  From then on a direct delivery to the identity returns
    [nil] and does nothing, and no scoped delivery, whatever its
    participant list, puts anything in the queue of the newer connection. *)
Theorem superseded_unregister_orphans (s : State) (uid : Z) (old new : ptr)
    (ocl ncl : Client) :
  consistent s → old ≠ new →
  live s old → heap s !! old = Some ocl → userID ocl = uid →
  userMap s !! uid = Some new → heap s !! new = Some ncl →
  ∃ s1, Run_Unregister old s = Done s1 ∧
        live s1 new ∧ heap s1 !! new = Some ncl ∧ userMap s1 !! uid = None ∧
        (∀ message, SendToUser uid message s1 = Done (s1, None)) ∧
        (∀ conversationID message participants data,
           json_Marshal message = inl data →
           ∃ s2, SendToConversation conversationID message participants s1
                   = Done (s2, None) ∧
                 heap s2 !! new = Some ncl).
Proof.
  intros Hs Hne Hlo Hho Hido Hu Hhn.
  destruct (live_open s Hs old Hlo) as (cl & Hh & Hopen).
  assert (cl = ocl) as -> by congruence.
  destruct (mapped_live s Hs uid new Hu) as ([b Hln] & cl & Hh' & Hidn).
  assert (cl = ncl) as -> by congruence.
  exists (removed old ocl s).
  assert (heap (removed old ocl s) !! new = Some ncl) as Hhn1.
  { simpl. by rewrite lookup_insert_ne. }
  assert (userMap (removed old ocl s) !! uid = None) as Hu1.
  { simpl. rewrite Hido. apply lookup_delete_eq. }
  pose proof (consistent_removed old ocl s Hs Hho) as Hs1.
  split; [by apply Run_Unregister_live|].
  split; [exists b; simpl; by rewrite lookup_delete_ne|].
  split; [done|]. split; [done|]. split.
  - intros message. unfold SendToUser. by rewrite Hu1.
  - intros cid message participants data Hdata.
    destruct (SendToConversation_spec (removed old ocl s) cid message data participants
                Hs1 Hdata) as (s2 & Hrun & _ & _ & _ & Hother).
    exists s2. split; [done|]. apply Hother; [done|].
    intros u _ Hu'.
    destruct (mapped_live _ Hs1 u new Hu') as (_ & cl & Hh2 & Hid2).
    assert (cl = ncl) as -> by congruence. congruence.
Qed.

End reach.

Lemma BroadcastMessage_reaches_all_witness :
  ∃ s', BroadcastMessage (codec := demo_JSON) (as_interface demo_typing)
          (removed 2 (demo_client 2 [demo_bytes "old"]) demo_state) = Done (s', None) ∧
        clients s' = clients (removed 2 (demo_client 2 [demo_bytes "old"]) demo_state) ∧
        userMap s' = userMap (removed 2 (demo_client 2 [demo_bytes "old"]) demo_state) ∧
        buf ∘ send <$> heap s' !! 1 = Some [demo_bytes "typing"] ∧
        buf ∘ send <$> heap s' !! 2 = Some [demo_bytes "old"].
Proof.
  destruct (BroadcastMessage_reaches_all (codec := demo_JSON) (as_interface demo_typing)
              (demo_bytes "typing")
              (removed 2 (demo_client 2 [demo_bytes "old"]) demo_state))
    as (s' & Hsend & Hcl & Hum & Hheap).
  - apply consistent_removed; [apply consistent_demo_state|reflexivity].
  - reflexivity.
  - intros c cl [b Hb] Hh. simpl in Hb.
    apply lookup_delete_Some in Hb as [Hne Hb].
    apply lookup_insert_Some in Hb as [[<- _]|[_ Hb]].
    { vm_compute in Hh. by injection Hh as <-. }
    apply lookup_insert_Some in Hb as [[<- _]|[_ Hb]]; [done|].
    by rewrite lookup_empty in Hb.
  - exists s'. split; [done|]. split; [done|]. split; [done|].
    rewrite !Hheap. split.
    + rewrite decide_True by (by eexists). reflexivity.
    + rewrite decide_False; [reflexivity|]. intros [b Hb]. vm_compute in Hb. done.
Defined.

Lemma superseded_unregister_orphans_witness :
  ∃ s, apply_ops (codec := demo_JSON)
         [Connect (conn (demo_client 1 [])) 1 "a"; Connect (conn (demo_client 1 [])) 1 "a"]
         NewHub = Done s ∧
  ∃ s1, Run_Unregister 0 s = Done s1 ∧ live s1 1 ∧ userMap s1 !! 1%Z = None ∧
        SendToUser (codec := demo_JSON) 1 (as_interface demo_chat) s1 = Done (s1, None).
Proof.
  destruct (apply_ops_consistent (codec := demo_JSON)
              [Connect (conn (demo_client 1 [])) 1 "a";
               Connect (conn (demo_client 1 [])) 1 "a"] NewHub consistent_NewHub)
    as (s & Hrun & Hs).
  exists s. split; [done|].
  vm_compute in Hrun. injection Hrun as <-.
  match type of Hs with consistent ?st => set (s := st) in * end.
  destruct (superseded_unregister_orphans (codec := demo_JSON) s 1 0 1
              {| conn := conn (demo_client 1 []); send := welcomed (codec := demo_JSON);
                 userID := 1; username := "a" |}
              {| conn := conn (demo_client 1 []); send := welcomed (codec := demo_JSON);
                 userID := 1; username := "a" |} Hs)
    as (s1 & Hun & Hl & _ & Hu & Hdirect & _);
    [done|by eexists|reflexivity|reflexivity|reflexivity|reflexivity|].
  exists s1. split; [done|]. split; [done|]. split; [done|]. apply Hdirect.
Defined.

(** * Further properties of the pumps *)

(** ** The outbound pump and the wire *)

Lemma takes_le (cn : Conn) (i j : nat) :
  takes cn j = true → i ≤ j → takes cn i = true.
Proof.
  unfold takes. destruct (conn_closed cn); [done|]. simpl.
  destruct (writes_left cn); [|done].
  rewrite !bool_decide_eq_true. lia.
Qed.

Lemma WriteMessage_ok (f : frame) (cn cn' : Conn) :
  WriteMessage f cn = (cn', None) →
  conn_closed cn = false ∧ wire cn' = wire cn ++ [f] ∧ conn_closed cn' = false ∧
  takes cn 1 = true ∧ ∀ j, takes cn (S j) = takes cn' j.
Proof.
  unfold WriteMessage, takes.
  destruct (conn_closed cn); [done|].
  destruct (writes_left cn) as [[|j]|]; [done| |]; intros [= <-]; simpl.
  - repeat split. intros i. apply bool_decide_ext. lia.
  - done.
Qed.

Lemma WriteMessage_error (f : frame) (cn cn' : Conn) (err : string) :
  WriteMessage f cn = (cn', Some err) → cn' = cn ∧ takes cn 1 = false.
Proof.
  unfold WriteMessage, takes.
  destruct (conn_closed cn); [by intros [= <-]|].
  destruct (writes_left cn) as [[|j]|]; [|done..].
  by intros [= <-].
Qed.

Lemma WritePump_loop_wire (fuel : nat) (ch : chan) (cn : Conn) :
  length (buf ch) < fuel →
  ∃ ch' cn' st k tail,
    WritePump_loop fuel ch cn = Some (ch', cn', st) ∧
    closed ch' = closed ch ∧
    wire cn' = wire cn ++ (TextMessage <$> take k (buf ch)) ++ tail ∧
    (k = 0 ∨ takes cn k = true) ∧
    match st with
    | Waiting =>
        closed ch = false ∧ k = length (buf ch) ∧ buf ch' = [] ∧ tail = [] ∧
        conn_closed cn' = conn_closed cn
    | ExitQueueClosed =>
        closed ch = true ∧ k = length (buf ch) ∧ buf ch' = [] ∧
        tail = (if takes cn (S (length (buf ch))) then [CloseMessage] else []) ∧
        conn_closed cn' = true
    | ExitWriteError =>
        k < length (buf ch) ∧ buf ch' = drop (S k) (buf ch) ∧ tail = [] ∧
        takes cn (S k) = false ∧ conn_closed cn' = true
    | ExitReadError => False
    end.
Proof.
  revert ch cn. induction fuel as [|fuel IH]; intros ch cn Hfuel; [lia|].
  simpl. unfold try_recv. destruct ch as [pending n is_closed]. simpl in *.
  destruct pending as [|message rest].
  - destruct is_closed.
    + destruct (WriteMessage CloseMessage cn) as [cn' [err|]] eqn:Hw.
      * destruct (WriteMessage_error _ _ _ _ Hw) as [-> Hno].
        eexists _, _, _, 0, []. split; [done|]. simpl. rewrite Hno, app_nil_r.
        repeat split; by left.
      * destruct (WriteMessage_ok _ _ _ Hw) as (_ & Hwire & _ & Hyes & _).
        eexists _, _, _, 0, [CloseMessage]. split; [done|]. simpl. rewrite Hyes.
        repeat split; [done|by left].
    + eexists _, _, _, 0, []. split; [done|]. simpl. rewrite app_nil_r.
      repeat split; by left.
  - destruct (WriteMessage (TextMessage message) cn) as [cn' [err|]] eqn:Hw.
    + destruct (WriteMessage_error _ _ _ _ Hw) as [-> Hno].
      eexists _, _, _, 0, []. split; [done|]. simpl. rewrite app_nil_r.
      repeat split; [by left|lia|done].
    + destruct (WriteMessage_ok _ _ _ Hw) as (Hc & Hwire & Hc' & Hone & Htakes).
      destruct (IH {| buf := rest; cap := n; closed := is_closed |} cn')
        as (ch' & cn'' & st & k & tail & Hrun & Hcl & Hwire' & Hyes & Hst);
        [simpl in *; lia|].
      exists ch', cn'', st, (S k), tail. split; [done|]. simpl in *.
      split; [done|].
      split; [rewrite Hwire', Hwire, <- app_assoc; done|].
      split.
      { right. rewrite Htakes. destruct Hyes as [->|Hyes]; [|done].
        by rewrite <- Htakes. }
      destruct st; try done.
      * destruct Hst as (? & -> & ? & ? & ?). repeat split; try done. congruence.
      * destruct Hst as (? & -> & ? & -> & ?). repeat split; try done.
        by rewrite Htakes.
      * destruct Hst as (? & ? & ? & Hno & ?).
        split; [lia|]. split; [done|]. split; [done|].
        split; [by rewrite Htakes|done].
Qed.

(** While no write fails, the outbound pump empties the queue and writes
    the queued messages to the transport as text frames in the order they
    were enqueued.  With the queue open it then waits and leaves the
    transport open; with the queue closed it adds the close frame if the
    transport still takes a write, returns and closes the transport. *)
Theorem WritePump_writes_in_order (cl : Client) :
  takes (conn cl) (length (buf (send cl))) = true ∨ buf (send cl) = [] →
  ∃ cl' st, WritePump cl = Some (cl', st) ∧
    buf (send cl') = [] ∧
    userID cl' = userID cl ∧
    (closed (send cl) = false →
       st = Waiting ∧
       wire (conn cl') = wire (conn cl) ++ (TextMessage <$> buf (send cl)) ∧
       conn_closed (conn cl') = conn_closed (conn cl)) ∧
    (closed (send cl) = true →
       st = ExitQueueClosed ∧
       wire (conn cl') = wire (conn cl) ++ (TextMessage <$> buf (send cl)) ++
         (if takes (conn cl) (S (length (buf (send cl)))) then [CloseMessage] else []) ∧
       conn_closed (conn cl') = true).
Proof.
  intros Hok.
  destruct (WritePump_loop_wire (S (length (buf (send cl)))) (send cl) (conn cl))
    as (ch' & cn' & st & k & tail & Hrun & _ & Hwire & _ & Hst); [lia|].
  exists (with_conn (with_send cl ch') cn'), st.
  unfold WritePump. rewrite Hrun. split; [done|]. simpl.
  destruct st; try done.
  - destruct Hst as (Hc & -> & Hb & -> & Hcc). rewrite firstn_all, app_nil_r in Hwire.
    split; [done|]. split; [done|]. split; [done|]. intros Hc'. congruence.
  - destruct Hst as (Hc & -> & Hb & -> & Hcc). rewrite firstn_all in Hwire.
    split; [done|]. split; [done|]. split; [intros Hc'; congruence|done].
  - destruct Hst as (Hk & _ & _ & Hno & _). exfalso.
    destruct Hok as [Hok|Hok]; [|rewrite Hok in Hk; simpl in Hk; lia].
    rewrite (takes_le _ (S k) _ Hok) in Hno; [done|lia].
Qed.

(** When the transport takes only [k] of the queued messages, the pump
    writes the first [k] in order, returns at the write error and closes
    the transport; the message whose write failed has been taken from the
    queue and is lost, the later ones are left in the queue and never
    written. *)
Theorem WritePump_write_error_loses_message (cl : Client) (k : nat) :
  k < length (buf (send cl)) →
  takes (conn cl) (S k) = false → (k = 0 ∨ takes (conn cl) k = true) →
  ∃ cl', WritePump cl = Some (cl', ExitWriteError) ∧
    wire (conn cl') = wire (conn cl) ++ (TextMessage <$> take k (buf (send cl))) ∧
    buf (send cl') = drop (S k) (buf (send cl)) ∧
    closed (send cl') = closed (send cl) ∧
    conn_closed (conn cl') = true.
Proof.
  intros Hk Hno Hyes.
  destruct (WritePump_loop_wire (S (length (buf (send cl)))) (send cl) (conn cl))
    as (ch' & cn' & st & k' & tail & Hrun & Hclosed & Hwire & Hyes' & Hst); [lia|].
  assert (st = ExitWriteError ∧ k' = k) as [-> ->].
  { destruct st; try done.
    - destruct Hst as (_ & -> & _). exfalso.
      destruct Hyes' as [Hz|Hall]; [lia|].
      rewrite (takes_le _ (S k) _ Hall) in Hno; [done|lia].
    - destruct Hst as (_ & -> & _). exfalso.
      destruct Hyes' as [Hz|Hall]; [lia|].
      rewrite (takes_le _ (S k) _ Hall) in Hno; [done|lia].
    - split; [done|]. destruct Hst as (_ & _ & _ & Hno' & _).
      destruct (decide (k' = k)) as [|Hne]; [done|]. exfalso.
      destruct (decide (k < k')) as [Hlt|Hge].
      + destruct Hyes' as [Hz|Hall]; [lia|].
        rewrite (takes_le _ (S k) _ Hall) in Hno; [done|lia].
      + destruct Hyes as [Hz|Hall]; [lia|].
        rewrite (takes_le _ (S k') _ Hall) in Hno'; [done|lia]. }
  destruct Hst as (_ & Hdrop & -> & _ & Hcc).
  exists (with_conn (with_send cl ch') cn').
  unfold WritePump. rewrite Hrun. split; [done|]. simpl.
  rewrite app_nil_r in Hwire. done.
Qed.

Lemma WritePump_writes_in_order_witness :
  ∃ cl' st,
    WritePump {| conn := {| wire := []; conn_closed := false; writes_left := None |};
                 send := {| buf := [demo_bytes "system"; demo_bytes "message"];
                            cap := 256; closed := true |};
                 userID := 1; username := "a" |} = Some (cl', st) ∧
    wire (conn cl') = [TextMessage (demo_bytes "system");
                       TextMessage (demo_bytes "message"); CloseMessage].
Proof.
  destruct (WritePump_writes_in_order
              {| conn := {| wire := []; conn_closed := false; writes_left := None |};
                 send := {| buf := [demo_bytes "system"; demo_bytes "message"];
                            cap := 256; closed := true |};
                 userID := 1; username := "a" |})
    as (cl' & st & Hrun & _ & _ & _ & Hclosed); [by left|].
  exists cl', st. split; [done|]. by destruct (Hclosed eq_refl) as (_ & -> & _).
Defined.

Lemma WritePump_write_error_loses_message_witness :
  ∃ cl',
    WritePump {| conn := {| wire := []; conn_closed := false; writes_left := Some 1 |};
                 send := {| buf := [demo_bytes "a"; demo_bytes "b"; demo_bytes "c"];
                            cap := 256; closed := false |};
                 userID := 1; username := "a" |} = Some (cl', ExitWriteError) ∧
    wire (conn cl') = [TextMessage (demo_bytes "a")] ∧
    buf (send cl') = [demo_bytes "c"].
Proof.
  destruct (WritePump_write_error_loses_message
              {| conn := {| wire := []; conn_closed := false; writes_left := Some 1 |};
                 send := {| buf := [demo_bytes "a"; demo_bytes "b"; demo_bytes "c"];
                            cap := 256; closed := false |};
                 userID := 1; username := "a" |} 1)
    as (cl' & Hrun & Hwire & Hbuf & _); [simpl; lia|reflexivity|by right|].
  by exists cl'.
Defined.

(** ** The inbound pump: frames it skips, frames it cannot take, read errors *)

Section inbound_edges.
Context {codec : JSON} {DB : Type} {sql : SQL DB}.

(** A frame that does not decode, a frame of a type other than
    ["message"] and ["typing"], and a frame of one of these types whose
    payload is not an object are skipped: the hub and the database stay as
    they are and the pump goes on with the frames that follow. *)
Theorem ReadPump_skips_frame (c : ptr) (now : Z) (message : bytes)
    (rest : list (Z * read_result)) (w : World DB) :
  (∃ err, json_Unmarshal message = inr err) ∨
  (∃ m, json_Unmarshal message = inl m ∧
        (Type' m ≠ "message" ∧ Type' m ≠ "typing" ∨ ∀ obj, Payload m ≠ VMap obj)) →
  ReadPump_frame c now message w = Done w ∧
  ReadPump c ((now, ReadOK message) :: rest) w = ReadPump c rest w.
Proof.
  intros Hskip.
  assert (ReadPump_frame c now message w = Done w) as Hframe.
  { unfold ReadPump_frame.
    destruct Hskip as [[err ->]|(m & -> & [[Hm Ht]|Hobj])]; [done| |].
    - by rewrite !decide_False.
    - unfold ReadPump_message, ReadPump_typing.
      destruct (Payload m) as [| | | | |obj| |] eqn:Hp;
        try (by repeat case_decide).
      by destruct (Hobj obj). }
  split; [done|]. simpl. by rewrite Hframe.
Qed.

(** A ["message"] frame whose payload is an object without a numeric
    [conversation_id], or without a string [content], is not skipped: the
    unchecked type assertion on the first such field panics, with the
    run-time's interface-conversion text naming the dynamic type of what
    the field holds.  The panic is that of [chat_fields], the two field
    reads at the head of the case, which are given neither the database nor
    the hub and come before every persistence and delivery call; it is the
    outcome of the frame and of the pump, so the frames that follow are
    never read. *)
Theorem ReadPump_malformed_chat_panics (c : ptr) (now : Z) (message : bytes)
    (msg : gmap string value) (rest : list (Z * read_result)) (w : World DB) :
  json_Unmarshal message = inl {| Type' := "message"; Payload := VMap msg |} →
  (∀ f, msg !! "conversation_id" ≠ Some (VFloat64 f)) ∨
  (∀ content, msg !! "content" ≠ Some (VString content)) →
  let reason :=
    match index msg "conversation_id" with
    | VFloat64 _ => interface_conversion (index msg "content") "string"
    | v => interface_conversion v "float64"
    end in
  chat_fields msg = Panic reason ∧
  ReadPump_frame c now message w = Panic reason ∧
  ReadPump c ((now, ReadOK message) :: rest) w = Panic reason.
Proof.
  intros Hdec Hbad reason.
  assert (chat_fields msg = Panic reason) as Hfields.
  { unfold reason, chat_fields, index.
    destruct (msg !! "conversation_id") as [[| |f| | | | |]|] eqn:Hcid; simpl; try done.
    destruct Hbad as [Hbad|Hbad]; [by destruct (Hbad f)|].
    destruct (msg !! "content") as [[| | | |content| | |]|] eqn:Hcontent; simpl; try done.
    by destruct (Hbad content). }
  assert (ReadPump_frame c now message w = Panic reason) as Hframe.
  { unfold ReadPump_frame. rewrite Hdec. simpl. unfold ReadPump_message.
    by rewrite Hfields. }
  split; [done|]. split; [done|]. simpl. by rewrite Hframe.
Qed.

(** A ["typing"] frame is never refused: whatever its payload holds (no
    field is required or checked), on a consistent hub the frame is done
    without a fault, the database is as it was and the hub is consistent
    again. *)
Theorem ReadPump_typing_never_faults (c : ptr) (cl : Client) (now : Z) (message : bytes)
    (m : WebSocketMessage) (w : World DB) :
  consistent (hub w) → heap (hub w) !! c = Some cl →
  json_Unmarshal message = inl m → Type' m = "typing" →
  ∃ w', ReadPump_frame c now message w = Done w' ∧
        database w' = database w ∧ consistent (hub w').
Proof.
  intros Hs Hh Hdec Ht. unfold ReadPump_frame. rewrite Hdec, Ht. simpl.
  unfold ReadPump_typing.
  destruct (Payload m) as [| | | | |typing| |]; try (by exists w).
  rewrite Hh.
  match goal with |- context [BroadcastMessage ?v _] => set (response := v) end.
  destruct (run_call_consistent (ToAll response) (hub w) Hs) as (h & Hrun & Hh').
  simpl in Hrun. destruct (BroadcastMessage response (hub w)) as [[h' e]| |]; try done.
  simpl in Hrun. injection Hrun as ->. by eexists.
Qed.

End inbound_edges.

Lemma ReadPump_skips_frame_witness :
  ReadPump (codec := lenient_JSON) (sql := demo_SQL) 1
    [(0%Z, ReadOK (demo_bytes "}{")); (1%Z, ReadOK (demo_bytes "ping"));
     (2%Z, ReadOK (demo_bytes "text chat"))] (demo_world true)
  = Done (demo_world true, Waiting).
Proof.
  destruct (ReadPump_skips_frame (codec := lenient_JSON) (sql := demo_SQL)
              1 0 (demo_bytes "}{")
              [(1%Z, ReadOK (demo_bytes "ping")); (2%Z, ReadOK (demo_bytes "text chat"))]
              (demo_world true)) as [_ ->].
  { left. by eexists. }
  destruct (ReadPump_skips_frame (codec := lenient_JSON) (sql := demo_SQL)
              1 1 (demo_bytes "ping") [(2%Z, ReadOK (demo_bytes "text chat"))]
              (demo_world true)) as [_ ->].
  { right. eexists. split; [reflexivity|]. left. split; discriminate. }
  destruct (ReadPump_skips_frame (codec := lenient_JSON) (sql := demo_SQL)
              1 2 (demo_bytes "text chat") [] (demo_world true)) as [_ ->].
  { right. eexists. split; [reflexivity|]. right. intros obj. discriminate. }
  reflexivity.
Defined.

Lemma ReadPump_malformed_chat_panics_witness :
  chat_fields ∅ = Panic "interface conversion: interface {} is nil, not float64" ∧
  ReadPump (codec := lenient_JSON) (sql := demo_SQL) 1
    [(0%Z, ReadOK (demo_bytes "bare chat")); (1%Z, ReadOK (demo_bytes "chat"))]
    (demo_world true) = Panic "interface conversion: interface {} is nil, not float64".
Proof.
  destruct (ReadPump_malformed_chat_panics (codec := lenient_JSON) (sql := demo_SQL)
              1 0 (demo_bytes "bare chat") ∅ [(1%Z, ReadOK (demo_bytes "chat"))]
              (demo_world true) eq_refl)
    as (Hfields & _ & Hpump).
  - left. intros f. by rewrite lookup_empty.
  - split; [exact Hfields|exact Hpump].
Defined.

Lemma ReadPump_typing_never_faults_witness :
  ∃ w', ReadPump_frame (codec := lenient_JSON) (sql := demo_SQL) 1 0
          (demo_bytes "bare typing") (demo_world true) = Done w' ∧
        database w' = database (demo_world true).
Proof.
  destruct (ReadPump_typing_never_faults (codec := lenient_JSON) (sql := demo_SQL)
              1 (demo_client 1 []) 0 (demo_bytes "bare typing")
              {| Type' := "typing"; Payload := VMap ∅ |} (demo_world true)
              consistent_demo_state eq_refl eq_refl eq_refl)
    as (w' & Hrun & Hdb & _).
  by exists w'.
Defined.

(** ** Teardown *)

Lemma WritePump_closed_returns (cl : Client) :
  closed (send cl) = true →
  ∃ cl' st, WritePump cl = Some (cl', st) ∧ st ≠ Waiting ∧
            conn_closed (conn cl') = true.
Proof.
  intros Hc.
  destruct (WritePump_loop_spec (S (length (buf (send cl)))) (send cl) (conn cl))
    as (ch' & cn' & st & Hrun & Hst); [lia|].
  exists (with_conn (with_send cl ch') cn'), st.
  unfold WritePump. rewrite Hrun. split; [done|]. simpl.
  destruct st; try done; [|naive_solver..].
  destruct Hst as (_ & Hopen & _). congruence.
Qed.

Section teardown.
Context {codec : JSON} {DB : Type} {sql : SQL DB}.

(** When reading from the transport fails, the inbound pump of a live
    client returns without handling any later frame and leaves the
    database alone; the client is out of the live set, its identity has no
    entry, its queue is closed with what it held, its transport is closed,
    and no other client object is touched.  The outbound pump of that
    client, run afterwards, does not wait: it returns and the transport is
    closed. *)
Theorem ReadPump_read_error_tears_down (c : ptr) (cl : Client) (now : Z) (err : string)
    (rest : list (Z * read_result)) (w : World DB) :
  consistent (hub w) → live (hub w) c → heap (hub w) !! c = Some cl →
  ∃ w', ReadPump c ((now, ReadFailed err) :: rest) w = Done (w', ExitReadError) ∧
        database w' = database w ∧
        ¬ live (hub w') c ∧ userMap (hub w') !! userID cl = None ∧
        heap (hub w') !! c =
          Some (with_conn (with_send cl (shut (send cl))) (Conn_Close (conn cl))) ∧
        (∀ c', c' ≠ c → heap (hub w') !! c' = heap (hub w) !! c') ∧
        ∃ cl' st,
          WritePump (with_conn (with_send cl (shut (send cl))) (Conn_Close (conn cl)))
            = Some (cl', st) ∧
          st ≠ Waiting ∧ conn_closed (conn cl') = true.
Proof.
  intros Hs Hl Hh.
  destruct (live_open (hub w) Hs c Hl) as (cl0 & Hh0 & Hopen).
  assert (cl0 = cl) as -> by congruence.
  eexists. split.
  - simpl. unfold ReadPump_exit.
    rewrite (Run_Unregister_live c cl (hub w) Hl Hh Hopen). simpl.
    rewrite lookup_insert_eq. done.
  - unfold live. simpl. split; [done|]. split.
    { intros [b Hb]. by rewrite lookup_delete_eq in Hb. }
    split; [by rewrite lookup_delete_eq|].
    split; [by rewrite lookup_insert_eq|].
    split; [intros c' Hne; by rewrite !lookup_insert_ne|].
    by apply WritePump_closed_returns.
Qed.

(** A client evicted by a direct delivery that found its queue full,
    whose inbound pump then meets a read error: run one after the other,
    neither faults.  The delivery closes the queue and removes the client;
    the unregister the pump asks for finds the client gone and does
    nothing, so the queue is closed once, and the pump only closes the
    transport. *)
Theorem teardown_after_eviction (uid : Z) (message : value) (data : bytes) (c : ptr)
    (cl : Client) (now : Z) (err : string) (w : World DB) :
  consistent (hub w) → userMap (hub w) !! uid = Some c →
  heap (hub w) !! c = Some cl → full (send cl) = true →
  json_Marshal message = inl data →
  SendToUser uid message (hub w) = Done (removed c cl (hub w), None) ∧
  ReadPump c [(now, ReadFailed err)] {| hub := removed c cl (hub w); database := database w |}
    = Done ({| hub := store c (with_conn (with_send cl (shut (send cl)))
                                 (Conn_Close (conn cl)))
                        (removed c cl (hub w));
               database := database w |}, ExitReadError).
Proof.
  intros Hs Hu Hh Hfull Hdata.
  destruct (mapped_live (hub w) Hs uid c Hu) as [Hl _].
  destruct (live_open (hub w) Hs c Hl) as (cl0 & Hh0 & Hopen).
  assert (cl0 = cl) as -> by congruence.
  split.
  - unfold SendToUser. rewrite Hu, Hdata.
    rewrite (select_send_open c cl data (hub w) Hh Hopen), Hfull. simpl.
    by rewrite (close_and_remove_open c cl (hub w) Hh Hopen).
  - simpl. unfold ReadPump_exit, Run_Unregister. simpl.
    rewrite lookup_delete_eq. simpl. by rewrite lookup_insert_eq.
Qed.

End teardown.

Lemma ReadPump_read_error_tears_down_witness :
  ∃ w', ReadPump (codec := demo_JSON) (sql := demo_SQL) 1
          [(0%Z, ReadFailed "EOF"); (1%Z, ReadOK (demo_bytes "chat"))] (demo_world true)
          = Done (w', ExitReadError) ∧
        database w' = database (demo_world true) ∧ ¬ live (hub w') 1.
Proof.
  destruct (ReadPump_read_error_tears_down (codec := demo_JSON) (sql := demo_SQL)
              1 (demo_client 1 []) 0 "EOF" [(1%Z, ReadOK (demo_bytes "chat"))]
              (demo_world true) consistent_demo_state
              (ex_intro _ true eq_refl) eq_refl)
    as (w' & Hrun & Hdb & Hnl & _).
  by exists w'.
Defined.

Lemma teardown_after_eviction_witness :
  ∃ w', ReadPump (codec := demo_JSON) (sql := demo_SQL) 2 [(0%Z, ReadFailed "EOF")]
          {| hub := removed 2 (demo_client 2 [demo_bytes "old"]) demo_state;
             database := database (demo_world true) |} = Done (w', ExitReadError).
Proof.
  eexists.
  apply (proj2 (teardown_after_eviction (codec := demo_JSON) (sql := demo_SQL)
                  2 (as_interface demo_chat) (demo_bytes "message") 2
                  (demo_client 2 [demo_bytes "old"]) 0 "EOF" (demo_world true)
                  consistent_demo_state eq_refl eq_refl eq_refl eq_refl)).
Defined.

(** ** The participants of a conversation *)

Section participants.
Context {DB : Type} {sql : SQL DB}.

Lemma scan_rows_inl (rows : list (Z + string)) (acc ids : list Z) :
  scan_rows rows acc = inl ids ↔ ∃ more, rows = inl <$> more ∧ ids = acc ++ more.
Proof.
  revert acc. induction rows as [|[id|err] rest IH]; intros acc; simpl.
  - split.
    + intros [= <-]. exists []. by rewrite app_nil_r.
    + intros ([|? ?] & Hrows & ->); [by rewrite app_nil_r|done].
  - rewrite IH. split.
    + intros (more & -> & ->). exists (id :: more). by rewrite <- app_assoc.
    + intros ([|id' more] & Hrows & ->); [done|].
      injection Hrows as <- ->. exists more. by rewrite <- app_assoc.
  - split; [done|]. by intros ([|? ?] & Hrows & _).
Qed.

(** [GetConversationParticipantIDs] returns a list exactly when the query
    runs, every row scans and the iteration reports no error, and the list
    is then the ids of the rows in the order the rows came; in every other
    case it returns an error and no partial list. *)
Theorem GetConversationParticipantIDs_all_rows (conversationID : Z) (d : DB)
    (ids : list Z) :
  GetConversationParticipantIDs conversationID d = inl ids ↔
  ∃ rows, query_participants d conversationID = inl rows ∧
          scanned rows = inl <$> ids ∧ rows_Err rows = None.
Proof.
  unfold GetConversationParticipantIDs.
  destruct (query_participants d conversationID) as [rows|err]; [|naive_solver].
  destruct (scan_rows (scanned rows) []) as [found|err] eqn:Hscan.
  - apply scan_rows_inl in Hscan as (more & Hrows & ->). simpl.
    destruct (rows_Err rows) as [err|] eqn:Herr.
    + split; [done|]. intros (rows' & [= <-] & _ & Herr'). congruence.
    + split.
      * intros [= <-]. by exists rows.
      * intros (rows' & [= <-] & Hrows' & _). f_equal.
        rewrite Hrows in Hrows'. by apply (inj (fmap inl)) in Hrows'.
  - split; [done|]. intros (rows' & [= <-] & Hrows & _).
    assert (scan_rows (scanned rows) [] = inl ids) as Hok.
    { apply scan_rows_inl. by exists ids. }
    congruence.
Qed.

End participants.

(** * Properties of the HTTP handlers *)

Section auth.
Context {hmac : JWT_HMAC} {DB : Type} {sql : SQL DB}.

(** [HandleVerify] and [WithAuth] decide alike.  For a GET request to
    [HandleVerify] and a request with the same cookies to a path
    [WithAuth] guards, either both refuse with the same 401 response and
    the next handler is not run, or [HandleVerify] answers with the user of
    the token (its password blanked) and [WithAuth] runs the next handler
    with that user in the request's context.  The database is never
    changed by the check. *)
Theorem HandleVerify_agrees_with_WithAuth (now : Z) (w : ResponseWriter)
    (r r' : HttpRequest) (d : DB) :
  Method r = "GET" →
  Cookie (plain r') = Cookie (plain r) →
  URL_Path r' ≠ "/api/auth/login" → URL_Path r' ≠ "/api/auth/register" →
  URL_Path r' ≠ "/api/auth/verify" →
  (∃ msg, HandleVerify now w r d = Done (http_Error w msg StatusUnauthorized, d) ∧
          ∀ next, WithAuth now next w r' d
                  = Done (http_Error w msg StatusUnauthorized, d)) ∨
  (∃ user, HandleVerify now w r d =
             Done (Write (EncodedUser {| User_ID := User_ID user; Username := Username user;
                                         Password := ""; Avatar := Avatar user;
                                         User_CreatedAt := User_CreatedAt user |})
                     (Header_Set "Content-Type" "application/json" w), d) ∧
           ∀ next, WithAuth now next w r' d = next w (WithContext user r') d).
Proof.
  intros Hget Hcookie Hp1 Hp2 Hp3. unfold HandleVerify, WithAuth.
  rewrite (bool_decide_eq_false_2 (Method r ≠ "GET")) by (intros H; by apply H).
  rewrite (bool_decide_eq_false_2 (_ ∨ _)) by naive_solver.
  rewrite Hcookie.
  destruct (Cookie (plain r) !! "auth_token") as [cookie|]; [|left; by eexists].
  simpl.
  destruct (bool_decide (is_Some (parse_err _)) || negb (token_Valid _));
    [left; by eexists|].
  destruct (index (claims _) "exp") as [| |exp| | | | |]; try (left; by eexists).
  destruct (bool_decide (int64_of_float64 exp < now)%Z); [left; by eexists|].
  destruct (index (claims _) "user_id") as [| |userID| | | | |]; try (left; by eexists).
  destruct (GetUserByID (int64_of_float64 userID) d) as [user|err]; [|left; by eexists].
  right. by exists user.
Qed.

(** A preflight request (method OPTIONS, no websocket upgrade) is
    answered by [WithCORS] itself with status 200 and the four CORS
    headers: placed behind it, neither [WithAuth] nor the handler runs,
    whatever credential the request carries and whatever its path. *)
Theorem preflight_is_answered_by_WithCORS (now : Z) (next : Handler DB)
    (r : HttpRequest) (d : DB) :
  Method r = "OPTIONS" → Header r !! "Upgrade" ≠ Some "websocket" →
  ∃ w, WithCORS (WithAuth now next) blank r d = Done (w, d) ∧
       status w = Some StatusOK ∧ body w = [] ∧
       header w !! "Access-Control-Allow-Origin" = Some "http://localhost:3000" ∧
       header w !! "Access-Control-Allow-Methods" = Some "GET, POST, PUT, DELETE, OPTIONS" ∧
       header w !! "Access-Control-Allow-Headers" = Some "Content-Type" ∧
       header w !! "Access-Control-Allow-Credentials" = Some "true".
Proof.
  intros Hm Hup. unfold WithCORS.
  rewrite bool_decide_eq_false_2.
  - rewrite bool_decide_eq_true_2 by done. eexists. split; [done|].
    repeat split.
  - destruct (Header r !! "Upgrade") as [v|] eqn:Hv; simpl; [|done].
    intros ->. done.
Qed.

End auth.

Section websocket_vs_api.
Context {codec : JSON} {jwt : JWT} {hmac : JWT_HMAC} {DB : Type} {sql : SQL DB}.

Lemma HandleWebSocket_accepts (r : Request) (cookie : string) (user : User)
    (world : World DB) :
  Cookie r !! "auth_token" = Some cookie →
  parse_err (jwt_ParseWithClaims cookie "your-secret-key") = None →
  token_Valid (jwt_ParseWithClaims cookie "your-secret-key") = true →
  GetUserByID (claimed_user (jwt_ParseWithClaims cookie "your-secret-key"))
    (database world) = inl user →
  match Upgrade r with
  | inr err => HandleWebSocket r world = Done (UpgradeFailed err, world)
  | inl cn =>
      ∃ h, HandleWebSocket r world
             = Done (Upgraded (fresh (dom (heap (hub world)))),
                     {| hub := h; database := database world |}) ∧
           heap h !! fresh (dom (heap (hub world))) =
             Some {| conn := cn; send := welcomed;
                     userID := claimed_user (jwt_ParseWithClaims cookie "your-secret-key");
                     username := Username user |} ∧
           userMap h !! claimed_user (jwt_ParseWithClaims cookie "your-secret-key")
             = Some (fresh (dom (heap (hub world))))
  end.
Proof.
  intros Hc He Hv Hu. unfold HandleWebSocket. rewrite Hc, He, Hv. simpl.
  unfold claimed_user in Hu. rewrite Hu.
  destruct (Upgrade r) as [cn|err]; [|done].
  pose proof (apply_op_Connect cn
                (claimed_user (jwt_ParseWithClaims cookie "your-secret-key"))
                (Username user) (hub world)) as Hconnect.
  unfold apply_op, claimed_user in Hconnect. unfold claimed_user.
  destruct (NewClient cn _ (Username user) (hub world)) as [client s1] eqn:Hnew.
  unfold NewClient in Hnew. injection Hnew as <- <-.
  rewrite Hconnect. simpl. eexists. split; [done|]. simpl.
  by rewrite !lookup_insert_eq.
Qed.

(** The websocket endpoint and the API middleware check the same cookie
    apart from each other.  Where the two parsers agree on the token:
    whenever [WithAuth] lets a request through with a user, the credential
    passes the websocket handler too, which goes on to the upgrade: when
    the upgrade succeeds the handler registers a client that carries the
    identity of the token and that user's name, and when the upgrader
    refuses the handshake the handler returns with the hub as it was.  But
    a valid token that has no numeric [exp] claim is refused by [WithAuth]
    as expired, while the websocket handler takes it in the same way. *)
Theorem websocket_admits_what_WithAuth_admits (now : Z) (w : ResponseWriter)
    (r : HttpRequest) (cookie : string) (world : World DB) :
  URL_Path r ≠ "/api/auth/login" → URL_Path r ≠ "/api/auth/register" →
  URL_Path r ≠ "/api/auth/verify" →
  Cookie (plain r) !! "auth_token" = Some cookie →
  jwt_ParseWithClaims cookie "your-secret-key"
    = jwt_ParseWithClaims_hmac cookie "your-secret-key" →
  (∀ user,
     (∀ next, WithAuth now next w r (database world)
              = next w (WithContext user r) (database world)) →
     match Upgrade (plain r) with
     | inr err => HandleWebSocket (plain r) world = Done (UpgradeFailed err, world)
     | inl cn =>
         ∃ h, HandleWebSocket (plain r) world
                = Done (Upgraded (fresh (dom (heap (hub world)))),
                        {| hub := h; database := database world |}) ∧
              heap h !! fresh (dom (heap (hub world))) =
                Some {| conn := cn; send := welcomed;
                        userID := claimed_user
                                    (jwt_ParseWithClaims_hmac cookie "your-secret-key");
                        username := Username user |} ∧
              userMap h !! claimed_user (jwt_ParseWithClaims_hmac cookie "your-secret-key")
                = Some (fresh (dom (heap (hub world))))
     end) ∧
  (∀ user,
     parse_err (jwt_ParseWithClaims_hmac cookie "your-secret-key") = None →
     token_Valid (jwt_ParseWithClaims_hmac cookie "your-secret-key") = true →
     (∀ exp, claims (jwt_ParseWithClaims_hmac cookie "your-secret-key") !! "exp"
             ≠ Some (VFloat64 exp)) →
     GetUserByID (claimed_user (jwt_ParseWithClaims_hmac cookie "your-secret-key"))
       (database world) = inl user →
     (∀ next, WithAuth now next w r (database world)
              = Done (http_Error w "Token expired" StatusUnauthorized, database world)) ∧
     match Upgrade (plain r) with
     | inr err => HandleWebSocket (plain r) world = Done (UpgradeFailed err, world)
     | inl cn =>
         ∃ h, HandleWebSocket (plain r) world
                = Done (Upgraded (fresh (dom (heap (hub world)))),
                        {| hub := h; database := database world |}) ∧
              heap h !! fresh (dom (heap (hub world))) =
                Some {| conn := cn; send := welcomed;
                        userID := claimed_user
                                    (jwt_ParseWithClaims_hmac cookie "your-secret-key");
                        username := Username user |} ∧
              userMap h !! claimed_user (jwt_ParseWithClaims_hmac cookie "your-secret-key")
                = Some (fresh (dom (heap (hub world))))
     end).
Proof.
  intros Hp1 Hp2 Hp3 Hc Hparse. split.
  - intros user Hpass.
    pose proof (Hpass (λ _ _ _, Panic "next")) as Hreached.
    specialize (Hpass (λ _ r' d', match ctx_user r' with
                                  | Some u => Done (Write (EncodedUser u) blank, d')
                                  | None => Panic "no user"
                                  end)).
    revert Hreached Hpass. unfold WithAuth.
    rewrite (bool_decide_eq_false_2 (_ ∨ _)) by naive_solver.
    rewrite Hc. simpl.
    destruct (parse_err (jwt_ParseWithClaims_hmac cookie "your-secret-key"))
      as [e|] eqn:He; [done|]. simpl.
    destruct (token_Valid (jwt_ParseWithClaims_hmac cookie "your-secret-key"))
      eqn:Hv; [|done]. simpl.
    destruct (index _ "exp") as [| |exp| | | | |]; try done.
    destruct (bool_decide (int64_of_float64 exp < now)%Z); [done|].
    destruct (index (claims (jwt_ParseWithClaims_hmac cookie "your-secret-key")) "user_id")
      as [| |userID| | | | |] eqn:Hid; try done.
    destruct (GetUserByID (int64_of_float64 userID) (database world))
      as [user'|err] eqn:Hu; [|done].
    intros _.
    intros [= <-].
    pose proof (HandleWebSocket_accepts (plain r) cookie user' world Hc) as Hws.
    rewrite Hparse in Hws. unfold claimed_user in Hws |- *. rewrite Hid in Hws |- *.
    exact (Hws He Hv Hu).
  - intros user He Hv Hexp Hu. split.
    + intros next. unfold WithAuth.
      rewrite (bool_decide_eq_false_2 (_ ∨ _)) by naive_solver.
      rewrite Hc. simpl. rewrite He, Hv. simpl.
      unfold index.
      destruct (claims _ !! "exp") as [[| |exp| | | | |]|] eqn:Hclaim; try done.
      by destruct (Hexp exp).
    + pose proof (HandleWebSocket_accepts (plain r) cookie user world Hc) as Hws.
      rewrite Hparse in Hws. exact (Hws He Hv Hu).
Qed.

End websocket_vs_api.

Lemma HandleVerify_agrees_with_WithAuth_witness :
  let r := demo_http "GET" "/api/auth/verify" (Some "alice") [] None in
  let r' := demo_http "POST" "/api/conversations/create" (Some "alice") [] None in
  let d := database (demo_world true) in
  (∃ msg, HandleVerify (hmac := demo_HMAC) (sql := demo_SQL) 500 blank r d
            = Done (http_Error blank msg StatusUnauthorized, d) ∧
          ∀ next, WithAuth (hmac := demo_HMAC) (sql := demo_SQL) 500 next blank r' d
                  = Done (http_Error blank msg StatusUnauthorized, d)) ∨
  (∃ user, HandleVerify (hmac := demo_HMAC) (sql := demo_SQL) 500 blank r d =
             Done (Write (EncodedUser {| User_ID := User_ID user; Username := Username user;
                                         Password := ""; Avatar := Avatar user;
                                         User_CreatedAt := User_CreatedAt user |})
                     (Header_Set "Content-Type" "application/json" blank), d) ∧
           ∀ next, WithAuth (hmac := demo_HMAC) (sql := demo_SQL) 500 next blank r' d
                   = next blank (WithContext user r') d).
Proof.
  intros r r' d.
  apply (HandleVerify_agrees_with_WithAuth (hmac := demo_HMAC) (sql := demo_SQL)
           500 blank r r' d); done.
Defined.

Lemma preflight_is_answered_by_WithCORS_witness :
  ∃ w, WithCORS (WithAuth (hmac := demo_HMAC) (sql := demo_SQL) 500
                   (λ _ _ _, Panic "handler"))
         blank (demo_http "OPTIONS" "/api/conversations" None [] None)
         (database (demo_world true))
       = Done (w, database (demo_world true)) ∧ status w = Some StatusOK.
Proof.
  destruct (preflight_is_answered_by_WithCORS (hmac := demo_HMAC) (sql := demo_SQL)
              500 (λ _ _ _, Panic "handler")
              (demo_http "OPTIONS" "/api/conversations" None [] None)
              (database (demo_world true)) eq_refl)
    as (w & Hrun & Hstatus & _); [done|].
  by exists w.
Defined.

Lemma websocket_admits_what_WithAuth_admits_witness :
  let r := demo_http "GET" "/api/conversations" (Some "eternal") [] None in
  (∀ next, WithAuth (hmac := demo_HMAC) (sql := demo_SQL) 500 next blank r
             (database (demo_world true))
           = Done (http_Error blank "Token expired" StatusUnauthorized,
                   database (demo_world true))) ∧
  ∃ h, HandleWebSocket (codec := demo_JSON) (jwt := demo_JWT_all) (sql := demo_SQL)
         (plain r) (demo_world true)
       = Done (Upgraded 3, {| hub := h; database := database (demo_world true) |}) ∧
       userID <$> heap h !! 3 = Some 1%Z ∧ userMap h !! 1%Z = Some 3.
Proof.
  intros r.
  destruct (websocket_admits_what_WithAuth_admits
              (codec := demo_JSON) (jwt := demo_JWT_all) (hmac := demo_HMAC)
              (sql := demo_SQL) 500 blank r "eternal" (demo_world true))
    as [_ Hrefused]; [done..|].
  destruct (Hrefused (demo_user 1)) as [Hauth Hws]; [done|done| |done|].
  { intros exp. vm_compute. discriminate. }
  split; [exact Hauth|].
  destruct Hws as (h & Hrun & Hheap & Humap). exists h.
  split; [exact Hrun|]. split; [|exact Humap].
  change (fresh (dom (heap (hub (demo_world true))))) with 3 in Hheap.
  by rewrite Hheap.
Defined.

(** * Creating conversations *)

Section transaction.
Context {DB Tx : Type} {csql : ConversationSQL DB Tx}.

Lemma add_participants_app (tx : Tx) (cid : Z) (pre post : list Z) :
  add_participants tx cid (pre ++ post) =
    match add_participants tx cid pre with
    | inl tx' => add_participants tx' cid post
    | inr err => inr err
    end.
Proof.
  revert tx. induction pre as [|uid pre IH]; intros tx; simpl; [done|].
  destruct (tx_insert_participant tx cid uid) as [tx' [e|]]; [done|]. apply IH.
Qed.

(** When [CreateConversation] returns an error the database is the one
    it was called with: the conversation row and the participants added
    before the failure are rolled back.  The one exception is a failure to
    read the conversation back after the commit: then the error is
    returned although the conversation and its participants are stored. *)
Theorem CreateConversation_error_rolls_back (name convType : string)
    (participants : list Z) (d d' : DB) (err : string) :
  CreateConversation name convType participants d = (d', inr err) →
  d' = d ∨
  ∃ tx cid e, tx_Commit tx = inl d' ∧ query_conversation d' cid = inr e ∧
              err = "failed to fetch created conversation: " +:+ e.
Proof.
  unfold CreateConversation.
  destruct (db_Begin d) as [tx|e0]; [|intros [= <- _]; by left].
  destruct (tx_insert_conversation tx name convType) as [tx1 [result|e1]];
    [|intros [= <- _]; by left].
  destruct (LastInsertId result) as [cid|e2]; [|intros [= <- _]; by left].
  destruct (add_participants tx1 cid participants) as [tx2|e3]; [|intros [= <- _]; by left].
  destruct (tx_Commit tx2) as [d1|e4] eqn:Hcommit; [|intros [= <- _]; by left].
  destruct (query_conversation d1 cid) as [c|e5] eqn:Hfetch; [done|].
  intros [= <- <-]. right. by exists tx2, cid, e5.
Qed.

(** The participants are added in the order of the list, and the first
    one the database refuses ends the call: nothing is stored, also not for
    the participants before it, and the error names that participant. *)
Theorem CreateConversation_refused_participant (name convType : string)
    (pre post : list Z) (uid : Z) (d : DB) (tx tx1 tx' : Tx) (result : sqlResult)
    (cid : Z) (e : string) :
  db_Begin d = inl tx →
  tx_insert_conversation tx name convType = (tx1, inl result) →
  LastInsertId result = inl cid →
  add_participants tx1 cid pre = inl tx' →
  (tx_insert_participant tx' cid uid).2 = Some e →
  CreateConversation name convType (pre ++ uid :: post) d
    = (d, inr ("failed to add participant " +:+ pretty uid +:+ ": " +:+ e)).
Proof.
  intros Hbegin Hins Hid Hpre Hrefused. unfold CreateConversation.
  rewrite Hbegin, Hins, Hid, add_participants_app, Hpre. simpl.
  destruct (tx_insert_participant tx' cid uid) as [tx'' [e'|]]; simpl in Hrefused; [|done].
  by injection Hrefused as ->.
Qed.

End transaction.

Lemma CreateConversation_error_rolls_back_witness :
  CreateConversation (csql := demo_ConversationSQL) "u" "direct" [2%Z; 2%Z] empty_conv_db
    = (empty_conv_db,
       inr "failed to add participant 2: UNIQUE constraint failed") ∧
  (empty_conv_db = empty_conv_db ∨
   ∃ tx cid e, tx_Commit (ConversationSQL := demo_ConversationSQL) tx = inl empty_conv_db ∧
               query_conversation (ConversationSQL := demo_ConversationSQL)
                 empty_conv_db cid = inr e ∧
               "failed to add participant 2: UNIQUE constraint failed"
                 = "failed to fetch created conversation: " +:+ e).
Proof.
  assert (Hrun : CreateConversation (csql := demo_ConversationSQL) "u" "direct"
                   [2%Z; 2%Z] empty_conv_db
                 = (empty_conv_db,
                    inr "failed to add participant 2: UNIQUE constraint failed"))
    by (vm_compute; reflexivity).
  split; [exact Hrun|].
  exact (CreateConversation_error_rolls_back (csql := demo_ConversationSQL)
           "u" "direct" [2%Z; 2%Z] empty_conv_db empty_conv_db _ Hrun).
Defined.

Lemma CreateConversation_refused_participant_witness :
  CreateConversation (csql := demo_ConversationSQL) "u" "direct" [1%Z; 2%Z; 2%Z; 3%Z]
    empty_conv_db
  = (empty_conv_db, inr "failed to add participant 2: UNIQUE constraint failed").
Proof.
  apply (CreateConversation_refused_participant (csql := demo_ConversationSQL)
           "u" "direct" [1%Z; 2%Z] [3%Z] 2 empty_conv_db empty_conv_db
           {| convs := [{| Conv_ID := 1; Conv_Name := "u"; Conv_Type := "direct";
                           Conv_CreatedAt := 0 |}]; members := [] |}
           {| convs := [{| Conv_ID := 1; Conv_Name := "u"; Conv_Type := "direct";
                           Conv_CreatedAt := 0 |}]; members := [(1%Z, 1%Z); (1%Z, 2%Z)] |}
           {| LastInsertId := inl 1%Z |} 1 "UNIQUE constraint failed");
    vm_compute; reflexivity.
Defined.

Section create_behind_auth.
Context {hmac : JWT_HMAC} {rjson : RequestJSON} {DB Tx : Type} {sql : SQL DB}
        {csql : ConversationSQL DB Tx}.

(** [HandleCreateConversation] reads the user from the request's context
    with an unchecked type assertion: called for a POST request whose
    context holds no user it panics.  Mounted behind [WithAuth] on a path
    that is not exempt it cannot be reached without a user: the pair
    always answers, with a status written, whatever the request holds. *)
Theorem HandleCreateConversation_behind_WithAuth (now : Z) (w : ResponseWriter)
    (r : HttpRequest) (d : DB) :
  URL_Path r ≠ "/api/auth/login" → URL_Path r ≠ "/api/auth/register" →
  URL_Path r ≠ "/api/auth/verify" →
  (∃ w' d', WithAuth now HandleCreateConversation w r d = Done (w', d') ∧
            is_Some (status w')) ∧
  (Method r = "POST" → ctx_user r = None →
   ∃ msg, HandleCreateConversation w r d = Panic msg ∧
          WithAuth now HandleCreateConversation w r d ≠ Panic msg).
Proof.
  intros Hp1 Hp2 Hp3.
  assert (Hanswer : ∃ w' d', WithAuth now HandleCreateConversation w r d = Done (w', d') ∧
                             is_Some (status w')).
  { unfold WithAuth.
    rewrite (bool_decide_eq_false_2 (_ ∨ _)) by naive_solver.
    unfold HandleCreateConversation. simpl.
    repeat case_match; eexists _, _; (split; [reflexivity|]); by eexists. }
  split; [done|].
  intros Hpost Hnone. eexists. split.
  - unfold HandleCreateConversation.
    rewrite (bool_decide_eq_false_2 (Method r ≠ "POST")) by (intros H; by apply H).
    by rewrite Hnone.
  - destruct Hanswer as (w' & d' & -> & _). done.
Qed.

(** For a direct conversation the name in the request is not used: two
    requests of the same user that differ in nothing but the name they
    ask for are answered alike and leave the same database. *)
Theorem HandleCreateConversation_direct_ignores_name (w : ResponseWriter)
    (r1 r2 : HttpRequest) (req1 req2 : CreateConversationRequest) (d : DB) :
  Method r1 = Method r2 → ctx_user r1 = ctx_user r2 →
  decode_CreateConversationRequest (Body r1) = inl req1 →
  decode_CreateConversationRequest (Body r2) = inl req2 →
  Req_Type req1 = "direct" → Req_Type req2 = "direct" →
  Req_Participants req1 = Req_Participants req2 →
  HandleCreateConversation w r1 d = HandleCreateConversation w r2 d.
Proof.
  intros Hm Hctx Hd1 Hd2 Ht1 Ht2 Hps. unfold HandleCreateConversation.
  by rewrite Hm, Hctx, Hd1, Hd2, Ht1, Ht2, Hps.
Qed.

End create_behind_auth.

Section duplicate_check.
Context {rjson : RequestJSON} {DB Tx : Type}.
Variables csql1 csql2 : ConversationSQL DB Tx.
Hypothesis same_Begin : db_Begin (ConversationSQL := csql1) = db_Begin (ConversationSQL := csql2).
Hypothesis same_insert_conversation :
  tx_insert_conversation (ConversationSQL := csql1)
  = tx_insert_conversation (ConversationSQL := csql2).
Hypothesis same_insert_participant :
  tx_insert_participant (ConversationSQL := csql1)
  = tx_insert_participant (ConversationSQL := csql2).
Hypothesis same_Commit : tx_Commit (ConversationSQL := csql1) = tx_Commit (ConversationSQL := csql2).
Hypothesis same_query_conversation :
  query_conversation (ConversationSQL := csql1) = query_conversation (ConversationSQL := csql2).

Lemma add_participants_same (tx : Tx) (cid : Z) (ps : list Z) :
  add_participants (csql := csql1) tx cid ps = add_participants (csql := csql2) tx cid ps.
Proof.
  revert tx. induction ps as [|uid ps IH]; intros tx; simpl; [done|].
  rewrite same_insert_participant.
  destruct (tx_insert_participant tx cid uid) as [tx' [e|]]; [done|]. apply IH.
Qed.

Lemma CreateConversation_same (name convType : string) (ps : list Z) (d : DB) :
  CreateConversation (csql := csql1) name convType ps d
  = CreateConversation (csql := csql2) name convType ps d.
Proof.
  unfold CreateConversation.
  rewrite same_Begin, same_insert_conversation, same_Commit, same_query_conversation.
  repeat case_match; try done; rewrite add_participants_same in *; congruence.
Qed.

(** The search for an existing direct conversation is made only when the
    list of participants has exactly one entry.  For every other request,
    in particular a direct one that lists the caller beside the other user,
    the answer and the database do not depend on what that search would
    find: the conversation is created again. *)
Theorem HandleCreateConversation_skips_duplicate_check (w : ResponseWriter)
    (r : HttpRequest) (d : DB) :
  (∀ req, decode_CreateConversationRequest (Body r) = inl req →
          Req_Type req = "direct" → length (Req_Participants req) ≠ 1) →
  HandleCreateConversation (csql := csql1) w r d
  = HandleCreateConversation (csql := csql2) w r d.
Proof.
  intros Hskip. unfold HandleCreateConversation.
  destruct (bool_decide (Method r ≠ "POST")); [done|].
  destruct (ctx_user r) as [user|]; [|done].
  destruct (decode_CreateConversationRequest (Body r)) as [req|e] eqn:Hreq; [|done].
  specialize (Hskip req eq_refl).
  assert (Hnone : (if bool_decide (Req_Type req = "direct")
                   then match Req_Participants req with
                        | [otherUserID] =>
                            GetExistingDirectConversation (csql := csql1)
                              (User_ID user) otherUserID d
                        | _ => inl None
                        end
                   else inl None)
                  = (if bool_decide (Req_Type req = "direct")
                     then match Req_Participants req with
                          | [otherUserID] =>
                              GetExistingDirectConversation (csql := csql2)
                                (User_ID user) otherUserID d
                          | _ => inl None
                          end
                     else inl None)).
  { destruct (bool_decide (Req_Type req = "direct")) eqn:Hdirect; [|done].
    apply bool_decide_eq_true_1 in Hdirect.
    destruct (Req_Participants req) as [|o [|o' rest]]; [done| |done].
    by destruct (Hskip Hdirect). }
  rewrite Hnone. repeat case_match; try done; rewrite CreateConversation_same in *; congruence.
Qed.

End duplicate_check.

Lemma HandleCreateConversation_behind_WithAuth_witness :
  let r := demo_http "POST" "/api/conversations/create" (Some "alice")
             (demo_bytes "direct with 2") None in
  (∃ w' d', WithAuth (hmac := demo_HMAC) (sql := demo_SQL_users) 500
              (HandleCreateConversation (rjson := demo_RequestJSON)
                 (csql := demo_ConversationSQL)) blank r empty_conv_db
            = Done (w', d') ∧ is_Some (status w')) ∧
  ∃ msg, HandleCreateConversation (rjson := demo_RequestJSON)
           (csql := demo_ConversationSQL) blank r empty_conv_db = Panic msg.
Proof.
  intros r.
  destruct (HandleCreateConversation_behind_WithAuth
              (hmac := demo_HMAC) (rjson := demo_RequestJSON) (sql := demo_SQL_users)
              (csql := demo_ConversationSQL) 500 blank r empty_conv_db)
    as [Hanswer Hpanic]; [done..|].
  split; [exact Hanswer|].
  destruct (Hpanic eq_refl eq_refl) as (msg & Hmsg & _). by exists msg.
Defined.

Lemma HandleCreateConversation_direct_ignores_name_witness :
  HandleCreateConversation (rjson := demo_RequestJSON) (csql := demo_ConversationSQL)
    blank (demo_http "POST" "/api/conversations/create" (Some "alice")
             (demo_bytes "direct with 2") (Some (demo_user 1))) empty_conv_db
  = HandleCreateConversation (rjson := demo_RequestJSON) (csql := demo_ConversationSQL)
      blank (demo_http "POST" "/api/conversations/create" (Some "alice")
               (demo_bytes "direct with 2, named pals") (Some (demo_user 1)))
      empty_conv_db.
Proof.
  apply (HandleCreateConversation_direct_ignores_name
           (rjson := demo_RequestJSON) (csql := demo_ConversationSQL) blank _ _
           {| Req_Name := "chat"; Req_Type := "direct"; Req_Participants := [2%Z] |}
           {| Req_Name := "pals"; Req_Type := "direct"; Req_Participants := [2%Z] |});
    reflexivity.
Defined.

Lemma HandleCreateConversation_skips_duplicate_check_witness :
  let r := demo_http "POST" "/api/conversations/create" (Some "alice")
             (demo_bytes "direct with 1 and 2") (Some (demo_user 1)) in
  HandleCreateConversation (rjson := demo_RequestJSON) (csql := demo_ConversationSQL)
    blank r empty_conv_db
  = HandleCreateConversation (rjson := demo_RequestJSON) (csql := blind_ConversationSQL)
      blank r empty_conv_db.
Proof.
  intros r.
  apply (HandleCreateConversation_skips_duplicate_check (rjson := demo_RequestJSON)
           demo_ConversationSQL blind_ConversationSQL
           eq_refl eq_refl eq_refl eq_refl eq_refl blank r empty_conv_db).
  intros req Hreq. vm_compute in Hreq. injection Hreq as <-. intros _. discriminate.
Defined.

(** * The configuration *)

Lemma substring_all (s : string) : String.substring 0 (String.length s) s = s.
Proof. induction s as [|a s IH]; simpl; [done|]. by rewrite IH. Qed.

Lemma HasPrefix_app (pre s : string) : HasPrefix (pre +:+ s) pre = true.
Proof.
  unfold HasPrefix. induction pre as [|a pre IH]; simpl; [by destruct s|].
  destruct (Ascii.ascii_dec a a); [done|congruence].
Qed.

Lemma TrimPrefix_app (pre s : string) : TrimPrefix (pre +:+ s) pre = s.
Proof.
  unfold TrimPrefix. rewrite HasPrefix_app.
  induction pre as [|a pre IH]; simpl.
  - rewrite Nat.sub_0_r. apply substring_all.
  - apply IH.
Qed.

Lemma IsAbs_no_scheme (path : string) :
  IsAbs path = true → HasPrefix path "sqlite://" = false.
Proof.
  unfold IsAbs, HasPrefix. destruct path as [|a path]; [done|].
  destruct a as [[] [] [] [] [] [] [] []]; vm_compute; done.
Qed.

Section config_facts.
Context {os : OS}.

Lemma CleanDatabasePath_updated (c : Config) (newPath : string) :
  HasPrefix newPath "sqlite://" = false →
  CleanDatabasePath (UpdateDatabasePath c newPath) =
    if IsAbs newPath then Done newPath
    else match os_Getwd with
         | inr err => Panic err
         | inl cwd => Done (filepath_Join cwd newPath)
         end.
Proof.
  intros Hplain. unfold CleanDatabasePath, UpdateDatabasePath.
  destruct (HasPrefix (DatabaseURL c) "sqlite://"); cbn [DatabaseURL].
  - rewrite TrimPrefix_app. by destruct (IsAbs newPath).
  - unfold TrimPrefix at 1 2 3. rewrite Hplain. by destruct (IsAbs newPath).
Qed.

(** After [UpdateDatabasePath] the path [CleanDatabasePath] gives is
    read off the new path alone, whether or not the old URL carried the
    [sqlite://] scheme: an absolute new path comes back as it is, and a
    relative one that does not itself begin with the scheme is joined to
    the working directory. *)
Theorem UpdateDatabasePath_then_Clean (c : Config) (newPath : string) :
  (IsAbs newPath = true →
   CleanDatabasePath (UpdateDatabasePath c newPath) = Done newPath) ∧
  (HasPrefix newPath "sqlite://" = false →
   CleanDatabasePath (UpdateDatabasePath c newPath) =
     if IsAbs newPath then Done newPath
     else match os_Getwd with
          | inr err => Panic err
          | inl cwd => Done (filepath_Join cwd newPath)
          end).
Proof.
  split; [|apply CleanDatabasePath_updated].
  intros Habs. rewrite CleanDatabasePath_updated by by apply IsAbs_no_scheme.
  by rewrite Habs.
Qed.

(** With no [DATABASE_URL] in the environment the database of a
    configuration from [Load] is [data/messenger.db] under the working
    directory; and whatever the environment holds, after
    [UpdateDatabasePath] with an absolute path the database is at that
    path. *)
Theorem Load_database_path (cwd : string) :
  os_Getwd = inl cwd →
  (os_LookupEnv "DATABASE_URL" = None →
   IsAbs (filepath_Join (filepath_Join cwd "data") "messenger.db") = true →
   (cfg ← Load; CleanDatabasePath cfg)
   = Done (filepath_Join (filepath_Join cwd "data") "messenger.db")) ∧
  (∀ newPath, IsAbs newPath = true →
     (cfg ← Load; CleanDatabasePath (UpdateDatabasePath cfg newPath)) = Done newPath).
Proof.
  intros Hcwd. unfold Load. rewrite Hcwd. split.
  - intros Henv Habs. simpl. unfold CleanDatabasePath, getEnv. cbn [DatabaseURL].
    rewrite Henv, TrimPrefix_app, Habs. done.
  - intros newPath Habs. simpl.
    rewrite CleanDatabasePath_updated by by apply IsAbs_no_scheme.
    by rewrite Habs.
Qed.

End config_facts.

Lemma UpdateDatabasePath_then_Clean_witness :
  CleanDatabasePath (os := demo_OS)
    (UpdateDatabasePath {| ServerAddress := ":8080"; DatabaseURL := "var/chat.db";
                           JWTSecret := "your-secret-key" |} "loadtest/loadtest.db")
  = Done "/srv/app/loadtest/loadtest.db".
Proof.
  apply (proj2 (UpdateDatabasePath_then_Clean (os := demo_OS)
                  {| ServerAddress := ":8080"; DatabaseURL := "var/chat.db";
                     JWTSecret := "your-secret-key" |} "loadtest/loadtest.db")).
  reflexivity.
Defined.

Lemma Load_database_path_witness :
  (cfg ← Load (os := bare_OS); CleanDatabasePath (os := bare_OS) cfg)
  = Done "/srv/app/data/messenger.db".
Proof.
  apply (proj1 (Load_database_path (os := bare_OS) "/srv/app" eq_refl)); reflexivity.
Defined.

Lemma Broadcast_range_order_witness :
  Broadcast_range [1; 2] (demo_bytes "typing") demo_state
  = Broadcast_range [2; 1] (demo_bytes "typing") demo_state.
Proof.
  apply (Broadcast_range_order [1; 2] [2; 1] (demo_bytes "typing") demo_state).
  - apply perm_swap.
  - apply NoDup_cons. split; [set_solver|]. apply NoDup_singleton.
  - intros c Hc. apply elem_of_cons in Hc as [->|Hc].
    + by exists (demo_client 1 []).
    + apply list_elem_of_singleton in Hc as ->.
      by exists (demo_client 2 [demo_bytes "old"]).
Defined.
